(** * docker-cgit mirror synchronisation: model and verification

    Shallow embedding of the scheduling daemon
    ([scripts/mirror-sync-daemon.py]), of the configuration manager
    ([scripts/mirror-manager.py]) and of the rotating logger
    ([scripts/mirror-logger.py]).

    Conventions.
    - A Python [dict] read from JSON is a finite map from key to JSON
      value; the [mirrors] dictionary, whose iteration order is
      observable, is an association list with distinct keys.
    - The file system is a finite map from path to file.
    - A Python call that can raise is a function into [result]; a
      [try ... except Exception] is a [match] on that result.
    - Library calls whose code is not part of the repository
      ([croniter], [json.dump], [datetime], the thread pool) are
      parameters or are modelled from the library documentation, as
      stated at each one.
    - Numbers in the configuration are integers; durations are counted
      in milliseconds. *)

From Stdlib Require Import ZArith Lia List String Ascii Bool DecimalString Sorted.
From Stdlib Require Import DecimalFacts DecimalPos.
From stdpp Require Import base option list strings gmap.

Import ListNotations.
Local Open Scope string_scope.
Local Open Scope list_scope.
Local Open Scope Z_scope.

(* ===================================================================== *)
(** ** Python values and exceptions                                       *)
(* ===================================================================== *)

Module Py.

(** A JSON value as [json.load] returns it.  Containers do not occur
    as fields of a mirror entry. *)
Inductive jval : Type :=
| JNull
| JBool (b : bool)
| JNum (z : Z)
| JStr (s : string).

#[global] Instance jval_eq_dec : EqDecision jval.
Proof. solve_decision. Defined.

(** Python truthiness ([bool(v)]). *)
Definition truthy (v : jval) : bool :=
  match v with
  | JNull => false
  | JBool b => b
  | JNum z => negb (z =? 0)
  | JStr s => negb (String.eqb s "")
  end.

(** [d.get(k, dflt)]. *)
Definition get (d : gmap string jval) (k : string) (dflt : jval) : jval :=
  default dflt (d !! k).

(** [d.get(k)]: a missing key reads as [None]. *)
Definition get_none (d : gmap string jval) (k : string) : jval :=
  get d k JNull.

(** [v or ''], used as a sort key. *)
Definition or_empty (v : jval) : jval :=
  if truthy v then v else JStr "".

(** Outcome of a call that may raise; the payload of [Raise] is
    [str(e)]. *)
Inductive result (A : Type) : Type :=
| Ok (a : A)
| Raise (msg : string).
Arguments Ok {A} a.
Arguments Raise {A} msg.

Definition bind {A B} (r : result A) (k : A -> result B) : result B :=
  match r with
  | Ok a => k a
  | Raise m => Raise m
  end.

(** Stable sort, as [list.sort(key=...)]: an element is placed before
    the first already-sorted element that it does not exceed, so equal
    keys keep their original order. *)
Section Sort.
Context {A : Type} (leb : A -> A -> bool).

Fixpoint insert_sorted (x : A) (l : list A) : list A :=
  match l with
  | [] => [x]
  | y :: l' => if leb x y then x :: y :: l' else y :: insert_sorted x l'
  end.

Fixpoint sorted (l : list A) : list A :=
  match l with
  | [] => []
  | x :: l' => insert_sorted x (sorted l')
  end.
End Sort.

(** [str.replace(old, new)] for a one-character [old]. *)
Fixpoint replace_char (old : ascii) (new : string) (s : string) : string :=
  match s with
  | EmptyString => EmptyString
  | String c s' =>
      if Ascii.eqb c old then new +:+ replace_char old new s'
      else String c (replace_char old new s')
  end.

(** The value of a decimal digit. *)
Definition digit_val (c : ascii) : option Z :=
  let n := nat_of_ascii c in
  if ((48 <=? n) && (n <=? 57))%nat then Some (Z.of_nat n - 48) else None.

(** [str(n)] for an integer. *)
Definition str_of_Z (z : Z) : string := NilZero.string_of_int (Z.to_int z).

(** [c.isspace()] for an ASCII character. *)
Definition is_space (c : ascii) : bool :=
  let n := nat_of_ascii c in
  ((9 <=? n) && (n <=? 13) || (28 <=? n) && (n <=? 32))%nat.

Fixpoint lstrip (s : string) : string :=
  match s with
  | String c s' => if is_space c then lstrip s' else s
  | EmptyString => EmptyString
  end.

(** [s.strip()]. *)
Definition strip (s : string) : string :=
  String.rev (lstrip (String.rev (lstrip s))).

Fixpoint int_digits (s : string) (acc : Z) (after_digit : bool) : option Z :=
  match s with
  | EmptyString => if after_digit then Some acc else None
  | String c s' =>
      match digit_val c with
      | Some v => int_digits s' (10 * acc + v) true
      | None =>
          if Ascii.eqb c "_" && after_digit then int_digits s' acc false else None
      end
  end.

(** [int(s)] on an ASCII string: surrounding white space, an optional
    sign, then decimal digits that single underscores may separate.
    [None] stands for [ValueError]. *)
Definition py_int (s : string) : option Z :=
  match strip s with
  | String "-" s' => Z.opp <$> int_digits s' 0 false
  | String "+" s' => int_digits s' 0 false
  | s' => int_digits s' 0 false
  end.

(** [str(v)] for a JSON value. *)
Definition py_str (v : jval) : string :=
  match v with
  | JNull => "None"
  | JBool true => "True"
  | JBool false => "False"
  | JNum z => str_of_Z z
  | JStr s => s
  end.

End Py.
Export Py.

(* ===================================================================== *)
(** ** File system                                                        *)
(* ===================================================================== *)

Module FS.

(** A directory tree restricted to regular files: path to file.
    [os.makedirs(..., exist_ok=True)] does not change it. *)

Section Ops.
Context {F : Type}.

(** [os.path.exists(path)]. *)
Definition exists_ (path : string) (d : gmap string F) : bool :=
  bool_decide (is_Some (d !! path)).

(** [os.remove(path)]; [OSError] when the file is missing. *)
Definition remove (path : string) (d : gmap string F) : result (gmap string F) :=
  match d !! path with
  | Some _ => Ok (delete path d)
  | None => Raise "No such file or directory"
  end.

(** [os.rename(src, dst)]: replaces [dst] when it exists; [OSError]
    when [src] is missing. *)
Definition rename (src dst : string) (d : gmap string F) : result (gmap string F) :=
  match d !! src with
  | Some f => Ok (<[dst := f]> (delete src d))
  | None => Raise "No such file or directory"
  end.

(** [try: op except OSError: pass]. *)
Definition quiet (r : result (gmap string F)) (d : gmap string F) : gmap string F :=
  match r with
  | Ok d' => d'
  | Raise _ => d
  end.

End Ops.

Fixpoint contains_char (c : ascii) (s : string) : bool :=
  match s with
  | EmptyString => false
  | String c' s' => Ascii.eqb c c' || contains_char c s'
  end.

(** The part of [s] that follows the prefix [p], when [p] is one. *)
Fixpoint strip_prefix (p s : string) : option string :=
  match p, s with
  | EmptyString, _ => Some s
  | String a p', String b s' => if Ascii.eqb a b then strip_prefix p' s' else None
  | String _ _, EmptyString => None
  end.

(** [glob.glob(prefix + "*")] for a [prefix] without wildcard
    characters: the paths that extend [prefix] inside the same
    directory.  The order is that of the directory listing; every
    caller sorts the result. *)
Definition glob_match (prefix p : string) : bool :=
  match strip_prefix prefix p with
  | Some rest => negb (contains_char "/" rest)
  | None => false
  end.

Definition glob {F : Type} (prefix : string) (d : gmap string F) : list string :=
  List.filter (glob_match prefix) (fst <$> map_to_list d).

End FS.

(* ===================================================================== *)
(** ** Log sink                                                           *)
(* ===================================================================== *)

Module LogSink.

(** A log file: what [os.path.getsize] reports and the text it holds.
    Appending a line grows both. *)
Record file : Type := File { size : Z; data : string }.

#[global] Instance file_eq_dec : EqDecision file.
Proof. solve_decision. Defined.

Definition MAX_LOG_SIZE : Z := 10 * 1024 * 1024.
Definition MAX_ROTATED_LOGS : nat := 3.

(** [f"{log_file}.{i}"]. *)
Definition backup (log_file : string) (i : Z) : string :=
  log_file +:+ "." +:+ str_of_Z i.

(** [open(log_file, 'a').write(line)]. *)
Definition append (log_file line : string) (d : gmap string file) : gmap string file :=
  match d !! log_file with
  | Some f => <[log_file := File (size f + Z.of_nat (String.length line)) (data f +:+ line)]> d
  | None => <[log_file := File (Z.of_nat (String.length line)) line]> d
  end.

(** *** [mirror-logger.py]: [MirrorLogger] *)

(** [range(n, 0, -1)]. *)
Fixpoint range_down (n : nat) : list Z :=
  match n with
  | O => []
  | S n' => Z.of_nat n :: range_down n'
  end.

Definition rotate_step (log_file : string) (d : gmap string file) (i : Z) : gmap string file :=
  if FS.exists_ (backup log_file i) d
  then FS.quiet (FS.rename (backup log_file i) (backup log_file (i + 1)) d) d
  else d.

(** [MirrorLogger._rotate_logs]. *)
Definition _rotate_logs (log_file : string) (d : gmap string file) : gmap string file :=
  let oldest_log := backup log_file (Z.of_nat MAX_ROTATED_LOGS) in
  let d1 := if FS.exists_ oldest_log d then FS.quiet (FS.remove oldest_log d) d else d in
  let d2 := foldl (rotate_step log_file) d1 (range_down (MAX_ROTATED_LOGS - 1)) in
  if FS.exists_ log_file d2
  then FS.quiet (FS.rename log_file (backup log_file 1) d2) d2
  else d2.

(** [MirrorLogger._rotate_if_needed]. *)
Definition _rotate_if_needed (log_file : string) (d : gmap string file) : gmap string file :=
  match d !! log_file with
  | None => d
  | Some f => if MAX_LOG_SIZE <=? size f then _rotate_logs log_file d else d
  end.

(** [f"[{timestamp}] [{level}] {message}\n"]. *)
Definition log_line (timestamp level message : string) : string :=
  "[" +:+ timestamp +:+ "] [" +:+ level +:+ "] " +:+ message +:+ String "010"%char "".

(** [MirrorLogger._log]; [timestamp] is the formatted current time.
    The result is the file system and the line sent to standard
    output. *)
Definition _log (log_file timestamp level message : string) (d : gmap string file)
  : gmap string file * string :=
  let line := log_line timestamp level message in
  (append log_file line (_rotate_if_needed log_file d), line).

(** A history of the log directory: the active file grows to each of
    [contents] in turn, and the rotation check [check] runs on each. *)
Fixpoint rotations (check : gmap string file -> gmap string file) (log_file : string)
  (contents : list file) (d : gmap string file) : gmap string file :=
  match contents with
  | [] => d
  | c :: cs => rotations check log_file cs (check (<[log_file := c]> d))
  end.

(** *** [mirror-sync-daemon.py]: [SimpleLogger] *)

Definition LOG_FILE : string := "/opt/cgit/data/logs/mirror-sync.log".

(** [s.split('.')[-1]]. *)
Fixpoint last_component (s : string) : string :=
  match s with
  | EmptyString => EmptyString
  | String c s' =>
      if FS.contains_char "." s' then last_component s'
      else if Ascii.eqb c "." then s' else s
  end.

(** One iteration of the loop "Rotate numbered logs". *)
Definition rotate_numbered (d : gmap string file) (old_log : string) : gmap string file :=
  match py_int (last_component old_log) with
  | Some num => FS.quiet (FS.rename old_log (backup LOG_FILE (num + 1)) d) d
  | None => d
  end.

(** [SimpleLogger.check_rotation]. *)
Definition check_rotation (d : gmap string file) : gmap string file :=
  match d !! LOG_FILE with
  | None => d
  | Some f =>
      if MAX_LOG_SIZE <=? size f then
        let existing_logs :=
          sorted (fun a b => String.leb b a) (FS.glob (LOG_FILE +:+ ".") d) in
        let d1 := foldl (fun d' old_log => FS.quiet (FS.remove old_log d') d') d
                        (drop (MAX_ROTATED_LOGS - 1) existing_logs) in
        let d2 := foldl rotate_numbered d1 (take (MAX_ROTATED_LOGS - 1) existing_logs) in
        FS.quiet (FS.rename LOG_FILE (backup LOG_FILE 1) d2) d2
      else d
  end.

(** [SimpleLogger._log]. *)
Definition daemon_log (timestamp level message : string) (d : gmap string file)
  : gmap string file * string :=
  let line := log_line timestamp level message in
  (append LOG_FILE line (check_rotation d), line).

(** *** [mirror-logger.py]: reading and cleaning *)

(** [f.readlines()] of a file opened in text mode: the lines of the
    text, each with its newline; a carriage return, alone or before a
    line feed, ends a line as well and is read as a line feed.  [cur]
    is the line read so far, reversed. *)
Fixpoint readlines_go (cur : string) (s : string) : list string :=
  match s with
  | EmptyString =>
      match cur with
      | EmptyString => []
      | _ => [String.rev cur]
      end
  | String c s' =>
      if Ascii.eqb c "010" then String.rev (String "010" cur) :: readlines_go EmptyString s'
      else if Ascii.eqb c "013" then
        String.rev (String "010" cur)
        :: match s' with
           | String c' s'' =>
               if Ascii.eqb c' "010" then readlines_go EmptyString s''
               else readlines_go EmptyString s'
           | EmptyString => []
           end
      else readlines_go (String c cur) s'
  end.

Definition readlines (s : string) : list string := readlines_go EmptyString s.

(** [sub in s]. *)
Fixpoint contains (sub s : string) : bool :=
  String.prefix sub s ||
  match s with
  | EmptyString => false
  | String _ s' => contains sub s'
  end.

(** [l[-limit:]] for an integer [limit] other than zero: the last
    [limit] elements, or the list without its first [-limit] ones. *)
Definition last_slice {A : Type} (limit : Z) (l : list A) : list A :=
  if 0 <? limit then drop (length l - Z.to_nat limit) l
  else drop (Z.to_nat (- limit)) l.

(** The lines of the file at [path], if there is one. *)
Definition lines_of (path : string) (d : gmap string file) : list string :=
  match d !! path with
  | Some f => readlines (data f)
  | None => []
  end.

(** [range(1, n + 1)]. *)
Definition range_up (n : nat) : list Z := Z.of_nat <$> seq 1 n.

(** [MirrorLogger.get_recent_logs]; [repo_name] is [None] when not
    given. *)
Definition get_recent_logs (log_file : string) (repo_name : option string) (limit : Z)
  (d : gmap string file) : list string :=
  let all_logs :=
    lines_of log_file d
    ++ (range_up MAX_ROTATED_LOGS ≫= fun i => lines_of (backup log_file i) d) in
  let all_logs :=
    match repo_name with
    | Some (String c r) => List.filter (contains (String c r)) all_logs
    | _ => all_logs
    end in
  if limit =? 0 then all_logs else last_slice limit all_logs.

(** [len(s.split('.'))]. *)
Fixpoint count_parts (s : string) : nat :=
  match s with
  | EmptyString => 1
  | String c s' => if Ascii.eqb c "." then S (count_parts s') else count_parts s'
  end.

(** [s.isdigit()] for an ASCII string. *)
Fixpoint all_digit_chars (s : string) : bool :=
  match s with
  | EmptyString => true
  | String c s' => bool_decide (is_Some (digit_val c)) && all_digit_chars s'
  end.

Definition isdigit (s : string) : bool :=
  negb (String.eqb s "") && all_digit_chars s.

(** The test of [clear_old_logs] on one path: a numbered backup beyond
    the retention count. *)
Definition beyond_retention (path : string) : bool :=
  (2 <? count_parts path)%nat && isdigit (last_component path) &&
  match py_int (last_component path) with
  | Some rotation_num => Z.of_nat MAX_ROTATED_LOGS <? rotation_num
  | None => false
  end.

(** [MirrorLogger.clear_old_logs]. *)
Definition clear_old_logs (log_file : string) (d : gmap string file) : gmap string file :=
  foldl (fun d' path => if beyond_retention path then FS.quiet (FS.remove path d') d' else d')
        d (FS.glob (log_file +:+ ".") d).

End LogSink.

(* ===================================================================== *)
(** ** Dates and times                                                    *)
(* ===================================================================== *)

Module DateTime.

(** The fields of a [datetime]; [tzinfo] is the UTC offset in seconds
    of an aware value and [None] for a naive one. *)
Record datetime : Type := DT {
  year : Z; month : Z; day : Z;
  hour : Z; minute : Z; second : Z; microsecond : Z;
  tzinfo : option Z
}.

#[global] Instance datetime_eq_dec : EqDecision datetime.
Proof. solve_decision. Defined.

(** [datetime(y, m, d)]. *)
Definition midnight (y m d : Z) : datetime := DT y m d 0 0 0 0 None.

(** [dt.replace(tzinfo=None)]. *)
Definition drop_tzinfo (t : datetime) : datetime :=
  DT (year t) (month t) (day t) (hour t) (minute t) (second t) (microsecond t) None.

Definition fields (t : datetime) : list Z :=
  [year t; month t; day t; hour t; minute t; second t; microsecond t].

Fixpoint lex_leb (a b : list Z) : bool :=
  match a, b with
  | x :: a', y :: b' => (x <? y) || ((x =? y) && lex_leb a' b')
  | _, _ => true
  end.

(** [a <= b] for two naive values. *)
Definition naive_leb (a b : datetime) : bool := lex_leb (fields a) (fields b).

Definition naive_ltb (a b : datetime) : bool := negb (naive_leb b a).

(** [a <= now] where [now = datetime.now()] is naive: comparing an
    aware value with it raises [TypeError]. *)
Definition le_now (a now : datetime) : result bool :=
  match tzinfo a with
  | None => Ok (naive_leb a now)
  | Some _ => Raise "can't compare offset-naive and offset-aware datetimes"
  end.

Definition is_leap (y : Z) : bool :=
  ((y mod 4 =? 0) && negb (y mod 100 =? 0)) || (y mod 400 =? 0).

Definition days_in_month (y m : Z) : Z :=
  if m =? 2 then (if is_leap y then 29 else 28)
  else if (m =? 4) || (m =? 6) || (m =? 9) || (m =? 11) then 30
  else 31.

Definition valid (t : datetime) : bool :=
  (1 <=? year t) && (year t <=? 9999) &&
  (1 <=? month t) && (month t <=? 12) &&
  (1 <=? day t) && (day t <=? days_in_month (year t) (month t)) &&
  (0 <=? hour t) && (hour t <? 24) &&
  (0 <=? minute t) && (minute t <? 60) &&
  (0 <=? second t) && (second t <? 60) &&
  (0 <=? microsecond t) && (microsecond t <? 1000000) &&
  match tzinfo t with
  | None => true
  | Some off => (-86400 <? off) && (off <? 86400)
  end.

(** *** Parsing: [datetime.fromisoformat] *)

(** Exactly [n] decimal digits at the head of [s]. *)
Fixpoint take_digits (n : nat) (acc : Z) (s : string) : option (Z * string) :=
  match n, s with
  | O, _ => Some (acc, s)
  | S n', String c s' =>
      match digit_val c with
      | Some v => take_digits n' (10 * acc + v) s'
      | None => None
      end
  | S _, EmptyString => None
  end.

Definition expect (c : ascii) (s : string) : option string :=
  match s with
  | String c' s' => if Ascii.eqb c c' then Some s' else None
  | EmptyString => None
  end.

(** [.fff[fff]]: three or six digits, in microseconds. *)
Definition parse_fraction (s : string) : option (Z * string) :=
  match take_digits 6 0 s with
  | Some r => Some r
  | None =>
      match take_digits 3 0 s with
      | Some (v, rest) => Some (v * 1000, rest)
      | None => None
      end
  end.

(** [HH[:MM[:SS[.fff[fff]]]]] followed by the rest of the string. *)
Definition parse_time (s : string) : option (Z * Z * Z * Z * string) :=
  '(h, s1) ← take_digits 2 0 s;
  match expect ":" s1 with
  | None => Some (h, 0, 0, 0, s1)
  | Some s2 =>
      '(m, s3) ← take_digits 2 0 s2;
      match expect ":" s3 with
      | None => Some (h, m, 0, 0, s3)
      | Some s4 =>
          '(sec, s5) ← take_digits 2 0 s4;
          match expect "." s5 with
          | None => Some (h, m, sec, 0, s5)
          | Some s6 =>
              '(us, s7) ← parse_fraction s6;
              Some (h, m, sec, us, s7)
          end
      end
  end.

(** [+HH:MM[:SS]]; nothing may follow. *)
Definition parse_offset (s : string) : option (option Z) :=
  match s with
  | EmptyString => Some None
  | String c s0 =>
      sign ← (if Ascii.eqb c "+" then Some 1
              else if Ascii.eqb c "-" then Some (-1) else None);
      '(h, s1) ← take_digits 2 0 s0;
      s2 ← expect ":" s1;
      '(m, s3) ← take_digits 2 0 s2;
      match s3 with
      | EmptyString => Some (Some (sign * (h * 3600 + m * 60)))
      | _ =>
          s4 ← expect ":" s3;
          '(sec, s5) ← take_digits 2 0 s4;
          match s5 with
          | EmptyString => Some (Some (sign * (h * 3600 + m * 60 + sec)))
          | _ => None
          end
      end
  end.

(** The grammar of the library documentation,
    [YYYY-MM-DD[*HH[:MM[:SS[.fff[fff]]]][+HH:MM[:SS]]]], where [*] is
    any one character. *)
Definition parse_iso (s : string) : option datetime :=
  '(y, s1) ← take_digits 4 0 s;
  s2 ← expect "-" s1;
  '(mo, s3) ← take_digits 2 0 s2;
  s4 ← expect "-" s3;
  '(d, s5) ← take_digits 2 0 s4;
  match s5 with
  | EmptyString => Some (midnight y mo d)
  | String _ s6 =>
      '(h, mi, sec, us, s7) ← parse_time s6;
      off ← parse_offset s7;
      Some (DT y mo d h mi sec us off)
  end.

(** [datetime.fromisoformat(s)]; [ValueError] on a string outside the
    grammar or on a field out of range. *)
Definition fromisoformat (s : string) : result datetime :=
  match parse_iso s with
  | Some t =>
      if valid t then Ok t
      else Raise ("Invalid isoformat string: '" +:+ s +:+ "'")
  | None => Raise ("Invalid isoformat string: '" +:+ s +:+ "'")
  end.

(** *** Printing: [datetime.isoformat] of a naive value *)

Fixpoint zeros (n : nat) : string :=
  match n with
  | O => EmptyString
  | S n' => String "0" (zeros n')
  end.

Definition zero_pad (width : nat) (s : string) : string :=
  zeros (width - String.length s) +:+ s.

Definition fixed (width : nat) (z : Z) : string := zero_pad width (str_of_Z z).

Definition isoformat (t : datetime) : string :=
  fixed 4 (year t) +:+ "-" +:+ fixed 2 (month t) +:+ "-" +:+ fixed 2 (day t) +:+ "T" +:+
  fixed 2 (hour t) +:+ ":" +:+ fixed 2 (minute t) +:+ ":" +:+ fixed 2 (second t) +:+
  (if microsecond t =? 0 then "" else "." +:+ fixed 6 (microsecond t)).

(** The number that a decimal numeral denotes when it is read from the
    left after [acc], as [take_digits] reads it. *)
Fixpoint horner (d : Decimal.uint) (acc : Z) : Z :=
  match d with
  | Decimal.Nil => acc
  | Decimal.D0 d' => horner d' (10 * acc)
  | Decimal.D1 d' => horner d' (10 * acc + 1)
  | Decimal.D2 d' => horner d' (10 * acc + 2)
  | Decimal.D3 d' => horner d' (10 * acc + 3)
  | Decimal.D4 d' => horner d' (10 * acc + 4)
  | Decimal.D5 d' => horner d' (10 * acc + 5)
  | Decimal.D6 d' => horner d' (10 * acc + 6)
  | Decimal.D7 d' => horner d' (10 * acc + 7)
  | Decimal.D8 d' => horner d' (10 * acc + 8)
  | Decimal.D9 d' => horner d' (10 * acc + 9)
  end.

End DateTime.

Export DateTime.

(* ===================================================================== *)
(** ** Cron expressions                                                   *)
(* ===================================================================== *)

Module Cron.

(** The interface of the bundled [croniter] library that the programs
    use: [croniter(expr, start)] parses the expression and raises on an
    invalid one; [get_next(datetime)] returns the first fire time after
    [start] and can raise as well.  The iterator is represented by the
    parsed expression, its start time being passed to [get_next]. *)
Class Croniter : Type := {
  cron : Type;
  croniter : jval -> result cron;
  get_next : cron -> datetime -> result datetime
}.

(** What the programs rely on: a fire time lies strictly after the
    start and carries the same [tzinfo]. *)
Definition strictly_after (L : Croniter) : Prop :=
  forall c t t', get_next c t = Ok t' ->
    naive_ltb (drop_tzinfo t) (drop_tzinfo t') = true /\ tzinfo t' = tzinfo t.

(** *** A reference evaluator for daily schedules

    It covers the expressions [M H * * *] whose minute and hour fields
    are [*], a number or [*/n]; every other string is rejected.  On
    these expressions it computes the fire times of [croniter]. *)

Inductive field : Type :=
| Any
| Every (n : Z)
| At (n : Z).

Fixpoint all_digits (s : string) (acc : Z) : option Z :=
  match s with
  | EmptyString => Some acc
  | String c s' =>
      match digit_val c with
      | Some v => all_digits s' (10 * acc + v)
      | None => None
      end
  end.

Definition number (s : string) : option Z :=
  match s with
  | EmptyString => None
  | _ => all_digits s 0
  end.

Definition parse_field (bound : Z) (s : string) : option field :=
  match s with
  | "*" => Some Any
  | String "*" (String "/" n) =>
      v ← number n; if (1 <=? v) && (v <? bound) then Some (Every v) else None
  | _ => v ← number s; if v <? bound then Some (At v) else None
  end.

Definition field_matches (f : field) (v : Z) : bool :=
  match f with
  | Any => true
  | Every n => v mod n =? 0
  | At n => v =? n
  end.

Record daily : Type := Daily { at_minute : field; at_hour : field }.

Definition parse_daily (expr : jval) : result daily :=
  match expr with
  | JStr s =>
      match String.words s with
      | [m; h; "*"; "*"; "*"] =>
          match parse_field 60 m, parse_field 24 h with
          | Some fm, Some fh => Ok (Daily fm fh)
          | _, _ => Raise ("Invalid cron expression: " +:+ s)
          end
      | _ => Raise ("Invalid cron expression: " +:+ s)
      end
  | _ => Raise "Invalid cron expression"
  end.

(** The start of the minute that follows [t]. *)
Definition next_minute (t : datetime) : datetime :=
  let tz := tzinfo t in
  if minute t <? 59 then DT (year t) (month t) (day t) (hour t) (minute t + 1) 0 0 tz
  else if hour t <? 23 then DT (year t) (month t) (day t) (hour t + 1) 0 0 0 tz
  else if day t <? days_in_month (year t) (month t)
       then DT (year t) (month t) (day t + 1) 0 0 0 0 tz
  else if month t <? 12 then DT (year t) (month t + 1) 1 0 0 0 0 tz
  else DT (year t + 1) 1 1 0 0 0 0 tz.

Fixpoint search (fuel : nat) (c : daily) (t : datetime) : result datetime :=
  match fuel with
  | O => Raise "failed to find next date"
  | S fuel' =>
      if field_matches (at_minute c) (minute t) && field_matches (at_hour c) (hour t)
      then Ok t
      else search fuel' c (next_minute t)
  end.

(** A daily schedule fires within the 1440 minutes after the start. *)
Definition daily_next (c : daily) (start : datetime) : result datetime :=
  search 1440 c (next_minute start).

Definition reference : Croniter :=
  {| cron := daily; croniter := parse_daily; get_next := daily_next |}.

End Cron.
Export Cron.

(* ===================================================================== *)
(** ** The persisted configuration                                        *)
(* ===================================================================== *)

Module Store.

(** The [defaults] object.  [schedule] and [timeout] are read with
    [defaults["..."]] and are present in every configuration the two
    programs create; [max_concurrent] is read with [.get] and may be
    absent. *)
Record Defaults : Type := {
  schedule : jval;
  timeout : jval;
  max_concurrent : option jval
}.

(** The root object of the configuration file.  [mirrors] maps a
    repository name to its entry, a dictionary of JSON values; its
    iteration order is the order of the list, whose keys are distinct. *)
Record Config : Type := {
  version : jval;
  defaults : Defaults;
  mirrors : list (string * gmap string jval)
}.

(** [_create_default_config], and the literal of [load_config]. *)
Definition default_config : Config :=
  {| version := JStr "1.0";
     defaults := {| schedule := JStr "0 */6 * * *";
                    timeout := JNum 600;
                    max_concurrent := Some (JNum 3) |};
     mirrors := [] |}.

(** What opening the configuration file and [json.load] on it can
    do: return the configuration, raise [json.JSONDecodeError], raise
    [IOError] because the file cannot be opened or read, or raise
    another exception, such as [UnicodeDecodeError] on bytes that are
    not UTF-8. *)
Inductive load_outcome : Type :=
| Parsed (c : Config)
| JSONDecodeError (msg : string)
| IOError (msg : string)
| OtherError (msg : string).

(** [mirrors.get(name)]. *)
Fixpoint find_mirror (name : string) (l : list (string * gmap string jval))
  : option (gmap string jval) :=
  match l with
  | [] => None
  | (k, m) :: l' => if String.eqb k name then Some m else find_mirror name l'
  end.

(** [name in mirrors]. *)
Definition has_mirror (name : string) (l : list (string * gmap string jval)) : bool :=
  bool_decide (is_Some (find_mirror name l)).

(** [mirrors[name] = f(mirrors[name])]: the entry is changed in place
    and keeps its position. *)
Fixpoint update_mirror (name : string) (f : gmap string jval -> gmap string jval)
  (l : list (string * gmap string jval)) : list (string * gmap string jval) :=
  match l with
  | [] => []
  | (k, m) :: l' =>
      if String.eqb k name then (k, f m) :: l' else (k, m) :: update_mirror name f l'
  end.

Definition with_mirrors (c : Config) (l : list (string * gmap string jval)) : Config :=
  {| version := version c; defaults := defaults c; mirrors := l |}.

(** An entry that spells out [enabled] and [schedule] and whose
    [last_sync] is a non-empty string without [Z] and without UTC
    offset. *)
Definition plain_entry (m : gmap string jval) : bool :=
  bool_decide (is_Some (m !! "enabled")) && bool_decide (is_Some (m !! "schedule")) &&
  match m !! "last_sync" with
  | Some (JStr s) =>
      negb (String.eqb s "") && negb (FS.contains_char "Z" s) &&
      match fromisoformat s with
      | Ok t => bool_decide (tzinfo t = None)
      | Raise _ => true
      end
  | _ => false
  end.

(** The system calls of a save.  A configuration file on disk is its
    content.  A call can fail in two ways: the process dies, or the
    call raises [OSError]; the second is decided by the environment of
    the manager, whose [save] catches it. *)
Inductive op : Type :=
| Makedirs (path : string)
| OpenW (path : string)
| Write (path chunk : string)
| Rename (src dst : string).

(** The effect of one system call.  [open(path, 'w')] creates or
    truncates; a write extends the file. *)
Definition step (d : gmap string string) (o : op) : gmap string string :=
  match o with
  | Makedirs _ => d
  | OpenW path => <[path := ""]> d
  | Write path chunk => <[path := default "" (d !! path) +:+ chunk]> d
  | Rename src dst => FS.quiet (FS.rename src dst d) d
  end.

Definition run (ops : list op) (d : gmap string string) : gmap string string :=
  foldl step d ops.

(** The disk when the process dies after its first [k] system calls. *)
Definition crash_after (k : nat) (ops : list op) (d : gmap string string)
  : gmap string string :=
  run (take k ops) d.

(** The path that a system call writes. *)
Definition target (o : op) : option string :=
  match o with
  | Makedirs _ => None
  | OpenW path => Some path
  | Write path _ => Some path
  | Rename _ dst => Some dst
  end.

(** A system call that neither writes nor moves away the file [f]. *)
Definition spares (f : string) (o : op) : Prop :=
  target o <> Some f /\ forall src dst, o = Rename src dst -> src <> f.

(** The text that a sequence of writes produces. *)
Fixpoint concat_chunks (chunks : list string) : string :=
  match chunks with
  | [] => ""
  | c :: cs => c +:+ concat_chunks cs
  end.

(** The state of a configuration manager: the object in memory, the
    disk, and the system calls issued so far. *)
Record store : Type := {
  config : Config;
  disk : gmap string string;
  trace : list op
}.

Definition perform (ops : list op) (s : store) : store :=
  {| config := config s; disk := run ops (disk s); trace := trace s ++ ops |}.

Definition with_config (s : store) (c : Config) : store :=
  {| config := c; disk := disk s; trace := trace s |}.

(** [path[:path.rfind('/') + 1]]. *)
Fixpoint upto_last_slash (path : string) : string :=
  match path with
  | EmptyString => EmptyString
  | String c rest =>
      if FS.contains_char "/" rest then String c (upto_last_slash rest)
      else if Ascii.eqb c "/" then "/" else EmptyString
  end.

Fixpoint lstrip_slashes (s : string) : string :=
  match s with
  | String "/" s' => lstrip_slashes s'
  | _ => s
  end.

(** [os.path.dirname(path)]: the head up to the last slash, without
    its trailing slashes unless it consists of slashes only. *)
Definition dirname (path : string) : string :=
  let head := upto_last_slash path in
  match lstrip_slashes head with
  | EmptyString => head
  | _ => String.rev (lstrip_slashes (String.rev head))
  end.

End Store.
Export Store.

(* ===================================================================== *)
(** ** [mirror-manager.py]: [MirrorConfig]                                *)
(* ===================================================================== *)

Module Manager.

Section Manager.
(** [json.dump(cfg, f, indent=2)] as the sequence of chunks it writes. *)
Variable json_dump : Config -> list string.
Context {L : Croniter}.

(** The system calls of [save], in order. *)
Definition save_ops (config_file : string) (c : Config) : list op :=
  let temp_file := config_file +:+ ".tmp" in
  [OpenW temp_file] ++ (Write temp_file <$> json_dump c) ++ [Rename temp_file config_file].

(** The environment of the manager: whether a system call raises
    [IOError] or [OSError] on the given disk. *)
Variable oserror : op -> gmap string string -> bool.

(** The system calls of [ops] that complete before one raises, and
    whether all of them did. *)
Fixpoint attempt (ops : list op) (d : gmap string string) : list op * bool :=
  match ops with
  | [] => ([], true)
  | o :: rest =>
      if oserror o d then ([], false)
      else let r := attempt rest (step d o) in (o :: r.1, r.2)
  end.

(** [MirrorConfig.save]: [False] when a system call raised [IOError] or
    [OSError]; the calls completed before it have had their effect.
    The message printed to the error stream is not represented. *)
Definition save (config_file : string) (s : store) : bool * store :=
  let r := attempt (save_ops config_file (config s)) (disk s) in
  (r.2, perform r.1 s).

(** [MirrorConfig._calculate_next_sync]. *)
Definition _calculate_next_sync (now : datetime) (sched : jval) : jval :=
  match bind (croniter sched) (fun c => get_next c now) with
  | Ok next_time => JStr (isoformat next_time)
  | Raise _ => JNull
  end.

(** [MirrorConfig.disable_mirror]. *)
Definition disable_mirror (config_file repo_name : string) (s : store) : bool * store :=
  if negb (has_mirror repo_name (mirrors (config s))) then (false, s)
  else
    save config_file
      (with_config s
         (with_mirrors (config s)
            (update_mirror repo_name (fun m => <["enabled" := JBool false]> m)
                           (mirrors (config s))))).

(** The three fields that [enable_mirror] assigns in an entry. *)
Definition enable_fields (sched limit : jval) (m : gmap string jval) : gmap string jval :=
  <["timeout" := limit]> (<["schedule" := sched]> (<["enabled" := JBool true]> m)).

(** The entry that [enable_mirror] creates for a new repository. *)
Definition new_entry (now : datetime) (sched limit : jval) : gmap string jval :=
  <["next_sync" := _calculate_next_sync now sched]>
  (<["last_error" := JNull]>
  (<["last_status" := JNull]>
  (<["last_sync" := JNull]>
  (enable_fields sched limit ∅)))).

(** [MirrorConfig.enable_mirror]; [sched] and [limit] are [None] when
    not given, [now] is the clock read for a new entry. *)
Definition enable_mirror (config_file : string) (now : datetime) (repo_name : string)
  (sched limit : jval) (s : store) : bool * store :=
  let invalid :=
    if truthy sched
    then match croniter sched with
         | Raise _ => true
         | Ok _ => false
         end
    else false in
  if invalid then (false, s)
  else
    let sched' := if truthy sched then sched else schedule (defaults (config s)) in
    let limit' := if truthy limit then limit else timeout (defaults (config s)) in
    save config_file
      (with_config s
         (with_mirrors (config s)
            (if has_mirror repo_name (mirrors (config s))
             then update_mirror repo_name (enable_fields sched' limit') (mirrors (config s))
             else mirrors (config s) ++ [(repo_name, new_entry now sched' limit')]))).

(** [MirrorConfig.get_mirror]. *)
Definition get_mirror (repo_name : string) (s : store) : option (gmap string jval) :=
  find_mirror repo_name (mirrors (config s)).

(** [MirrorConfig.list_mirrors]. *)
Definition list_mirrors (enabled_only : bool) (s : store)
  : list (string * gmap string jval) :=
  List.filter (fun item => negb enabled_only || truthy (get item.2 "enabled" (JBool false)))
              (mirrors (config s)).

(** [mirror[key]]; [KeyError] on a missing key. *)
Definition getitem (m : gmap string jval) (key : string) : result jval :=
  match m !! key with
  | Some v => Ok v
  | None => Raise ("'" +:+ key +:+ "'")
  end.

(** [MirrorConfig.update_sync_status]; [t1] and [t2] are the two
    readings of the clock, [duration] is [None] when not given.  A
    [KeyError] on [schedule] leaves the fields already assigned. *)
Definition update_sync_status (config_file : string) (t1 t2 : datetime)
  (repo_name : string) (status error : jval) (duration : option jval) (s : store)
  : result bool * store :=
  match find_mirror repo_name (mirrors (config s)) with
  | None => (Ok false, s)
  | Some mirror =>
      let m1 := <["last_error" := error]>
                (<["last_status" := status]>
                (<["last_sync" := JStr (isoformat t1)]> mirror)) in
      let m2 := match duration with
                | Some d => <["last_duration" := d]> m1
                | None => m1
                end in
      let put m := with_config s
                     (with_mirrors (config s)
                        (update_mirror repo_name (fun _ => m) (mirrors (config s)))) in
      match getitem m2 "schedule" with
      | Raise e => (Raise e, put m2)
      | Ok sched =>
          let '(saved, s') :=
            save config_file (put (<["next_sync" := _calculate_next_sync t2 sched]> m2)) in
          (Ok saved, s')
      end
  end.

(** The body of the [try] in [get_due_mirrors]. *)
Definition due_check (now : datetime) (mirror : gmap string jval) : result bool :=
  bind (getitem mirror "schedule") (fun sched =>
  bind (if truthy (get_none mirror "last_sync")
        then match get_none mirror "last_sync" with
             | JStr s => fromisoformat s
             | _ => Raise "fromisoformat: argument must be str"
             end
        else Ok now) (fun start =>
  bind (croniter sched) (fun c =>
  bind (get_next c start) (fun next_sync =>
  le_now next_sync now)))).

(** One iteration of the loop of [get_due_mirrors]. *)
Definition due_visit (now : datetime)
  (due_mirrors : list (string * gmap string jval)) (item : string * gmap string jval)
  : list (string * gmap string jval) :=
  let '(repo_name, mirror) := item in
  if negb (truthy (get mirror "enabled" (JBool false))) then due_mirrors
  else
    match due_check now mirror with
    | Ok true => due_mirrors ++ [(repo_name, mirror)]
    | Ok false => due_mirrors
    | Raise _ =>
        match get_none mirror "last_sync" with
        | JNull => due_mirrors ++ [(repo_name, mirror)]
        | _ => due_mirrors
        end
    end.

(** What one entry contributes to the list. *)
Definition visit_one (now : datetime) (item : string * gmap string jval)
  : list (string * gmap string jval) :=
  due_visit now [] item.

(** The sort key [x.get("last_sync") or ""].  Every entry that reaches
    the list has a string or a false value there. *)
Definition sort_key (last_sync : jval) : string :=
  match or_empty last_sync with
  | JStr s => s
  | _ => ""
  end.

Definition key_leb (x y : string * gmap string jval) : bool :=
  String.leb (sort_key (get_none x.2 "last_sync")) (sort_key (get_none y.2 "last_sync")).

(** The loop of [get_due_mirrors]. *)
Definition scan (now : datetime) (l : list (string * gmap string jval))
  : list (string * gmap string jval) :=
  foldl (due_visit now) [] l.

(** [MirrorConfig.get_due_mirrors]; [now] is a naive date. *)
Definition get_due_mirrors (now : datetime) (c : Config)
  : list (string * gmap string jval) :=
  sorted key_leb (scan now (mirrors c)).

End Manager.

Section Loading.
(** [open(config_file, 'r')] and [json.load(f)] on the text of the
    file. *)
Variable json_load : string -> load_outcome.

(** [MirrorConfig._load_or_create_config]: the configuration and the
    lines printed to the error stream.  Only [json.JSONDecodeError] and
    [IOError] are caught; another exception leaves the function. *)
Definition _load_or_create_config (config_file : string) (d : gmap string string)
  : result (Config * list string) :=
  match d !! config_file with
  | Some text =>
      match json_load text with
      | Parsed c => Ok (c, [])
      | JSONDecodeError e | IOError e =>
          Ok (default_config,
              ["Warning: Failed to load config: " +:+ e; "Creating new config..."])
      | OtherError e => Raise e
      end
  | None => Ok (default_config, [])
  end.

End Loading.

End Manager.

(* ===================================================================== *)
(** ** [mirror-sync-daemon.py]                                            *)
(* ===================================================================== *)

Module Daemon.

Definition CONFIG_FILE : string := "/opt/cgit/data/mirror-config.json".

(** A line handed to the logger: level and message. *)
Record log_record : Type := LogRecord { level : string; message : string }.

Section ConfigManager.
(** [json.dump(cfg, f, indent=2)] as the sequence of chunks it writes. *)
Variable json_dump : Config -> list string.
Context {L : Croniter}.

(** The system calls of [save_config], in order. *)
Definition save_config_ops (c : Config) : list op :=
  [Makedirs (dirname CONFIG_FILE); OpenW CONFIG_FILE] ++ (Write CONFIG_FILE <$> json_dump c).

(** [SimpleConfigManager.save_config]. *)
Definition save_config (s : store) : store :=
  perform (save_config_ops (config s)) s.

(** An element of the list that [get_due_mirrors] returns. *)
Record due : Type := Due { name : string; due_timeout : jval; last_sync : jval }.

(** The anchor: the parsed [last_sync] without its time zone, or the
    first of January 2000 for an entry never synchronised. *)
Definition anchor (last_sync_str : jval) : result datetime :=
  if truthy last_sync_str then
    match last_sync_str with
    | JStr s =>
        bind (fromisoformat (replace_char "Z" "+00:00" s)) (fun t => Ok (drop_tzinfo t))
    | _ => Raise "object has no attribute 'replace'"
    end
  else Ok (midnight 2000 1 1).

(** The body of the [try] in [get_due_mirrors]: the element to append,
    if the entry is due. *)
Definition due_check (now : datetime) (c : Config) (repo_name : string)
  (mirror : gmap string jval) : result (option due) :=
  let sched := get mirror "schedule" (schedule (defaults c)) in
  let last_sync_str := get_none mirror "last_sync" in
  bind (anchor last_sync_str) (fun last_sync =>
  bind (croniter sched) (fun cr =>
  bind (get_next cr last_sync) (fun next_sync =>
  bind (le_now next_sync now) (fun is_due =>
  Ok (if is_due
      then Some (Due repo_name (get mirror "timeout" (timeout (defaults c))) last_sync_str)
      else None))))).

(** One iteration of the loop of [get_due_mirrors]: the list so far
    and the records sent to [logger.error]. *)
Definition due_visit (now : datetime) (c : Config)
  (acc : list due * list log_record) (item : string * gmap string jval)
  : list due * list log_record :=
  let '(repo_name, mirror) := item in
  if negb (truthy (get mirror "enabled" (JBool true))) then acc
  else
    match due_check now c repo_name mirror with
    | Ok (Some d) => ((acc.1 ++ [d])%list, acc.2)
    | Ok None => acc
    | Raise e =>
        (acc.1, (acc.2 ++ [LogRecord "ERROR"
                             (repo_name +:+ ": Error calculating next sync: " +:+ e)])%list)
    end.

(** What one entry contributes to the list and to the log. *)
Definition visit_one (now : datetime) (c : Config) (item : string * gmap string jval)
  : list due * list log_record :=
  due_visit now c ([], []) item.

(** The sort key [x['last_sync'] or '']. *)
Definition sort_key (d : due) : string :=
  match or_empty (last_sync d) with
  | JStr s => s
  | _ => ""
  end.

Definition key_leb (x y : due) : bool := String.leb (sort_key x) (sort_key y).

(** The loop of [get_due_mirrors]. *)
Definition scan (now : datetime) (c : Config) (l : list (string * gmap string jval))
  : list due * list log_record :=
  foldl (due_visit now c) ([], []) l.

(** [SimpleConfigManager.get_due_mirrors]; [now] is a naive date.  The
    result is the list returned and the records logged. *)
Definition get_due_mirrors (now : datetime) (c : Config) : list due * list log_record :=
  (sorted key_leb (scan now c (mirrors c)).1, (scan now c (mirrors c)).2).

(** [SimpleConfigManager.update_sync_status]; it returns nothing.
    [t1] and [t2] are the two readings of the clock. *)
Definition update_sync_status (t1 t2 : datetime) (repo_name : string)
  (status error_message : jval) (s : store) : unit * store :=
  match find_mirror repo_name (mirrors (config s)) with
  | None => (tt, s)
  | Some mirror =>
      let m1 := <["last_error" := error_message]>
                (<["last_status" := status]>
                (<["last_sync" := JStr (isoformat t1 +:+ "Z")]> mirror)) in
      let m2 :=
        match bind (croniter (get m1 "schedule" (schedule (defaults (config s)))))
                   (fun cr => get_next cr t2) with
        | Ok next_sync => <["next_sync" := JStr (isoformat next_sync +:+ "Z")]> m1
        | Raise _ => m1
        end in
      (tt, save_config
             (with_config s
                (with_mirrors (config s)
                   (update_mirror repo_name (fun _ => m2) (mirrors (config s))))))
  end.

(** [SimpleConfigManager.load_config]; [json_load] is [open] and
    [json.load] on the text of the file.  Every exception is caught. *)
Definition load_config (json_load : string -> load_outcome) (d : gmap string string)
  : Config :=
  match d !! CONFIG_FILE with
  | None => default_config
  | Some text =>
      match json_load text with
      | Parsed c => c
      | _ => default_config
      end
  end.

End ConfigManager.

(** *** The executor *)

(** How [subprocess.run] ends. *)
Inductive proc : Type :=
| Completed (returncode : Z) (stderr : string)
| TimeoutExpired
| Fault (msg : string).

(** The environment of a job: the directories that exist; the run of
    the external command on a path with a timeout, together with the
    time it took, in milliseconds; the text [f"{duration:.1f}"] for
    such a time, which depends on the binary floating-point number that
    the difference of two readings of [time.time()] gives; and the size
    the thread pool takes when it is given none. *)
Record world : Type := {
  isdir : string -> bool;
  git_remote_update : string -> jval -> proc * Z;
  format_1f : Z -> string;
  default_workers : nat
}.

Inductive event : Type :=
| Logged (r : log_record)
| Spawned (argv : list string) (limit : jval).

(** The tuple that [sync_repository] returns. *)
Record outcome : Type := Outcome {
  repo : string;
  success : bool;
  duration : Z;
  error : option string
}.

(** [os.path.join(a, b)]. *)
Definition path_join (a b : string) : string :=
  match b with
  | String "/" _ => b
  | _ =>
      match String.rev a with
      | EmptyString => b
      | String "/" _ => a +:+ b
      | _ => a +:+ "/" +:+ b
      end
  end.

(** [sync_repository]. *)
Definition sync_repository (w : world) (repo_name : string) (limit : jval)
  : outcome * list event :=
  let repo_path := path_join "/opt/cgit/data/repositories" (repo_name +:+ ".git") in
  if negb (isdir w repo_path) then
    let err := "Repository path does not exist: " +:+ repo_path in
    (Outcome repo_name false 0 (Some err),
     [Logged (LogRecord "ERROR" (repo_name +:+ ": " +:+ err))])
  else
    let started :=
      [Logged (LogRecord "INFO"
                 (repo_name +:+ ": Starting sync (timeout: " +:+ py_str limit +:+ "s)"));
       Spawned ["git"; "-C"; repo_path; "remote"; "update"; "--prune"] limit] in
    let '(p, elapsed) := git_remote_update w repo_path limit in
    match p with
    | Completed returncode stderr =>
        if returncode =? 0 then
          (Outcome repo_name true elapsed None,
           started ++ [Logged (LogRecord "SUCCESS"
                         (repo_name +:+ ": Synced successfully (" +:+ format_1f w elapsed +:+ "s)"))])%list
        else
          let err := "Git command failed (exit " +:+ str_of_Z returncode +:+ "): "
                     +:+ strip stderr in
          (Outcome repo_name false elapsed (Some err),
           started ++ [Logged (LogRecord "ERROR" (repo_name +:+ ": " +:+ err))])%list
    | TimeoutExpired =>
        let err := "Timeout after " +:+ py_str limit +:+ "s" in
        (Outcome repo_name false elapsed (Some err),
         started ++ [Logged (LogRecord "ERROR" (repo_name +:+ ": " +:+ err))])%list
    | Fault msg =>
        let err := "Unexpected error: " +:+ msg in
        (Outcome repo_name false elapsed (Some err),
         started ++ [Logged (LogRecord "ERROR" (repo_name +:+ ": " +:+ err))])%list
    end.

Section Executor.
Variable json_dump : Config -> list string.
Context {L : Croniter}.

(** The body of the loop over [as_completed] in [sync_cycle]: the
    status written for one result. *)
Definition record_result (t1 t2 : datetime) (r : outcome) (s : store) : store :=
  if success r
  then (update_sync_status json_dump t1 t2 (repo r) (JStr "success") JNull s).2
  else (update_sync_status json_dump t1 t2 (repo r) (JStr "failed")
          (from_option JStr JNull (error r)) s).2.

(** [ThreadPoolExecutor(max_workers=v)]: the number of workers, or
    [None] when the constructor raises. *)
Definition max_workers_of (w : world) (v : jval) : option nat :=
  match v with
  | JNull => Some (default_workers w)
  | JBool b => if b then Some 1%nat else None
  | JNum z => if 0 <? z then Some (Z.to_nat z) else None
  | JStr _ => None
  end.

(** The start of [sync_cycle]: the configuration is reloaded, and a
    batch is opened when some mirror is due and the pool accepts
    [max_concurrent].  The result is the number of workers and the
    jobs to submit. *)
Definition sync_cycle_batch (w : world) (now : datetime) (loaded : Config)
  : option (nat * list due) :=
  match (get_due_mirrors now loaded).1 with
  | [] => None
  | due_mirrors =>
      n ← max_workers_of w (default (JNum 3) (max_concurrent (defaults loaded)));
      Some (n, due_mirrors)
  end.

(** A worker thread of the pool runs one job at a time. *)
Inductive worker : Type :=
| Idle
| Busy (j : due).

Definition busy (t : worker) : bool :=
  match t with
  | Idle => false
  | Busy _ => true
  end.

(** The state of a batch inside the [with ThreadPoolExecutor] block:
    the jobs the submission loop has still to submit, the pool's queue,
    its threads, the futures that are done and not yet yielded by
    [as_completed], the results the loop has handled, the configuration
    manager, and whether the block has been left. *)
Record pool : Type := Pool {
  to_submit : list due;
  work_queue : list due;
  threads : list worker;
  finished : list outcome;
  collected : list outcome;
  manager : store;
  emitted : list event;
  exited : bool
}.

Definition running (p : pool) : nat := length (List.filter busy (threads p)).

(** The repository a thread is working on. *)
Definition job_of (t : worker) : list string :=
  match t with
  | Idle => []
  | Busy j => [name j]
  end.

(** Where the jobs of a batch are: to be submitted, queued, running,
    finished, handled. *)
Definition accounted (p : pool) : list string :=
  (name <$> to_submit p) ++ (name <$> work_queue p) ++ (threads p ≫= job_of)
  ++ (repo <$> finished p) ++ (repo <$> collected p).

(** What every state of a batch satisfies: no more threads than
    workers allowed, every job of the batch in exactly one place, and
    nothing left once the block has been exited. *)
Definition pool_inv (max_workers : nat) (due_mirrors : list due) (p : pool) : Prop :=
  (length (threads p) <= max_workers)%nat /\
  accounted p ≡ₚ name <$> due_mirrors /\
  (exited p = true ->
   to_submit p = [] /\ work_queue p = [] /\ finished p = [] /\
   threads p ≫= job_of = []).

Definition start (s : store) (due_mirrors : list due) : pool :=
  Pool due_mirrors [] [] [] [] s [] false.

(** The moves of the main thread and of the workers.  The pool starts
    a thread only while it has fewer than [max_workers] (the test
    [num_threads < self._max_workers] of the executor's
    [_adjust_thread_count]; the model lets it start one at any time
    under that test, the library only inside [submit]); a thread takes
    the oldest queued job; the main thread handles a finished job once
    it has submitted all; the block is left when nothing is queued,
    running or unhandled. *)
Inductive pool_step (w : world) (max_workers : nat) : pool -> pool -> Prop :=
| step_submit j rest q th fin col s ev :
    pool_step w max_workers
      (Pool (j :: rest) q th fin col s ev false)
      (Pool rest (q ++ [j]) th fin col s ev false)
| step_spawn sub q th fin col s ev :
    (length th < max_workers)%nat ->
    pool_step w max_workers
      (Pool sub q th fin col s ev false)
      (Pool sub q (th ++ [Idle]) fin col s ev false)
| step_take i j sub q th fin col s ev :
    th !! i = Some Idle ->
    pool_step w max_workers
      (Pool sub (j :: q) th fin col s ev false)
      (Pool sub q (<[i := Busy j]> th) fin col s ev false)
| step_finish i j sub q th fin col s ev :
    th !! i = Some (Busy j) ->
    pool_step w max_workers
      (Pool sub q th fin col s ev false)
      (Pool sub q (<[i := Idle]> th)
            (fin ++ [(sync_repository w (name j) (due_timeout j)).1]) col s
            (ev ++ (sync_repository w (name j) (due_timeout j)).2) false)
| step_collect t1 t2 r q th fin1 fin2 col s ev :
    pool_step w max_workers
      (Pool [] q th (fin1 ++ r :: fin2) col s ev false)
      (Pool [] q th (fin1 ++ fin2) (col ++ [r]) (record_result t1 t2 r s) ev false)
| step_exit th col s ev :
    Forall (fun t => t = Idle) th ->
    pool_step w max_workers
      (Pool [] [] th [] col s ev false)
      (Pool [] [] th [] col s ev true).

(** The states a batch can reach. *)
Inductive reachable (w : world) (max_workers : nat) (p0 : pool) : pool -> Prop :=
| reach_start : reachable w max_workers p0 p0
| reach_step p p' :
    reachable w max_workers p0 p -> pool_step w max_workers p p' ->
    reachable w max_workers p0 p'.

(** One move of a batch, as the scheduler chooses it: the main thread
    submits its next job, the pool starts a thread, thread [i] takes
    the oldest queued job, thread [i] finishes its job, the main thread
    handles the [k]-th unhandled result with two readings of the clock,
    or leaves the block. *)
Inductive move : Type :=
| Submit
| Spawn
| Take (i : nat)
| Finish (i : nat)
| Collect (k : nat) (t1 t2 : datetime)
| Exit.

(** The state after a move, [None] when the move is not possible. *)
Definition play (w : world) (max_workers : nat) (m : move) (p : pool) : option pool :=
  let '(Pool sub q th fin col s ev ex) := p in
  if ex then None
  else
    match m with
    | Submit =>
        match sub with
        | j :: rest => Some (Pool rest (q ++ [j]) th fin col s ev false)
        | [] => None
        end
    | Spawn =>
        if (length th <? max_workers)%nat
        then Some (Pool sub q (th ++ [Idle]) fin col s ev false)
        else None
    | Take i =>
        match q, th !! i with
        | j :: q', Some Idle => Some (Pool sub q' (<[i := Busy j]> th) fin col s ev false)
        | _, _ => None
        end
    | Finish i =>
        match th !! i with
        | Some (Busy j) =>
            Some (Pool sub q (<[i := Idle]> th)
                       (fin ++ [(sync_repository w (name j) (due_timeout j)).1]) col s
                       (ev ++ (sync_repository w (name j) (due_timeout j)).2) false)
        | _ => None
        end
    | Collect k t1 t2 =>
        match sub, fin !! k with
        | [], Some r =>
            Some (Pool [] q th (take k fin ++ drop (S k) fin) (col ++ [r])
                       (record_result t1 t2 r s) ev false)
        | _, _ => None
        end
    | Exit =>
        match sub, q, fin with
        | [], [], [] =>
            if forallb (fun t => negb (busy t)) th
            then Some (Pool [] [] th [] col s ev true)
            else None
        | _, _, _ => None
        end
    end.

(** The state after a sequence of moves. *)
Fixpoint plays (w : world) (max_workers : nat) (ms : list move) (p : pool)
  : option pool :=
  match ms with
  | [] => Some p
  | m :: ms' =>
      match play w max_workers m p with
      | Some p' => plays w max_workers ms' p'
      | None => None
      end
  end.

End Executor.

End Daemon.

(* ===================================================================== *)
(** ** Sample data                                                        *)
(* ===================================================================== *)

Module Sample.

(** A rendering of the configuration, chunk by chunk, standing for
    [json.dump]: one chunk per repository name between the braces. *)
Definition dump (c : Config) : list string :=
  ["{"] ++ ((fun item => item.1 +:+ ": {...},") <$> mirrors c) ++ ["}"].

Definition entry (enabled : option jval) (sched : option jval) (last : option jval)
  : gmap string jval :=
  let m0 : gmap string jval := {["timeout" := JNum 600]} in
  let m1 := match enabled with Some v => <["enabled" := v]> m0 | None => m0 end in
  let m2 := match sched with Some v => <["schedule" := v]> m1 | None => m1 end in
  match last with Some v => <["last_sync" := v]> m2 | None => m2 end.

Definition six_hourly : jval := JStr "0 */6 * * *".

Definition with_entries (l : list (string * gmap string jval)) : Config :=
  with_mirrors default_config l.

(** Noon of the second of May 2024. *)
Definition noon : datetime := DT 2024 5 2 12 0 0 0 None.

(** One enabled repository that was never synchronised. *)
Definition fresh : Config :=
  with_entries [("fresh", entry (Some (JBool true)) (Some six_hourly) (Some JNull))].

(** One enabled, never synchronised repository with a bad schedule. *)
Definition broken : Config :=
  with_entries [("broken", entry (Some (JBool true)) (Some (JStr "every day")) (Some JNull))].

(** The same repository, disabled. *)
Definition broken_off : Config :=
  with_entries [("broken", entry (Some (JBool false)) (Some (JStr "every day")) (Some JNull))].

(** Two repositories synchronised a quarter of a second apart; the
    first write fell on a whole second. *)
Definition close_pair : Config :=
  with_entries
    [("older", entry (Some (JBool true)) (Some six_hourly) (Some (JStr "2024-05-01T10:00:00Z")));
     ("newer", entry (Some (JBool true)) (Some six_hourly)
                 (Some (JStr "2024-05-01T10:00:00.250000Z")))].

(** Two repositories an hour apart, the later timestamp written with
    a space between date and time. *)
Definition mixed_pair : Config :=
  with_entries
    [("older", entry (Some (JBool true)) (Some six_hourly) (Some (JStr "2024-05-01T09:00:00")));
     ("newer", entry (Some (JBool true)) (Some six_hourly) (Some (JStr "2024-05-01 10:00:00")))].

(** A repository whose entry has no [enabled] field. *)
Definition implicit : Config :=
  with_entries [("implicit", entry None (Some six_hourly) (Some (JStr "2024-05-01T10:00:00")))].

(** Two repositories with explicit fields and plain timestamps. *)
Definition plain : Config :=
  with_entries
    [("late", entry (Some (JBool true)) (Some six_hourly) (Some (JStr "2024-05-02T11:00:00")));
     ("early", entry (Some (JBool true)) (Some six_hourly) (Some (JStr "2024-05-01T10:00:00")));
     ("off", entry (Some (JBool false)) (Some six_hourly) (Some (JStr "2024-04-01T10:00:00")))].

(** A reader that knows the rendering of one configuration, standing
    for [json.load]: it cannot decode a text with the byte 255, and
    finds no JSON in any other text. *)
Definition reader (c : Config) (text : string) : load_outcome :=
  if String.eqb text (concat_chunks (dump c)) then Parsed c
  else if FS.contains_char "255" text
       then OtherError "'utf-8' codec can't decode byte 0xff: invalid start byte"
       else JSONDecodeError "Expecting property name enclosed in double quotes".

(** A disk on which every system call succeeds, and a full one, on
    which every write raises. *)
Definition no_oserror (o : op) (d : gmap string string) : bool := false.

Definition disk_full (o : op) (d : gmap string string) : bool :=
  match o with
  | Write _ _ => true
  | _ => false
  end.

(** A manager that has just loaded [c] from its file. *)
Definition loaded (file : string) (c : Config) : store :=
  {| config := c; disk := {[file := concat_chunks (dump c)]}; trace := [] |}.

(** Seconds and tenths of a time in milliseconds, the rest cut off. *)
Definition tenths (ms : Z) : string :=
  str_of_Z (ms / 1000) +:+ "." +:+ str_of_Z ((ms / 100) mod 10).

(** Every repository directory exists and the command runs into its
    timeout after ten minutes. *)
Definition stuck : Daemon.world :=
  {| Daemon.isdir := fun _ => true;
     Daemon.git_remote_update := fun _ _ => (Daemon.TimeoutExpired, 600000);
     Daemon.format_1f := tenths;
     Daemon.default_workers := 8 |}.

(** No repository directory exists. *)
Definition bare : Daemon.world :=
  {| Daemon.isdir := fun _ => false;
     Daemon.git_remote_update := fun _ _ => (Daemon.Completed 0 "", 1200);
     Daemon.format_1f := tenths;
     Daemon.default_workers := 8 |}.

(** The job of the one never-synchronised repository. *)
Definition fresh_job : Daemon.due := Daemon.Due "fresh" (JNum 600) JNull.

(** Four repositories and two workers: three were never synchronised,
    the fourth was synchronised at noon. *)
Definition crowd : Config :=
  {| version := JStr "1.0";
     defaults := {| schedule := six_hourly; timeout := JNum 600;
                    max_concurrent := Some (JNum 2) |};
     mirrors :=
       [("alpha", entry (Some (JBool true)) (Some six_hourly) (Some JNull));
        ("beta", entry (Some (JBool true)) (Some six_hourly) (Some JNull));
        ("gamma", entry (Some (JBool true)) (Some six_hourly) (Some JNull));
        ("recent", entry (Some (JBool true)) (Some six_hourly)
                     (Some (JStr "2024-05-02T12:00:00Z")))] |}.

(** The command succeeds on [alpha] and runs into its timeout on every
    other repository; the directory of [gamma] is missing. *)
Definition mixed : Daemon.world :=
  {| Daemon.isdir := fun path =>
       negb (String.eqb path "/opt/cgit/data/repositories/gamma.git");
     Daemon.git_remote_update := fun path _ =>
       if String.eqb path "/opt/cgit/data/repositories/alpha.git"
       then (Daemon.Completed 0 "", 1200)
       else (Daemon.TimeoutExpired, 600000);
     Daemon.format_1f := tenths;
     Daemon.default_workers := 8 |}.

Definition alpha_job : Daemon.due := Daemon.Due "alpha" (JNum 600) JNull.
Definition beta_job : Daemon.due := Daemon.Due "beta" (JNum 600) JNull.
Definition gamma_job : Daemon.due := Daemon.Due "gamma" (JNum 600) JNull.

Definition crowd_start : Daemon.pool :=
  Daemon.start (with_config (loaded Daemon.CONFIG_FILE crowd) crowd)
               [alpha_job; beta_job; gamma_job].

(** The batch of the three due repositories while both workers are
    busy and the third job waits in the queue. *)
Definition crowd_busy_moves : list Daemon.move :=
  [Daemon.Submit; Daemon.Spawn; Daemon.Take 0; Daemon.Submit; Daemon.Spawn; Daemon.Take 1;
   Daemon.Submit].

Definition crowded : Daemon.pool :=
  default crowd_start
    (Daemon.plays (L := reference) dump mixed 2 crowd_busy_moves crowd_start).

(** The same batch run to its end: [beta] finishes first, its thread
    takes [gamma], whose result is handled first; [alpha] finishes
    last and is handled last. *)
Definition crowd_end_moves : list Daemon.move :=
  crowd_busy_moves
  ++ [Daemon.Finish 1; Daemon.Take 1; Daemon.Finish 1; Daemon.Collect 1 noon noon;
      Daemon.Finish 0; Daemon.Collect 0 noon noon; Daemon.Collect 0 noon noon; Daemon.Exit].

Definition crowd_done : Daemon.pool :=
  default crowd_start
    (Daemon.plays (L := reference) dump mixed 2 crowd_end_moves crowd_start).

(** A log file that has reached the rotation threshold. *)
Definition generation (tag : string) : LogSink.file :=
  LogSink.File LogSink.MAX_LOG_SIZE tag.

Definition four_generations : list LogSink.file :=
  [generation "first"; generation "second"; generation "third"; generation "fourth"].

End Sample.

Export Sample.

(* ===================================================================== *)
(** * Properties                                                          *)
(* ===================================================================== *)

(** ** Strings and paths *)

Lemma string_app_cons (a : ascii) (s t : string) :
  String a s +:+ t = String a (s +:+ t).
Proof. reflexivity. Qed.

Lemma string_app_nil (t : string) : "" +:+ t = t.
Proof. reflexivity. Qed.

Lemma string_length_app (s t : string) :
  String.length (s +:+ t) = (String.length s + String.length t)%nat.
Proof.
  induction s as [|c s IH]; [done|].
  rewrite string_app_cons. simpl. by rewrite IH.
Qed.

Lemma string_app_ne_self (s t : string) : t <> "" -> s +:+ t <> s.
Proof.
  intros Ht Heq. apply (f_equal String.length) in Heq.
  rewrite string_length_app in Heq. destruct t; [done | simpl in Heq; lia].
Qed.

Lemma string_app_inv (s t u : string) : s +:+ t = s +:+ u -> t = u.
Proof. apply String.app_inj. Qed.

Lemma string_app_assoc (s t u : string) : (s +:+ t) +:+ u = s +:+ (t +:+ u).
Proof.
  induction s as [|c s IH]; [done|].
  rewrite !string_app_cons. by rewrite IH.
Qed.

Lemma string_app_empty_r (s : string) : s +:+ "" = s.
Proof.
  induction s as [|c s IH]; [done|].
  rewrite string_app_cons. by rewrite IH.
Qed.

Lemma backup_ne_log (f : string) (i : Z) : LogSink.backup f i <> f.
Proof. unfold LogSink.backup. by apply string_app_ne_self. Qed.

Lemma backup_inj (f : string) (i j : Z) :
  str_of_Z i <> str_of_Z j -> LogSink.backup f i <> LogSink.backup f j.
Proof.
  unfold LogSink.backup. intros Hne Heq.
  apply string_app_inv in Heq. simpl in Heq. by injection Heq.
Qed.

(** ** State store: crash behaviour of the two save paths *)

Lemma step_spares (f : string) (o : op) (d : gmap string string) :
  spares f o -> step d o !! f = d !! f.
Proof.
  intros [Ht Hs]. destruct o as [p|p|p c|src dst]; simpl in *.
  - done.
  - rewrite lookup_insert_ne; [done | congruence].
  - rewrite lookup_insert_ne; [done | congruence].
  - unfold FS.rename. destruct (d !! src) eqn:E; simpl; [|done].
    rewrite lookup_insert_ne; [|congruence].
    rewrite lookup_delete_ne; [done | by eapply Hs].
Qed.

Lemma run_spares (f : string) (ops : list op) (d : gmap string string) :
  Forall (spares f) ops -> run ops d !! f = d !! f.
Proof.
  unfold run. revert d. induction ops as [|o ops IH]; intros d H; simpl; [done|].
  inversion H; subst. rewrite IH; [|done]. by apply step_spares.
Qed.

Lemma run_app (ops1 ops2 : list op) (d : gmap string string) :
  run (ops1 ++ ops2) d = run ops2 (run ops1 d).
Proof. unfold run. by rewrite foldl_app. Qed.

Lemma run_writes (path : string) (chunks : list string) (d : gmap string string) :
  run (Write path <$> chunks) d !! path
  = match chunks with
    | [] => d !! path
    | _ => Some (default "" (d !! path) +:+ concat_chunks chunks)
    end.
Proof.
  revert d. induction chunks as [|c cs IH]; intros d; [done|].
  change (run (Write path <$> c :: cs) d)
    with (run (Write path <$> cs) (step d (Write path c))).
  rewrite IH. simpl. rewrite lookup_insert_eq. simpl.
  destruct cs; simpl.
  - by rewrite string_app_empty_r.
  - by rewrite string_app_assoc.
Qed.

Lemma run_writes_other (path f : string) (chunks : list string) (d : gmap string string) :
  path <> f -> run (Write path <$> chunks) d !! f = d !! f.
Proof.
  intros Hne. apply run_spares. apply Forall_fmap, Forall_forall.
  intros c _. split; simpl; [congruence | discriminate].
Qed.

(** X7.  [MirrorConfig.save] is crash-atomic: a crash before the final
    [rename] leaves the configuration file as it was, and the complete
    run leaves the full rendering there. *)
Lemma manager_save_crash_atomic (json_dump : Config -> list string)
  (config_file : string) (c : Config) (d : gmap string string) :
  (forall k, (k < length (Manager.save_ops json_dump config_file c))%nat ->
     crash_after k (Manager.save_ops json_dump config_file c) d !! config_file
     = d !! config_file) /\
  run (Manager.save_ops json_dump config_file c) d !! config_file
  = Some (concat_chunks (json_dump c)).
Proof.
  unfold Manager.save_ops. set (tmp := config_file +:+ ".tmp").
  assert (Hne : tmp <> config_file) by (by apply string_app_ne_self).
  split.
  - intros k Hk. unfold crash_after. apply run_spares.
    rewrite !length_app, length_fmap in Hk. simpl in Hk.
    rewrite app_assoc, take_app_le by (rewrite length_app, length_fmap; simpl; lia).
    apply Forall_take. apply Forall_app. split.
    + repeat constructor; simpl; [congruence | discriminate].
    + apply Forall_fmap, Forall_forall. intros ch _.
      split; simpl; [congruence | discriminate].
  - rewrite !run_app. unfold run at 1. simpl foldl at 1.
    unfold FS.rename. rewrite run_writes.
    change (run [OpenW tmp] d) with (<[tmp := ""]> d).
    rewrite lookup_insert_eq. simpl.
    destruct (json_dump c) as [|ch chs] eqn:E; simpl; by rewrite lookup_insert_eq.
Qed.

(** C1.  [SimpleConfigManager.save_config] is not crash-atomic: once
    the configuration file has been opened for writing its previous
    content is gone, and a crash after [k] of the writes leaves only
    the first [k] chunks of the new rendering in it. *)
Theorem daemon_save_config_truncates (json_dump : Config -> list string)
  (c : Config) (d : gmap string string) (k : nat) :
  crash_after (2 + k) (Daemon.save_config_ops json_dump c) d !! Daemon.CONFIG_FILE
  = Some (concat_chunks (take k (json_dump c))).
Proof.
  unfold crash_after, Daemon.save_config_ops.
  change (take (2 + k) ?l) with
    (Makedirs (dirname Daemon.CONFIG_FILE) :: OpenW Daemon.CONFIG_FILE
       :: take k (Write Daemon.CONFIG_FILE <$> json_dump c)).
  rewrite <- fmap_take.
  change (run (?a :: ?b :: ?l) d) with (run l (step (step d a) b)).
  rewrite run_writes. simpl step. rewrite lookup_insert_eq.
  by destruct (take k (json_dump c)).
Qed.

(** ** Log sink: rotation *)

Lemma exists_true {F : Type} (p : string) (d : gmap string F) (f : F) :
  d !! p = Some f -> FS.exists_ p d = true.
Proof. intros H. unfold FS.exists_. apply bool_decide_eq_true. eauto. Qed.

Lemma exists_false {F : Type} (p : string) (d : gmap string F) :
  d !! p = None -> FS.exists_ p d = false.
Proof.
  intros H. unfold FS.exists_. apply bool_decide_eq_false.
  rewrite H. by intros [? ?].
Qed.

(** A guarded rename moves the file when there is one. *)
Lemma rename_if_exists {F : Type} (src dst : string) (d : gmap string F) :
  src <> dst ->
  forall p,
    (if FS.exists_ src d then FS.quiet (FS.rename src dst d) d else d) !! p
    = if decide (p = dst) then (match d !! src with Some f => Some f | None => d !! dst end)
      else if decide (p = src) then None
      else d !! p.
Proof.
  intros Hne p. unfold FS.rename. destruct (d !! src) as [f|] eqn:E.
  - rewrite (exists_true _ _ _ E). simpl.
    repeat case_decide; subst; simplify_map_eq; done.
  - rewrite (exists_false _ _ E).
    repeat case_decide; subst; simplify_map_eq; done.
Qed.

(** [MirrorLogger._rotate_logs] discards backup 3, moves backup 2 to
    3, backup 1 to 2 and the active file to backup 1, and touches no
    other path. *)
Lemma logger_rotate_logs_shift (f : string) (d : gmap string LogSink.file) :
  let d' := LogSink._rotate_logs f d in
  d' !! f = None /\
  d' !! LogSink.backup f 1 = d !! f /\
  d' !! LogSink.backup f 2 = d !! LogSink.backup f 1 /\
  d' !! LogSink.backup f 3 = d !! LogSink.backup f 2 /\
  forall p, p <> f -> p <> LogSink.backup f 1 -> p <> LogSink.backup f 2 ->
            p <> LogSink.backup f 3 -> d' !! p = d !! p.
Proof.
  assert (H12 : LogSink.backup f 1 <> LogSink.backup f 2) by (by apply backup_inj).
  assert (H13 : LogSink.backup f 1 <> LogSink.backup f 3) by (by apply backup_inj).
  assert (H23 : LogSink.backup f 2 <> LogSink.backup f 3) by (by apply backup_inj).
  pose proof (backup_ne_log f 1) as H1.
  pose proof (backup_ne_log f 2) as H2.
  pose proof (backup_ne_log f 3) as H3.
  unfold LogSink._rotate_logs, LogSink.MAX_ROTATED_LOGS. simpl LogSink.range_down.
  simpl foldl. unfold LogSink.rotate_step.
  change (Z.of_nat 3) with 3. change (Z.of_nat 2) with 2. change (Z.of_nat 1) with 1.
  change (2 + 1) with 3. change (1 + 1) with 2.
  set (d1 := if FS.exists_ (LogSink.backup f 3) d
             then FS.quiet (FS.remove (LogSink.backup f 3) d) d else d).
  assert (Hd1 : forall p, d1 !! p = if decide (p = LogSink.backup f 3) then None else d !! p).
  { intros p. unfold d1, FS.remove.
    destruct (d !! LogSink.backup f 3) as [x|] eqn:E.
    - rewrite (exists_true _ _ _ E). simpl. case_decide; subst; simplify_map_eq; done.
    - rewrite (exists_false _ _ E). case_decide; subst; simplify_map_eq; done. }
  clearbody d1.
  set (d2 := if FS.exists_ (LogSink.backup f 2) d1
             then FS.quiet (FS.rename (LogSink.backup f 2) (LogSink.backup f 3) d1) d1
             else d1).
  pose proof (rename_if_exists (LogSink.backup f 2) (LogSink.backup f 3) d1 H23) as Hd2.
  fold d2 in Hd2. clearbody d2.
  set (d3 := if FS.exists_ (LogSink.backup f 1) d2
             then FS.quiet (FS.rename (LogSink.backup f 1) (LogSink.backup f 2) d2) d2
             else d2).
  pose proof (rename_if_exists (LogSink.backup f 1) (LogSink.backup f 2) d2 H12) as Hd3.
  fold d3 in Hd3. clearbody d3.
  pose proof (rename_if_exists f (LogSink.backup f 1) d3 (not_eq_sym H1)) as Hd4.
  cbv zeta.
  repeat split; intros; rewrite Hd4, ?Hd3, ?Hd2, ?Hd1;
    repeat (case_decide; try congruence);
    repeat match goal with
    | |- context [d3 !! ?p] => rewrite (Hd3 p)
    | |- context [d2 !! ?p] => rewrite (Hd2 p)
    | |- context [d1 !! ?p] => rewrite (Hd1 p)
    | |- _ => case_decide; try congruence
    | |- context [match ?x with Some _ => _ | None => _ end] => destruct x eqn:?
    end; try congruence.
Qed.

Lemma rotate_if_needed_full (f : string) (c : LogSink.file) (d : gmap string LogSink.file) :
  LogSink.MAX_LOG_SIZE <= LogSink.size c ->
  LogSink._rotate_if_needed f (<[f := c]> d) = LogSink._rotate_logs f (<[f := c]> d).
Proof.
  intros H. unfold LogSink._rotate_if_needed. rewrite lookup_insert_eq.
  by apply Z.leb_le in H as ->.
Qed.

(** One round of [MirrorLogger]: the active file, grown to [c], becomes
    backup 1 and the backups move up by one. *)
Lemma logger_round (f : string) (c : LogSink.file) (d : gmap string LogSink.file) :
  LogSink.MAX_LOG_SIZE <= LogSink.size c ->
  let d' := LogSink._rotate_if_needed f (<[f := c]> d) in
  d' !! f = None /\
  d' !! LogSink.backup f 1 = Some c /\
  d' !! LogSink.backup f 2 = d !! LogSink.backup f 1 /\
  d' !! LogSink.backup f 3 = d !! LogSink.backup f 2 /\
  forall p, p <> f -> p <> LogSink.backup f 1 -> p <> LogSink.backup f 2 ->
            p <> LogSink.backup f 3 -> d' !! p = d !! p.
Proof.
  intros H. cbv zeta. rewrite rotate_if_needed_full by done.
  destruct (logger_rotate_logs_shift f (<[f := c]> d)) as (E0 & E1 & E2 & E3 & E4).
  rewrite E0, E1, E2, E3, lookup_insert_eq.
  rewrite !lookup_insert_ne by (apply not_eq_sym, backup_ne_log).
  repeat split. intros p ? ? ? ?. rewrite E4 by done. by rewrite lookup_insert_ne.
Qed.

(** X15.  After four rotations of [MirrorLogger] exactly the last
    three generations remain, as backups 1 to 3; the first one is gone
    and no other path has changed. *)
Lemma logger_rotations_keep_newest (f : string) (c1 c2 c3 c4 : LogSink.file)
  (d : gmap string LogSink.file) :
  Forall (fun c => LogSink.MAX_LOG_SIZE <= LogSink.size c) [c1; c2; c3; c4] ->
  let d' := LogSink.rotations (LogSink._rotate_if_needed f) f [c1; c2; c3; c4] d in
  d' !! f = None /\
  d' !! LogSink.backup f 1 = Some c4 /\
  d' !! LogSink.backup f 2 = Some c3 /\
  d' !! LogSink.backup f 3 = Some c2 /\
  forall p, p <> f -> p <> LogSink.backup f 1 -> p <> LogSink.backup f 2 ->
            p <> LogSink.backup f 3 -> d' !! p = d !! p.
Proof.
  intros H. repeat (apply Forall_cons in H as [? H]). simpl.
  destruct (logger_round f c1 d) as (_ & A1 & _ & _ & A4); [done|].
  set (d1 := LogSink._rotate_if_needed f (<[f := c1]> d)) in *. clearbody d1.
  destruct (logger_round f c2 d1) as (_ & B1 & B2 & _ & B4); [done|].
  set (d2 := LogSink._rotate_if_needed f (<[f := c2]> d1)) in *. clearbody d2.
  destruct (logger_round f c3 d2) as (_ & C1 & C2 & C3 & C4); [done|].
  set (d3 := LogSink._rotate_if_needed f (<[f := c3]> d2)) in *. clearbody d3.
  destruct (logger_round f c4 d3) as (D0 & D1 & D2 & D3 & D4); [done|].
  set (d4 := LogSink._rotate_if_needed f (<[f := c4]> d3)) in *. clearbody d4.
  repeat split; [congruence..|].
  intros p ? ? ? ?. rewrite D4, C4, B4, A4; done.
Qed.

(** X15, witness: four full generations in an empty directory. *)
Lemma logger_rotations_keep_newest_witness :
  LogSink.rotations (LogSink._rotate_if_needed LogSink.LOG_FILE) LogSink.LOG_FILE
    four_generations ∅ !! LogSink.backup LogSink.LOG_FILE 3
  = Some (generation "second").
Proof.
  refine (proj1 (proj2 (proj2 (proj2
    (logger_rotations_keep_newest LogSink.LOG_FILE (generation "first")
       (generation "second") (generation "third") (generation "fourth") ∅ _))))).
  repeat (constructor; [vm_compute; discriminate|]). constructor.
Defined.

(** C3.  [SimpleLogger.check_rotation] at capacity: with backups 1 to
    3 present, the fourth rotation removes backup 1, the most recent
    one, and moves backup 3 to a backup 4.  The oldest generation is
    kept and a backup numbered beyond the retention count exists. *)
Theorem daemon_rotation_keeps_oldest :
  let d := LogSink.rotations LogSink.check_rotation LogSink.LOG_FILE four_generations ∅ in
  d !! LogSink.LOG_FILE = None /\
  d !! LogSink.backup LogSink.LOG_FILE 1 = Some (generation "fourth") /\
  d !! LogSink.backup LogSink.LOG_FILE 2 = None /\
  d !! LogSink.backup LogSink.LOG_FILE 3 = Some (generation "second") /\
  d !! LogSink.backup LogSink.LOG_FILE 4 = Some (generation "first").
Proof. vm_compute. repeat split; reflexivity. Qed.

(** ** Stable sorting *)

Section SortFacts.
Context {A : Type} (leb : A -> A -> bool).

Lemma insert_sorted_perm (x : A) (l : list A) : insert_sorted leb x l ≡ₚ x :: l.
Proof.
  induction l as [|y l IH]; simpl; [done|].
  destruct (leb x y); [done|]. rewrite IH. apply Permutation_swap.
Qed.

Lemma sorted_perm (l : list A) : sorted leb l ≡ₚ l.
Proof.
  induction l as [|x l IH]; simpl; [done|].
  rewrite insert_sorted_perm. by f_equiv.
Qed.

Lemma sorted_elem_of (x : A) (l : list A) : x ∈ sorted leb l <-> x ∈ l.
Proof. by rewrite sorted_perm. Qed.

Hypothesis leb_total : forall x y, leb x y = true \/ leb y x = true.
Hypothesis leb_trans : forall x y z, leb x y = true -> leb y z = true -> leb x z = true.

Lemma insert_sorted_ordered (x : A) (l : list A) :
  StronglySorted (fun a b => leb a b = true) l ->
  StronglySorted (fun a b => leb a b = true) (insert_sorted leb x l).
Proof.
  induction 1 as [|y l Hs IH Hy]; simpl.
  - repeat constructor.
  - destruct (leb x y) eqn:E.
    + constructor; [by constructor|].
      constructor; [done|]. eapply Forall_impl; [exact Hy|]. simpl. eauto.
    + constructor; [done|]. rewrite insert_sorted_perm.
      constructor; [|done]. destruct (leb_total x y); congruence.
Qed.

Lemma sorted_ordered (l : list A) :
  StronglySorted (fun a b => leb a b = true) (sorted leb l).
Proof.
  induction l as [|x l IH]; simpl; [constructor|]. by apply insert_sorted_ordered.
Qed.

End SortFacts.

Lemma insert_sorted_fmap {A B : Type} (f : A -> B) (lebA : A -> A -> bool)
  (lebB : B -> B -> bool) (x : A) (l : list A) :
  (forall a b, lebA a b = lebB (f a) (f b)) ->
  f <$> insert_sorted lebA x l = insert_sorted lebB (f x) (f <$> l).
Proof.
  intros H. induction l as [|y l IH]; csimpl; [done|].
  rewrite <- H. destruct (lebA x y); csimpl; [done|]. by rewrite IH.
Qed.

Lemma sorted_fmap {A B : Type} (f : A -> B) (lebA : A -> A -> bool)
  (lebB : B -> B -> bool) (l : list A) :
  (forall a b, lebA a b = lebB (f a) (f b)) ->
  f <$> sorted lebA l = sorted lebB (f <$> l).
Proof.
  intros H. induction l as [|x l IH]; csimpl; [done|].
  rewrite (insert_sorted_fmap f lebA lebB) by done. by rewrite IH.
Qed.

Lemma string_leb_total (s t : string) : String.leb s t = true \/ String.leb t s = true.
Proof. apply String.leb_total. Qed.

Lemma string_leb_trans (s t u : string) :
  String.leb s t = true -> String.leb t u = true -> String.leb s u = true.
Proof.
  intros H1 H2. apply Is_true_true. apply Is_true_true in H1, H2.
  change (String.le s u). change (String.le s t) in H1. change (String.le t u) in H2.
  by etrans.
Qed.

(** ** Scheduler: the two loops, entry by entry *)

Section SchedulerFacts.
Context {L : Croniter}.

Lemma daemon_visit_acc now c acc item :
  Daemon.due_visit now c acc item
  = (acc.1 ++ (Daemon.visit_one now c item).1, acc.2 ++ (Daemon.visit_one now c item).2).
Proof.
  unfold Daemon.visit_one, Daemon.due_visit. destruct acc as [ds ls], item as [n m]. simpl.
  destruct (negb _); simpl; [by rewrite !app_nil_r|].
  destruct (Daemon.due_check now c n m) as [[d|]|e]; simpl; by rewrite ?app_nil_r.
Qed.

Lemma daemon_foldl_acc now c acc l :
  foldl (Daemon.due_visit now c) acc l
  = (acc.1 ++ (Daemon.scan now c l).1, acc.2 ++ (Daemon.scan now c l).2).
Proof.
  unfold Daemon.scan. revert acc. induction l as [|item l IH]; intros acc; simpl.
  - destruct acc. simpl. by rewrite !app_nil_r.
  - rewrite IH. rewrite (IH (Daemon.due_visit _ _ ([], []) item)).
    rewrite (daemon_visit_acc now c acc). simpl.
    fold (Daemon.visit_one now c item). by rewrite !app_assoc.
Qed.

Lemma daemon_scan_cons now c item l :
  Daemon.scan now c (item :: l)
  = ((Daemon.visit_one now c item).1 ++ (Daemon.scan now c l).1,
     (Daemon.visit_one now c item).2 ++ (Daemon.scan now c l).2).
Proof.
  unfold Daemon.scan at 1. simpl. rewrite daemon_foldl_acc. done.
Qed.

Lemma daemon_scan_app now c l1 l2 :
  Daemon.scan now c (l1 ++ l2)
  = ((Daemon.scan now c l1).1 ++ (Daemon.scan now c l2).1,
     (Daemon.scan now c l1).2 ++ (Daemon.scan now c l2).2).
Proof.
  unfold Daemon.scan at 1. rewrite foldl_app. fold (Daemon.scan now c l1).
  rewrite daemon_foldl_acc. done.
Qed.

Lemma manager_visit_acc now acc item :
  Manager.due_visit now acc item = acc ++ Manager.visit_one now item.
Proof.
  unfold Manager.visit_one, Manager.due_visit. destruct item as [n m].
  destruct (negb _); simpl; [by rewrite app_nil_r|].
  destruct (Manager.due_check now m) as [[|]|e]; simpl; rewrite ?app_nil_r; try done.
  destruct (get_none m "last_sync"); simpl; by rewrite ?app_nil_r.
Qed.

Lemma manager_foldl_acc now acc l :
  foldl (Manager.due_visit now) acc l = acc ++ Manager.scan now l.
Proof.
  unfold Manager.scan. revert acc. induction l as [|item l IH]; intros acc; simpl.
  - by rewrite app_nil_r.
  - rewrite IH. rewrite (IH (Manager.due_visit _ [] item)).
    rewrite (manager_visit_acc now acc). fold (Manager.visit_one now item).
    by rewrite app_assoc.
Qed.

Lemma manager_scan_cons now item l :
  Manager.scan now (item :: l) = Manager.visit_one now item ++ Manager.scan now l.
Proof. unfold Manager.scan at 1. simpl. by rewrite manager_foldl_acc. Qed.

Lemma manager_scan_app now l1 l2 :
  Manager.scan now (l1 ++ l2) = Manager.scan now l1 ++ Manager.scan now l2.
Proof.
  unfold Manager.scan at 1. rewrite foldl_app. fold (Manager.scan now l1).
  by rewrite manager_foldl_acc.
Qed.

End SchedulerFacts.

Lemma naive_ltb_drop (a b : datetime) :
  naive_ltb (drop_tzinfo a) (drop_tzinfo b) = naive_ltb a b.
Proof. reflexivity. Qed.

(** ** The reference evaluator fires strictly after its start *)

Lemma lex_leb_false_cons (x y : Z) (a b : list Z) :
  lex_leb (y :: b) (x :: a) = false <-> x <= y /\ (x < y \/ lex_leb b a = false).
Proof.
  simpl. rewrite orb_false_iff, andb_false_iff, Z.ltb_ge, Z.eqb_neq. split.
  - intros [H1 [H2|H2]]; split; auto; lia.
  - intros [H1 [H2|H2]]; split; auto; lia.
Qed.

Lemma lex_lt_trans (a b c : list Z) :
  lex_leb b a = false -> lex_leb c b = false -> lex_leb c a = false.
Proof.
  revert b c. induction a as [|x a IH]; intros [|y b] [|z c]; try done.
  rewrite !lex_leb_false_cons. intros [H1 H2] [H3 H4]. split; [lia|].
  destruct H2 as [H2|H2], H4 as [H4|H4]; try (left; lia). right. eauto.
Qed.

Lemma naive_ltb_trans (a b c : datetime) :
  naive_ltb a b = true -> naive_ltb b c = true -> naive_ltb a c = true.
Proof.
  unfold naive_ltb, naive_leb. rewrite !negb_true_iff. apply lex_lt_trans.
Qed.

Lemma next_minute_later (t : datetime) : naive_ltb t (next_minute t) = true.
Proof.
  unfold naive_ltb, naive_leb, next_minute. rewrite negb_true_iff.
  destruct t as [y mo d h mi sec us tz]. simpl.
  repeat match goal with
  | |- context [if ?x <? ?y then _ else _] => destruct (Z.ltb_spec x y)
  end; simpl; rewrite ?lex_leb_false_cons; repeat split; lia.
Qed.

Lemma next_minute_tzinfo (t : datetime) : tzinfo (next_minute t) = tzinfo t.
Proof. unfold next_minute. by repeat case_match. Qed.

Lemma search_later (fuel : nat) (c : daily) (t t' : datetime) :
  Cron.search fuel c t = Ok t' ->
  (t' = t \/ naive_ltb t t' = true) /\ tzinfo t' = tzinfo t.
Proof.
  revert t. induction fuel as [|fuel IH]; intros t; simpl; [done|].
  destruct (_ && _).
  - intros [= ->]. auto.
  - intros H. destruct (IH _ H) as [Hlt Htz]. rewrite next_minute_tzinfo in Htz.
    split; [|done]. right. destruct Hlt as [->|Hlt].
    + apply next_minute_later.
    + eapply naive_ltb_trans; [apply next_minute_later | done].
Qed.

Lemma reference_strictly_after : strictly_after reference.
Proof.
  intros c t t' H. simpl in H. unfold daily_next in H.
  destruct (search_later _ _ _ _ H) as [Hlt Htz]. rewrite next_minute_tzinfo in Htz.
  rewrite naive_ltb_drop. split; [|done]. destruct Hlt as [->|Hlt].
  - apply next_minute_later.
  - eapply naive_ltb_trans; [apply next_minute_later | done].
Qed.

(** With the schedule [0 */6 * * *], at one o'clock in the afternoon,
    an entry synchronised seven hours before is due and one
    synchronised an hour before is not. *)
Example six_hourly_due :
  let cfg last := with_entries
                    [("repo", entry (Some (JBool true)) (Some six_hourly) (Some (JStr last)))] in
  let one_pm := DT 2024 5 2 13 0 0 0 None in
  Daemon.name <$> (Daemon.get_due_mirrors (L := reference) one_pm
                     (cfg "2024-05-02T06:00:00")).1 = ["repo"] /\
  Daemon.name <$> (Daemon.get_due_mirrors (L := reference) one_pm
                     (cfg "2024-05-02T12:00:00")).1 = [].
Proof. split; vm_compute; reflexivity. Qed.

(** ** Scheduler: never-synchronised entries *)

Section NeverSynced.
Context {L : Croniter}.

(** The daemon anchors an entry without [last_sync] at the first of
    January 2000 and returns it once the schedule has fired since. *)
Lemma daemon_never_synced_due now c repo_name m cr t :
  truthy (get m "enabled" (JBool true)) = true ->
  truthy (get_none m "last_sync") = false ->
  croniter (get m "schedule" (schedule (defaults c))) = Ok cr ->
  get_next cr (midnight 2000 1 1) = Ok t ->
  le_now t now = Ok true ->
  Daemon.visit_one now c (repo_name, m)
  = ([Daemon.Due repo_name (get m "timeout" (timeout (defaults c))) (get_none m "last_sync")],
     []).
Proof.
  intros He Hl Hc Hn Hle. unfold Daemon.visit_one, Daemon.due_visit, Daemon.due_check.
  rewrite He. simpl negb. cbv iota. unfold Daemon.anchor. rewrite Hl. simpl bind.
  rewrite Hc. simpl bind. rewrite Hn. simpl bind. rewrite Hle. done.
Qed.

(** The manager anchors such an entry at the current time: the next
    fire time is then in the future and the entry is not returned. *)
Lemma manager_never_synced_not_due now repo_name m sched cr t :
  strictly_after L -> tzinfo now = None ->
  truthy (get_none m "last_sync") = false ->
  m !! "schedule" = Some sched ->
  croniter sched = Ok cr ->
  get_next cr now = Ok t ->
  Manager.visit_one now (repo_name, m) = [].
Proof.
  intros HL Hnow Hl Hs Hc Hn. unfold Manager.visit_one, Manager.due_visit.
  destruct (negb _); [done|].
  unfold Manager.due_check, Manager.getitem. rewrite Hs. simpl bind.
  rewrite Hl. simpl bind. rewrite Hc. simpl bind. rewrite Hn. simpl bind.
  destruct (HL _ _ _ Hn) as [Hlt Htz]. rewrite naive_ltb_drop in Hlt.
  unfold le_now. rewrite Htz, Hnow. unfold naive_ltb in Hlt.
  apply negb_true_iff in Hlt. by rewrite Hlt.
Qed.

End NeverSynced.

(** C4.  An enabled repository that was never synchronised, with the
    default schedule: the daemon returns it as due, the manager
    returns nothing. *)
Theorem manager_never_synced_skipped :
  Daemon.name <$> (Daemon.get_due_mirrors (L := reference) noon fresh).1 = ["fresh"] /\
  Manager.get_due_mirrors (L := reference) noon fresh = [].
Proof. split; vm_compute; reflexivity. Qed.

(** ** Scheduler: order of the result *)

Section DueOrder.
Context {L : Croniter}.

(** X23.  The daemon returns the due entries in ascending order of
    the [last_sync] strings, an entry without one counting as the empty
    string, and the list returned holds exactly the entries that the
    loop selected. *)
Lemma daemon_due_sorted_by_key now c :
  StronglySorted (fun x y => String.leb (Daemon.sort_key x) (Daemon.sort_key y) = true)
                 (Daemon.get_due_mirrors now c).1 /\
  (Daemon.get_due_mirrors now c).1 ≡ₚ (Daemon.scan now c (mirrors c)).1.
Proof.
  split; simpl.
  - apply (sorted_ordered Daemon.key_leb).
    + intros x y. apply string_leb_total.
    + intros x y z. apply string_leb_trans.
  - apply sorted_perm.
Qed.

(** X24.  The manager returns the due entries in ascending order of
    the [last_sync] strings as well, and exactly the entries that its
    loop selected. *)
Lemma manager_due_sorted_by_key now c :
  StronglySorted (fun x y => Manager.key_leb x y = true) (Manager.get_due_mirrors now c) /\
  Manager.get_due_mirrors now c ≡ₚ Manager.scan now (mirrors c).
Proof.
  split.
  - apply (sorted_ordered Manager.key_leb).
    + intros x y. apply string_leb_total.
    + intros x y z. apply string_leb_trans.
  - apply sorted_perm.
Qed.

End DueOrder.

(** C7.  Two due repositories whose timestamps the daemon wrote a
    quarter of a second apart, the first on a whole second: the one
    synchronised later is returned first.  The manager does the same
    with a timestamp that separates date and time by a space. *)
Theorem due_order_not_chronological :
  (Daemon.anchor (JStr "2024-05-01T10:00:00Z") = Ok (DT 2024 5 1 10 0 0 0 None) /\
   Daemon.anchor (JStr "2024-05-01T10:00:00.250000Z") = Ok (DT 2024 5 1 10 0 0 250000 None) /\
   naive_ltb (DT 2024 5 1 10 0 0 0 None) (DT 2024 5 1 10 0 0 250000 None) = true /\
   Daemon.name <$> (Daemon.get_due_mirrors (L := reference) noon close_pair).1
   = ["newer"; "older"]) /\
  (fromisoformat "2024-05-01T09:00:00" = Ok (DT 2024 5 1 9 0 0 0 None) /\
   fromisoformat "2024-05-01 10:00:00" = Ok (DT 2024 5 1 10 0 0 0 None) /\
   naive_ltb (DT 2024 5 1 9 0 0 0 None) (DT 2024 5 1 10 0 0 0 None) = true /\
   fst <$> Manager.get_due_mirrors (L := reference) noon mixed_pair = ["newer"; "older"]).
Proof. repeat split; vm_compute; reflexivity. Qed.

(** ** Scheduler: an entry whose schedule does not parse *)

Section BadSchedule.
Context {L : Croniter}.

(** In the daemon such an entry adds nothing to the list; when it is
    enabled it adds one error record to the log. *)
Lemma daemon_bad_schedule_entry now c repo_name m sched e :
  m !! "schedule" = Some sched -> croniter sched = Raise e ->
  (Daemon.visit_one now c (repo_name, m)).1 = [] /\
  (Daemon.visit_one now c (repo_name, m)).2
  = if truthy (get m "enabled" (JBool true))
    then [Daemon.LogRecord "ERROR"
            (repo_name +:+ ": Error calculating next sync: "
             +:+ match Daemon.anchor (get_none m "last_sync") with
                 | Ok _ => e
                 | Raise e' => e'
                 end)]
    else [].
Proof.
  intros Hs Hc. unfold Daemon.visit_one, Daemon.due_visit, Daemon.due_check.
  destruct (truthy (get m "enabled" (JBool true))); simpl negb; cbv iota; [|done].
  replace (get m "schedule" (schedule (defaults c))) with sched
    by (unfold get; by rewrite Hs).
  destruct (Daemon.anchor (get_none m "last_sync")) as [t|e']; simpl bind; [|done].
  rewrite Hc. done.
Qed.

(** In the manager it is returned exactly when it is enabled and has
    no [last_sync]. *)
Lemma manager_bad_schedule_entry now repo_name m sched e :
  m !! "schedule" = Some sched -> croniter sched = Raise e ->
  Manager.visit_one now (repo_name, m)
  = if truthy (get m "enabled" (JBool false))
       && bool_decide (get_none m "last_sync" = JNull)
    then [(repo_name, m)] else [].
Proof.
  intros Hs Hc. unfold Manager.visit_one, Manager.due_visit.
  destruct (truthy (get m "enabled" (JBool false))); simpl negb; cbv iota; [|done].
  assert (exists e', Manager.due_check now m = Raise e') as [e' ->].
  { unfold Manager.due_check, Manager.getitem. rewrite Hs. simpl bind.
    destruct (if truthy (get_none m "last_sync") then _ else _) as [t|e']; simpl bind.
    - rewrite Hc. eauto.
    - eauto. }
  simpl andb. destruct (get_none m "last_sync"); done.
Qed.

End BadSchedule.

(** C6, counterexample.  The manager returns as due an enabled,
    never-synchronised entry whose schedule does not parse; the daemon
    logs nothing for such an entry when it is disabled. *)
Lemma manager_returns_unparsable :
  croniter (Croniter := reference) (JStr "every day")
  = Raise "Invalid cron expression: every day" /\
  "broken" ∈ (fst <$> Manager.get_due_mirrors (L := reference) noon broken) /\
  (Daemon.get_due_mirrors (L := reference) noon broken_off).2 = [].
Proof.
  split; [vm_compute; reflexivity|]. split; [|vm_compute; reflexivity].
  replace (fst <$> Manager.get_due_mirrors (L := reference) noon broken)
    with ["broken"] by (vm_compute; reflexivity).
  apply list_elem_of_here.
Qed.

(** C6, amended.  An entry whose schedule does not parse never enters
    the daemon's result, which is the result for the configuration
    without the entry; the daemon logs one error record for it when it
    is enabled and none otherwise, the records of the other entries
    being unchanged.  The manager logs nothing; it returns the entry
    when it is enabled and has no [last_sync], and its result for the
    other entries is the result without the entry. *)
Theorem unparsable_schedule_isolated {L : Croniter} (now : datetime) (c : Config)
  (l1 l2 : list (string * gmap string jval)) (repo_name : string)
  (m : gmap string jval) (sched : jval) (e : string) :
  m !! "schedule" = Some sched ->
  croniter sched = Raise e ->
  let with_bad := with_mirrors c (l1 ++ (repo_name, m) :: l2) in
  let without := with_mirrors c (l1 ++ l2) in
  (Daemon.get_due_mirrors now with_bad).1 = (Daemon.get_due_mirrors now without).1 /\
  (exists msg,
     (Daemon.get_due_mirrors now with_bad).2
     = (Daemon.scan now c l1).2
       ++ (if truthy (get m "enabled" (JBool true))
           then [Daemon.LogRecord "ERROR"
                   (repo_name +:+ ": Error calculating next sync: " +:+ msg)]
           else [])
       ++ (Daemon.scan now c l2).2) /\
  (Daemon.get_due_mirrors now without).2
  = (Daemon.scan now c l1).2 ++ (Daemon.scan now c l2).2 /\
  (truthy (get m "enabled" (JBool false)) && bool_decide (get_none m "last_sync" = JNull)
   = false ->
   Manager.get_due_mirrors now with_bad = Manager.get_due_mirrors now without) /\
  (truthy (get m "enabled" (JBool false)) && bool_decide (get_none m "last_sync" = JNull)
   = true ->
   forall x, x ∈ Manager.get_due_mirrors now with_bad
             <-> x = (repo_name, m) \/ x ∈ Manager.get_due_mirrors now without).
Proof.
  intros Hs Hc with_bad without.
  destruct (daemon_bad_schedule_entry now c repo_name m sched e Hs Hc) as [Hd1 Hd2].
  pose proof (manager_bad_schedule_entry now repo_name m sched e Hs Hc) as Hm.
  unfold Daemon.get_due_mirrors, Manager.get_due_mirrors, with_bad, without. simpl mirrors.
  change (Daemon.scan now (with_mirrors c ?l) ?l') with (Daemon.scan now c l').
  rewrite !daemon_scan_app, daemon_scan_cons, !manager_scan_app, manager_scan_cons.
  cbn [fst snd]. rewrite Hd1, Hd2, Hm. simpl app.
  split; [done|]. split; [eauto|]. split; [done|]. split.
  - intros ->. done.
  - intros ->. intros x. rewrite !sorted_elem_of. cbv iota.
    rewrite !elem_of_app, list_elem_of_singleton. tauto.
Qed.

(** C6, witness: the sample entry with the bad schedule, placed
    between the entries of two other configurations. *)
Lemma unparsable_schedule_isolated_witness :
  (Daemon.get_due_mirrors (L := reference) noon
     (with_mirrors default_config (mirrors plain ++ mirrors broken ++ mirrors fresh))).1
  = (Daemon.get_due_mirrors (L := reference) noon
       (with_mirrors default_config (mirrors plain ++ mirrors fresh))).1.
Proof.
  refine (proj1 (unparsable_schedule_isolated (L := reference) noon default_config
                   (mirrors plain) (mirrors fresh) "broken"
                   (entry (Some (JBool true)) (Some (JStr "every day")) (Some JNull))
                   (JStr "every day") "Invalid cron expression: every day" _ _)).
  - vm_compute. reflexivity.
  - vm_compute. reflexivity.
Defined.

(** ** Scheduler: the daemon against the manager *)

Lemma replace_char_absent (old : ascii) (new s : string) :
  FS.contains_char old s = false -> replace_char old new s = s.
Proof.
  induction s as [|ch s IH]; simpl; [done|].
  intros H. apply orb_false_iff in H as [H1 H2].
  rewrite Ascii.eqb_sym, H1. by rewrite IH.
Qed.

Lemma drop_tzinfo_naive (t : datetime) : tzinfo t = None -> drop_tzinfo t = t.
Proof. destruct t. simpl. by intros ->. Qed.

Section Agreement.
Context {L : Croniter}.

(** On a plain entry both loops make the same decision, with the same
    sort key. *)
Lemma visit_one_plain now c repo_name m :
  plain_entry m = true ->
  (fun d => (Daemon.name d, Daemon.sort_key d)) <$> (Daemon.visit_one now c (repo_name, m)).1
  = (fun x => (x.1, Manager.sort_key (get_none x.2 "last_sync")))
      <$> Manager.visit_one now (repo_name, m).
Proof.
  unfold plain_entry. intros H.
  apply andb_true_iff in H as [H Hlast]. apply andb_true_iff in H as [Hen Hsc].
  apply bool_decide_eq_true in Hen as [en Hen]. apply bool_decide_eq_true in Hsc as [sc Hsc].
  destruct (m !! "last_sync") as [[| | |s]|] eqn:Hl; try done.
  apply andb_true_iff in Hlast as [Hlast Htz]. apply andb_true_iff in Hlast as [Hne HZ].
  apply negb_true_iff in HZ.
  assert (Hget : get_none m "last_sync" = JStr s) by (unfold get_none, get; by rewrite Hl).
  assert (Htr : truthy (JStr s) = true) by done.
  unfold Daemon.visit_one, Manager.visit_one, Daemon.due_visit, Manager.due_visit.
  replace (get m "enabled" (JBool true)) with en by (unfold get; by rewrite Hen).
  replace (get m "enabled" (JBool false)) with en by (unfold get; by rewrite Hen).
  destruct (negb (truthy en)); [done|].
  unfold Daemon.due_check, Manager.due_check, Manager.getitem, Daemon.anchor.
  replace (get m "schedule" (schedule (defaults c))) with sc by (unfold get; by rewrite Hsc).
  rewrite Hsc, Hget, Htr, (replace_char_absent _ _ _ HZ). simpl bind at 3.
  destruct (fromisoformat s) as [t|e]; simpl bind; [|done].
  apply bool_decide_eq_true in Htz. rewrite (drop_tzinfo_naive t Htz).
  destruct (croniter sc) as [cr|e]; simpl bind; [|done].
  destruct (get_next cr t) as [next|e]; simpl bind; [|done].
  destruct (le_now next now) as [[|]|e]; simpl bind; try done.
  csimpl. unfold Daemon.sort_key. simpl Daemon.last_sync. by rewrite Hget.
Qed.

Lemma scan_plain now c l :
  Forall (fun item => plain_entry item.2 = true) l ->
  (fun d => (Daemon.name d, Daemon.sort_key d)) <$> (Daemon.scan now c l).1
  = (fun x => (x.1, Manager.sort_key (get_none x.2 "last_sync"))) <$> Manager.scan now l.
Proof.
  induction 1 as [|[n m] l Hm Hl IH]; [done|].
  rewrite daemon_scan_cons, manager_scan_cons. cbn [fst]. rewrite !fmap_app.
  rewrite IH. f_equal. by apply visit_one_plain.
Qed.

End Agreement.

(** C10.  The daemon and the manager do not select the same
    repositories.  At noon the daemon returns the never-synchronised
    repository of [fresh] and the manager does not; the daemon returns
    both repositories of [close_pair], whose timestamps it wrote itself
    and which the manager cannot read, and the manager returns none;
    the daemon returns the entry of [implicit], which has no [enabled]
    field, and the manager does not; and the manager returns the
    never-synchronised entry of [broken], whose schedule does not
    parse, and the daemon does not. *)
Lemma daemon_manager_disagree :
  let daemon c := Daemon.name <$> (Daemon.get_due_mirrors (L := reference) noon c).1 in
  let manager c := fst <$> Manager.get_due_mirrors (L := reference) noon c in
  ~ daemon implicit ≡ₚ manager implicit /\
  ~ daemon fresh ≡ₚ manager fresh /\
  ~ daemon broken ≡ₚ manager broken /\
  ~ daemon close_pair ≡ₚ manager close_pair.
Proof.
  cbv beta zeta.
  replace (Daemon.name <$> (Daemon.get_due_mirrors (L := reference) noon implicit).1)
    with ["implicit"] by (vm_compute; reflexivity).
  replace (fst <$> Manager.get_due_mirrors (L := reference) noon implicit)
    with (@nil string) by (vm_compute; reflexivity).
  replace (Daemon.name <$> (Daemon.get_due_mirrors (L := reference) noon fresh).1)
    with ["fresh"] by (vm_compute; reflexivity).
  replace (fst <$> Manager.get_due_mirrors (L := reference) noon fresh)
    with (@nil string) by (vm_compute; reflexivity).
  replace (Daemon.name <$> (Daemon.get_due_mirrors (L := reference) noon broken).1)
    with (@nil string) by (vm_compute; reflexivity).
  replace (fst <$> Manager.get_due_mirrors (L := reference) noon broken)
    with ["broken"] by (vm_compute; reflexivity).
  replace (Daemon.name <$> (Daemon.get_due_mirrors (L := reference) noon close_pair).1)
    with ["newer"; "older"] by (vm_compute; reflexivity).
  replace (fst <$> Manager.get_due_mirrors (L := reference) noon close_pair)
    with (@nil string) by (vm_compute; reflexivity).
  repeat split; intros H%Permutation_length; done.
Qed.

(** X28.  Where the two computations agree.  On a configuration in
    which every entry has an [enabled] field, a [schedule] field and a
    [last_sync] that is a non-empty string without [Z] and without UTC
    offset, the daemon and the manager return the same repository
    names in the same order. *)
Theorem due_names_agree_on_plain_entries {L : Croniter} (now : datetime) (c : Config) :
  Forall (fun item => plain_entry item.2 = true) (mirrors c) ->
  Daemon.name <$> (Daemon.get_due_mirrors now c).1 = fst <$> Manager.get_due_mirrors now c.
Proof.
  intros H. pose proof (scan_plain now c (mirrors c) H) as Hscan.
  unfold Daemon.get_due_mirrors, Manager.get_due_mirrors. cbn [fst].
  set (leb2 := fun a b : string * string => String.leb a.2 b.2).
  assert (E1 : (fun d => (Daemon.name d, Daemon.sort_key d))
                 <$> sorted Daemon.key_leb (Daemon.scan now c (mirrors c)).1
               = sorted leb2 ((fun d => (Daemon.name d, Daemon.sort_key d))
                                <$> (Daemon.scan now c (mirrors c)).1))
    by (by apply sorted_fmap).
  assert (E2 : (fun x : string * gmap string jval =>
                  (x.1, Manager.sort_key (get_none x.2 "last_sync")))
                 <$> sorted Manager.key_leb (Manager.scan now (mirrors c))
               = sorted leb2 ((fun x : string * gmap string jval =>
                                 (x.1, Manager.sort_key (get_none x.2 "last_sync")))
                                <$> Manager.scan now (mirrors c)))
    by (by apply sorted_fmap).
  rewrite Hscan, <- E2 in E1. apply (f_equal (fmap fst)) in E1.
  rewrite <- !list_fmap_compose in E1. exact E1.
Qed.

(** X28, witness: the sample configuration with plain entries. *)
Lemma due_names_agree_on_plain_entries_witness :
  Daemon.name <$> (Daemon.get_due_mirrors (L := reference) noon plain).1
  = fst <$> Manager.get_due_mirrors (L := reference) noon plain.
Proof.
  apply (due_names_agree_on_plain_entries (L := reference) noon plain).
  repeat (constructor; [vm_compute; reflexivity|]). constructor.
Defined.

(** ** State store: updates of the configuration *)

Lemma find_update_same name f l :
  find_mirror name (update_mirror name f l) = f <$> find_mirror name l.
Proof.
  induction l as [|[k m] l IH]; simpl; [done|].
  destruct (String.eqb k name) eqn:E; simpl; rewrite E; [done | apply IH].
Qed.

Lemma find_update_other name other f l :
  other <> name -> find_mirror other (update_mirror name f l) = find_mirror other l.
Proof.
  intros Hne. induction l as [|[k m] l IH]; simpl; [done|].
  destruct (String.eqb k name) eqn:E; simpl.
  - destruct (String.eqb k other) eqn:E'; [|done].
    apply String.eqb_eq in E, E'. congruence.
  - by rewrite IH.
Qed.

Lemma update_mirror_names name f l : (update_mirror name f l).*1 = l.*1.
Proof.
  induction l as [|[k m] l IH]; simpl; [done|].
  destruct (String.eqb k name); csimpl; [done | by rewrite IH].
Qed.

Lemma NoDup_names_unique (l : list (string * gmap string jval)) n m m' :
  NoDup l.*1 -> (n, m) ∈ l -> (n, m') ∈ l -> m = m'.
Proof.
  induction l as [|[k v] l IH]; csimpl; intros Hnd H1 H2.
  - by apply elem_of_nil in H1.
  - apply NoDup_cons in Hnd as [Hk Hnd].
    apply elem_of_cons in H1, H2. destruct H1 as [E1|H1], H2 as [E2|H2].
    + congruence.
    + injection E1 as -> ->. exfalso. apply Hk.
      by apply (list_elem_of_fmap_2 fst _ (k, m')).
    + injection E2 as -> ->. exfalso. apply Hk.
      by apply (list_elem_of_fmap_2 fst _ (k, m)).
    + by apply IH.
Qed.

Section Selection.
Context {L : Croniter}.

(** Whatever the daemon returns comes from an entry it reads as
    enabled. *)
Lemma daemon_scan_enabled now c l d :
  d ∈ (Daemon.scan now c l).1 ->
  exists m, (Daemon.name d, m) ∈ l /\ truthy (get m "enabled" (JBool true)) = true.
Proof.
  induction l as [|[n m] l IH]; [by intros ?%elem_of_nil|].
  rewrite daemon_scan_cons. cbn [fst]. intros [H|H]%elem_of_app.
  - exists m. unfold Daemon.visit_one, Daemon.due_visit in H.
    destruct (truthy (get m "enabled" (JBool true))) eqn:E; simpl in H;
      [|by apply elem_of_nil in H].
    destruct (Daemon.due_check now c n m) as [[d'|]|e] eqn:Hc; simpl in H;
      try (by apply elem_of_nil in H).
    apply list_elem_of_singleton in H as ->.
    unfold Daemon.due_check in Hc.
    repeat match type of Hc with
    | bind ?r _ = _ => destruct r; simpl in Hc; [|done]
    end.
    injection Hc as Hc. case_match; [|done]. injection Hc as <-. simpl.
    split; [apply list_elem_of_here | done].
  - destruct (IH H) as (m' & ? & ?). exists m'. split; [by apply list_elem_of_further | done].
Qed.

(** Whatever the manager returns is an entry it reads as enabled. *)
Lemma manager_scan_enabled now l x :
  x ∈ Manager.scan now l ->
  x ∈ l /\ truthy (get x.2 "enabled" (JBool false)) = true.
Proof.
  induction l as [|[n m] l IH]; [by intros ?%elem_of_nil|].
  rewrite manager_scan_cons. intros [H|H]%elem_of_app.
  - unfold Manager.visit_one, Manager.due_visit in H.
    destruct (truthy (get m "enabled" (JBool false))) eqn:E; simpl in H;
      [|by apply elem_of_nil in H].
    assert (x = (n, m)) as ->.
    { repeat case_match; simpl in H;
        solve [by apply elem_of_nil in H | by apply list_elem_of_singleton in H]. }
    split; [apply list_elem_of_here | done].
  - destruct (IH H). split; [by apply list_elem_of_further | done].
Qed.

(** A disabled entry is returned by neither computation. *)
Lemma disabled_never_due now c repo_name m :
  NoDup (mirrors c).*1 ->
  (repo_name, m) ∈ mirrors c ->
  m !! "enabled" = Some (JBool false) ->
  (repo_name ∉ (Daemon.name <$> (Daemon.get_due_mirrors now c).1)) /\
  (repo_name ∉ (Manager.get_due_mirrors now c).*1).
Proof.
  intros Hnd Hin Hen. split.
  - intros (d & -> & Hd)%list_elem_of_fmap. cbn [fst Daemon.get_due_mirrors] in Hd.
    apply sorted_elem_of in Hd. apply daemon_scan_enabled in Hd as (m' & Hm' & Ht).
    rewrite (NoDup_names_unique _ _ _ _ Hnd Hm' Hin) in Ht.
    unfold get in Ht. by rewrite Hen in Ht.
  - intros ([n m'] & -> & Hx)%list_elem_of_fmap. unfold Manager.get_due_mirrors in Hx.
    apply sorted_elem_of in Hx. apply manager_scan_enabled in Hx as [Hm' Ht].
    simpl in *. rewrite (NoDup_names_unique _ _ _ _ Hnd Hm' Hin) in Ht.
    unfold get in Ht. by rewrite Hen in Ht.
Qed.

End Selection.

(** C9.  Disabling a repository that is in the configuration sets the
    [enabled] field of its entry to false; every other field of the
    entry, every other entry, the order of the entries and the rest of
    the configuration are unchanged.  In every configuration and at
    every time, an entry whose [enabled] field is false is returned
    neither by the daemon nor by the manager. *)
Theorem disable_only_flips_enabled {L : Croniter} (json_dump : Config -> list string)
  (oserror : op -> gmap string string -> bool)
  (config_file repo_name : string) (s : store) (m : gmap string jval) :
  find_mirror repo_name (mirrors (config s)) = Some m ->
  let s' := (Manager.disable_mirror json_dump oserror config_file repo_name s).2 in
  (exists m', find_mirror repo_name (mirrors (config s')) = Some m' /\
              m' !! "enabled" = Some (JBool false) /\
              forall key, key <> "enabled" -> m' !! key = m !! key) /\
  (forall other, other <> repo_name ->
     find_mirror other (mirrors (config s')) = find_mirror other (mirrors (config s))) /\
  (mirrors (config s')).*1 = (mirrors (config s)).*1 /\
  version (config s') = version (config s) /\
  defaults (config s') = defaults (config s) /\
  (forall (now : datetime) (c : Config) (n : string) (e : gmap string jval),
     NoDup (mirrors c).*1 -> (n, e) ∈ mirrors c -> e !! "enabled" = Some (JBool false) ->
     (n ∉ (Daemon.name <$> (Daemon.get_due_mirrors now c).1)) /\
     (n ∉ (Manager.get_due_mirrors now c).*1)).
Proof.
  intros Hfind s'. unfold s', Manager.disable_mirror, has_mirror.
  rewrite Hfind. rewrite bool_decide_eq_true_2 by eauto. simpl.
  repeat split.
  - exists (<["enabled" := JBool false]> m). rewrite find_update_same, Hfind.
    split; [done|]. split; [apply lookup_insert_eq|].
    intros key Hkey. by rewrite lookup_insert_ne.
  - intros other Hne. by apply find_update_other.
  - apply update_mirror_names.
  - eapply disabled_never_due; eauto.
  - eapply disabled_never_due; eauto.
Qed.

(** C9, witness: disabling the repository [early] of the sample
    configuration. *)
Lemma disable_only_flips_enabled_witness :
  (mirrors (config (Manager.disable_mirror dump no_oserror "/tmp/mirror-config.json" "early"
                      (loaded "/tmp/mirror-config.json" plain)).2)).*1
  = (mirrors plain).*1.
Proof.
  refine (proj1 (proj2 (proj2
    (disable_only_flips_enabled (L := reference) dump no_oserror "/tmp/mirror-config.json" "early"
       (loaded "/tmp/mirror-config.json" plain)
       (entry (Some (JBool true)) (Some six_hourly) (Some (JStr "2024-05-01T10:00:00")))
       _)))).
  vm_compute. reflexivity.
Defined.

(** C8, counterexample.  The daemon's [update_sync_status] hands its
    caller the same value for a name that is absent as for one that is
    present: it reports nothing. *)
Lemma daemon_update_status_reports_nothing :
  find_mirror "ghost" (mirrors fresh) = None /\
  is_Some (find_mirror "fresh" (mirrors fresh)) /\
  ~ ((Daemon.update_sync_status (L := reference) dump noon noon "ghost"
        (JStr "success") JNull (loaded Daemon.CONFIG_FILE fresh)).1
     <> (Daemon.update_sync_status (L := reference) dump noon noon "fresh"
           (JStr "success") JNull (loaded Daemon.CONFIG_FILE fresh)).1).
Proof.
  split; [reflexivity|]. split; [vm_compute; eauto|].
  assert (U : forall a b : unit, a = b) by (by intros [] []).
  intros H. apply H. apply U.
Qed.

(** C8, amended.  For a name that is not in the configuration, both
    [update_sync_status] leave the configuration, the disk and the list
    of system calls as they are; the manager's returns [False], the
    daemon's returns nothing. *)
Theorem update_status_unknown_name {L : Croniter} (json_dump : Config -> list string)
  (oserror : op -> gmap string string -> bool)
  (config_file : string) (t1 t2 : datetime) (repo_name : string)
  (status error : jval) (duration : option jval) (s : store) :
  find_mirror repo_name (mirrors (config s)) = None ->
  Manager.update_sync_status json_dump oserror config_file t1 t2 repo_name status error duration s
  = (Ok false, s) /\
  Daemon.update_sync_status json_dump t1 t2 repo_name status error s = (tt, s).
Proof.
  intros H. unfold Manager.update_sync_status, Daemon.update_sync_status.
  by rewrite H.
Qed.

(** C8, witness: a name the sample configuration does not have. *)
Lemma update_status_unknown_name_witness :
  Manager.update_sync_status (L := reference) dump no_oserror Daemon.CONFIG_FILE noon noon "ghost"
    (JStr "failed") (JStr "exit 1") None (loaded Daemon.CONFIG_FILE fresh)
  = (Ok false, loaded Daemon.CONFIG_FILE fresh).
Proof.
  refine (proj1 (update_status_unknown_name (L := reference) dump no_oserror Daemon.CONFIG_FILE
                   noon noon "ghost" (JStr "failed") (JStr "exit 1") None
                   (loaded Daemon.CONFIG_FILE fresh) _)).
  reflexivity.
Defined.

(** ** Executor: the status written for a job *)

Section Recorded.
Context {L : Croniter}.
Variable json_dump : Config -> list string.

(** The daemon's [update_sync_status] writes the status it is given
    into the entry. *)
Lemma daemon_update_status_records t1 t2 repo_name status err s m :
  find_mirror repo_name (mirrors (config s)) = Some m ->
  find_mirror repo_name
    (mirrors (config (Daemon.update_sync_status json_dump t1 t2 repo_name status err s).2))
    ≫= (.!! "last_status")
  = Some status.
Proof.
  intros H. unfold Daemon.update_sync_status. rewrite H. simpl.
  rewrite find_update_same, H. simpl.
  destruct (bind _ _); simplify_map_eq; done.
Qed.

Lemma sync_repository_repo w repo_name limit :
  Daemon.repo (Daemon.sync_repository w repo_name limit).1 = repo_name.
Proof.
  unfold Daemon.sync_repository. destruct (negb _); [done|].
  destruct (Daemon.git_remote_update _ _ _) as [[rc err| |msg] el]; try done.
  by destruct (rc =? 0).
Qed.

End Recorded.

(** C2, counterexample.  A command that runs into its timeout is
    recorded with the status [failed], not [timeout], and so is a
    repository whose directory is missing, not with [error]. *)
Lemma timeout_recorded_as_failed :
  let recorded w :=
    find_mirror "fresh"
      (mirrors (config (Daemon.record_result (L := reference) dump noon noon
                          (Daemon.sync_repository w "fresh" (JNum 600)).1
                          (loaded Daemon.CONFIG_FILE fresh))))
      ≫= (.!! "last_status") in
  (Daemon.git_remote_update stuck "/opt/cgit/data/repositories/fresh.git" (JNum 600)).1
  = Daemon.TimeoutExpired /\
  recorded stuck = Some (JStr "failed") /\
  recorded stuck <> Some (JStr "timeout") /\
  Daemon.isdir bare "/opt/cgit/data/repositories/fresh.git" = false /\
  recorded bare = Some (JStr "failed") /\
  recorded bare <> Some (JStr "error").
Proof.
  cbv beta zeta.
  assert (E : forall w, w = stuck \/ w = bare ->
              find_mirror "fresh"
                (mirrors (config (Daemon.record_result (L := reference) dump noon noon
                   (Daemon.sync_repository w "fresh" (JNum 600)).1
                   (loaded Daemon.CONFIG_FILE fresh))))
              ≫= (.!! "last_status") = Some (JStr "failed"))
    by (intros w [-> | ->]; vm_compute; reflexivity).
  rewrite !E by auto. repeat split; done.
Qed.

(** C2, amended.  The status recorded for a job is [success] when the
    repository directory exists and the command exits with zero, and
    [failed] in every other case: a non-zero exit, a timeout, any
    other fault of the invocation, and a missing directory, in which
    case no command is started. *)
Theorem recorded_status_success_or_failed {L : Croniter}
  (json_dump : Config -> list string) (w : Daemon.world) (t1 t2 : datetime)
  (repo_name : string) (limit : jval) (s : store) (m : gmap string jval) :
  find_mirror repo_name (mirrors (config s)) = Some m ->
  let job := Daemon.sync_repository w repo_name limit in
  let s' := Daemon.record_result json_dump t1 t2 job.1 s in
  let repo_path :=
    Daemon.path_join "/opt/cgit/data/repositories" (repo_name +:+ ".git") in
  find_mirror repo_name (mirrors (config s')) ≫= (.!! "last_status")
  = Some (JStr (if Daemon.isdir w repo_path
                then match (Daemon.git_remote_update w repo_path limit).1 with
                     | Daemon.Completed 0 _ => "success"
                     | _ => "failed"
                     end
                else "failed")) /\
  (Daemon.isdir w repo_path = false ->
   forall argv lim, Daemon.Spawned argv lim ∉ job.2).
Proof.
  intros Hm job s' repo_path.
  assert (Hrepo : Daemon.repo job.1 = repo_name) by apply sync_repository_repo.
  split.
  - unfold s', Daemon.record_result. rewrite Hrepo.
    assert (Hs : Daemon.success job.1
                 = if Daemon.isdir w repo_path
                   then match (Daemon.git_remote_update w repo_path limit).1 with
                        | Daemon.Completed 0 _ => true
                        | _ => false
                        end
                   else false).
    { unfold job, Daemon.sync_repository. fold repo_path.
      destruct (Daemon.isdir w repo_path); [|done]. simpl negb. cbv iota.
      destruct (Daemon.git_remote_update w repo_path limit) as [[rc err| |msg] el];
        try done.
      simpl. by destruct rc. }
    rewrite Hs. destruct (Daemon.isdir w repo_path).
    + destruct (Daemon.git_remote_update w repo_path limit).1 as [[|?|?] ?| |];
        by rewrite (daemon_update_status_records json_dump _ _ _ _ _ _ m).
    + by rewrite (daemon_update_status_records json_dump _ _ _ _ _ _ m).
  - intros Hdir argv lim. unfold job, Daemon.sync_repository. fold repo_path.
    rewrite Hdir. simpl. by intros ?%list_elem_of_singleton.
Qed.

(** C2, witness: the sample repository, whose command times out. *)
Lemma recorded_status_success_or_failed_witness :
  find_mirror "fresh"
    (mirrors (config (Daemon.record_result (L := reference) dump noon noon
                        (Daemon.sync_repository stuck "fresh" (JNum 600)).1
                        (loaded Daemon.CONFIG_FILE fresh))))
    ≫= (.!! "last_status")
  = Some (JStr "failed").
Proof.
  refine (proj1 (recorded_status_success_or_failed (L := reference) dump stuck noon noon
                   "fresh" (JNum 600) (loaded Daemon.CONFIG_FILE fresh)
                   (entry (Some (JBool true)) (Some six_hourly) (Some JNull)) _)).
  vm_compute. reflexivity.
Defined.

(** ** Executor: the bound on running jobs *)

Section Pool.
Context {L : Croniter}.
Variable json_dump : Config -> list string.
Variable w : Daemon.world.
Variable max_workers : nat.

Lemma job_of_insert (th : list Daemon.worker) (i : nat) (t t' : Daemon.worker) :
  th !! i = Some t ->
  Daemon.job_of t' ++ (th ≫= Daemon.job_of)
  ≡ₚ Daemon.job_of t ++ (<[i := t']> th ≫= Daemon.job_of).
Proof.
  revert i. induction th as [|x th IH]; intros [|i] H; try done; csimpl in *.
  - injection H as ->. solve_Permutation.
  - rewrite (Permutation_app_swap_app (Daemon.job_of t')), (IH i H). solve_Permutation.
Qed.

Lemma job_of_idle (th : list Daemon.worker) :
  Forall (fun t => t = Daemon.Idle) th -> th ≫= Daemon.job_of = [].
Proof. induction 1 as [|t th -> _ IH]; [done|]. csimpl. by rewrite IH. Qed.

Lemma pool_inv_step due_mirrors p p' :
  Daemon.pool_inv max_workers due_mirrors p ->
  Daemon.pool_step json_dump w max_workers p p' ->
  Daemon.pool_inv max_workers due_mirrors p'.
Proof.
  intros (Hlen & Hacc & Hex) Hstep. unfold Daemon.pool_inv, Daemon.accounted in *.
  destruct Hstep; simpl in *.
  - split; [done|]. split; [|done]. rewrite <- Hacc, fmap_app. csimpl. solve_Permutation.
  - split; [rewrite length_app; simpl; lia|]. split; [|done].
    rewrite <- Hacc, bind_app. csimpl. by rewrite app_nil_r.
  - split; [by rewrite length_insert|]. split; [|done].
    rewrite <- Hacc. csimpl.
    pose proof (job_of_insert th i Daemon.Idle (Daemon.Busy j) H) as Hp. simpl in Hp.
    rewrite <- Hp. solve_Permutation.
  - split; [by rewrite length_insert|]. split; [|done].
    rewrite <- Hacc, fmap_app. csimpl. rewrite sync_repository_repo.
    pose proof (job_of_insert th i (Daemon.Busy j) Daemon.Idle H) as Hp. simpl in Hp.
    rewrite Hp. solve_Permutation.
  - split; [done|]. split; [|done].
    rewrite <- Hacc, !fmap_app. csimpl. solve_Permutation.
  - split; [done|]. split; [done|]. intros _. by rewrite job_of_idle.
Qed.

Lemma pool_inv_reachable s due_mirrors p :
  Daemon.reachable json_dump w max_workers (Daemon.start s due_mirrors) p ->
  Daemon.pool_inv max_workers due_mirrors p.
Proof.
  induction 1 as [|p p' _ IH Hstep].
  - unfold Daemon.pool_inv, Daemon.accounted. simpl. split; [lia|]. split; [|done].
    by rewrite !app_nil_r.
  - by eapply pool_inv_step.
Qed.

(** A move that is possible is a step of the batch. *)
Lemma play_sound m p p' :
  Daemon.play json_dump w max_workers m p = Some p' ->
  Daemon.pool_step json_dump w max_workers p p'.
Proof.
  destruct p as [sub q th fin col s ev ex]. unfold Daemon.play.
  destruct ex; [done|]. destruct m as [| |i|i|k t1 t2|].
  - destruct sub as [|j rest]; [done|]. intros [= <-]. constructor.
  - destruct (length th <? max_workers)%nat eqn:E; [|done]. intros [= <-].
    constructor. by apply Nat.ltb_lt.
  - destruct q as [|j q']; [done|]. destruct (th !! i) as [[|j']|] eqn:E; try done.
    intros [= <-]. by constructor.
  - destruct (th !! i) as [[|j]|] eqn:E; try done. intros [= <-]. by constructor.
  - destruct sub; [|done]. destruct (fin !! k) as [r|] eqn:E; [|done]. intros [= <-].
    rewrite <- (take_drop_middle fin k r E) at 1. constructor.
  - destruct sub; [|done]. destruct q; [|done]. destruct fin; [|done].
    destruct (forallb _ th) eqn:E; [|done]. intros [= <-]. constructor.
    apply Forall_forall. intros t Ht. apply list_elem_of_In in Ht.
    rewrite forallb_forall in E. specialize (E t Ht). by destruct t.
Qed.

Lemma plays_reachable p0 ms p p' :
  Daemon.reachable json_dump w max_workers p0 p ->
  Daemon.plays json_dump w max_workers ms p = Some p' ->
  Daemon.reachable json_dump w max_workers p0 p'.
Proof.
  revert p. induction ms as [|m ms IH]; intros p Hp; simpl.
  - by intros [= <-].
  - destruct (Daemon.play json_dump w max_workers m p) as [p1|] eqn:E; [|done].
    apply IH. eapply Daemon.reach_step; [exact Hp | exact (play_sound m p p1 E)].
Qed.

End Pool.

(** C5.  In every state that a batch of [sync_cycle] can reach, the
    number of running jobs is at most the number of workers, which is
    [max_concurrent] when that is a positive number; every job of the
    batch is waiting to be submitted, queued, running, finished or
    handled; and once the [with] block has been left, the results
    handled are those of all the jobs submitted. *)
Theorem pool_bounded_and_drains {L : Croniter} (json_dump : Config -> list string)
  (w : Daemon.world) (now : datetime) (cfg : Config) (s : store)
  (n : nat) (due_mirrors : list Daemon.due) (p : Daemon.pool) :
  Daemon.sync_cycle_batch w now cfg = Some (n, due_mirrors) ->
  Daemon.reachable json_dump w n (Daemon.start (with_config s cfg) due_mirrors) p ->
  (Daemon.running p <= n)%nat /\
  (forall z, max_concurrent (defaults cfg) = Some (JNum z) ->
             Z.of_nat (Daemon.running p) <= z) /\
  Daemon.accounted p ≡ₚ Daemon.name <$> due_mirrors /\
  (Daemon.exited p = true ->
   Daemon.repo <$> Daemon.collected p ≡ₚ Daemon.name <$> due_mirrors).
Proof.
  intros Hbatch Hreach.
  destruct (pool_inv_reachable json_dump w n _ _ _ Hreach) as (Hlen & Hacc & Hex).
  assert (Hrun : (Daemon.running p <= n)%nat).
  { unfold Daemon.running. etrans; [apply filter_length_le | done]. }
  split; [done|]. split; [|split; [done|]].
  - intros z Hz. unfold Daemon.sync_cycle_batch in Hbatch.
    destruct (Daemon.get_due_mirrors now cfg).1; [done|].
    rewrite Hz in Hbatch. simpl in Hbatch.
    destruct (0 <? z) eqn:E; [|done]. injection Hbatch as <- _.
    apply Z.ltb_lt in E. lia.
  - intros He. destruct (Hex He) as (H1 & H2 & H3 & H4).
    unfold Daemon.accounted in Hacc. rewrite H1, H2, H3, H4 in Hacc. exact Hacc.
Qed.

(** C5, witness: three due repositories and two workers.  While both
    workers are busy the third job waits in the queue; at the end of
    the batch the three results have been handled. *)
Lemma pool_bounded_and_drains_witness :
  (Daemon.running crowded = 2%nat /\ Daemon.work_queue crowded = [gamma_job] /\
   (Daemon.running crowded <= 2)%nat /\ Z.of_nat (Daemon.running crowded) <= 2) /\
  (Daemon.exited crowd_done = true /\
   Daemon.repo <$> Daemon.collected crowd_done ≡ₚ ["alpha"; "beta"; "gamma"]).
Proof.
  assert (Hb : Daemon.sync_cycle_batch (L := reference) mixed noon crowd
               = Some (2%nat, [alpha_job; beta_job; gamma_job]))
    by (vm_compute; reflexivity).
  assert (Hbusy : Daemon.reachable (L := reference) dump mixed 2 crowd_start crowded).
  { apply (plays_reachable (L := reference) dump mixed 2 crowd_start crowd_busy_moves
             crowd_start); [apply Daemon.reach_start | vm_compute; reflexivity]. }
  assert (Hdone : Daemon.reachable (L := reference) dump mixed 2 crowd_start crowd_done).
  { apply (plays_reachable (L := reference) dump mixed 2 crowd_start crowd_end_moves
             crowd_start); [apply Daemon.reach_start | vm_compute; reflexivity]. }
  destruct (pool_bounded_and_drains (L := reference) dump mixed noon crowd
              (loaded Daemon.CONFIG_FILE crowd) 2 [alpha_job; beta_job; gamma_job]
              crowded Hb Hbusy) as (H1 & H2 & _ & _).
  destruct (pool_bounded_and_drains (L := reference) dump mixed noon crowd
              (loaded Daemon.CONFIG_FILE crowd) 2 [alpha_job; beta_job; gamma_job]
              crowd_done Hb Hdone) as (_ & _ & _ & H4).
  split.
  - split; [vm_compute; reflexivity|]. split; [vm_compute; reflexivity|].
    split; [exact H1 | exact (H2 2 eq_refl)].
  - split; [vm_compute; reflexivity | exact (H4 eq_refl)].
Defined.

(** ** Timestamps: printing and parsing *)

Ltac use_ih :=
  match goal with
  | IH : forall _, _ |- _ => rewrite IH
  | IH : _ = _ |- _ => rewrite IH
  end.

Lemma take_digits_numeral (d : Decimal.uint) (acc : Z) (rest : string) :
  take_digits (Decimal.nb_digits d) acc (NilEmpty.string_of_uint d +:+ rest)
  = Some (horner d acc, rest).
Proof.
  revert acc. induction d as [|d IH|d IH|d IH|d IH|d IH|d IH|d IH|d IH|d IH|d IH];
    intros acc; [by destruct rest|..];
    cbn [NilEmpty.string_of_uint Decimal.nb_digits horner]; rewrite string_app_cons;
    cbn [take_digits];
    match goal with
    | |- context [digit_val ?c] =>
        let v := eval vm_compute in (digit_val c) in change (digit_val c) with v
    end; cbv iota; rewrite IH; try reflexivity; do 3 f_equal; lia.
Qed.

Lemma horner_pos (d : Decimal.uint) (acc : positive) :
  horner d (Z.pos acc) = Z.pos (Pos.of_uint_acc d acc).
Proof.
  revert acc. induction d; intros acc; simpl; try done;
    match goal with
    | IH : forall _, _ |- _ => rewrite <- IH
    end; f_equal; lia.
Qed.

Lemma horner_of_uint (d : Decimal.uint) : horner d 0 = Z.of_N (Pos.of_uint d).
Proof.
  induction d; simpl; try done;
    match goal with
    | |- horner _ ?k = _ => change k with (Z.pos (Z.to_pos k)); by rewrite horner_pos
    end.
Qed.

Lemma horner_to_uint (p : positive) : horner (Pos.to_uint p) 0 = Z.pos p.
Proof. by rewrite horner_of_uint, DecimalPos.Unsigned.of_to. Qed.

Lemma horner_lower (d : Decimal.uint) (acc : Z) :
  0 <= acc -> acc * 10 ^ Z.of_nat (Decimal.nb_digits d) <= horner d acc.
Proof.
  revert acc. induction d as [|d IH|d IH|d IH|d IH|d IH|d IH|d IH|d IH|d IH|d IH];
    intros acc Hacc; cbn [horner Decimal.nb_digits];
    try (rewrite Z.pow_0_r; lia);
    rewrite Nat2Z.inj_succ, Z.pow_succ_r by lia;
    (etrans; [|apply IH; lia]);
    assert (0 < 10 ^ Z.of_nat (Decimal.nb_digits d)) by (apply Z.pow_pos_nonneg; lia);
    nia.
Qed.

Lemma numeral_length (d : Decimal.uint) :
  String.length (NilEmpty.string_of_uint d) = Decimal.nb_digits d.
Proof. induction d; simpl; congruence. Qed.

Lemma horner_head_nonzero (d : Decimal.uint) :
  d <> Decimal.Nil -> (forall d', d <> Decimal.D0 d') ->
  10 ^ (Z.of_nat (Decimal.nb_digits d) - 1) <= horner d 0.
Proof.
  intros Hnil H0. destruct d; try done; [by destruct (H0 d)|..];
    cbn [horner Decimal.nb_digits];
    rewrite Nat2Z.inj_succ;
    replace (Z.succ (Z.of_nat (Decimal.nb_digits d)) - 1)
      with (Z.of_nat (Decimal.nb_digits d)) by lia;
    (etrans; [|apply horner_lower; lia]);
    assert (0 < 10 ^ Z.of_nat (Decimal.nb_digits d)) by (apply Z.pow_pos_nonneg; lia);
    nia.
Qed.

Lemma to_uint_head (p : positive) :
  Pos.to_uint p <> Decimal.Nil /\ forall d', Pos.to_uint p <> Decimal.D0 d'.
Proof.
  split; [apply Unsigned.to_uint_nonnil|]. intros d' H.
  pose proof (Unsigned.to_of (Pos.to_uint p)) as Hn.
  rewrite Unsigned.of_to in Hn. simpl in Hn.
  pose proof (Unsigned.to_uint_nonzero p) as Hz.
  assert (Hh : Decimal.nzhead (Pos.to_uint p) <> Decimal.Nil).
  { intros E. apply Hz. rewrite Hn. by apply unorm_0. }
  apply unorm_nzhead in Hh. rewrite <- Hn in Hh.
  apply (nzhead_nonzero (Pos.to_uint p) d'). congruence.
Qed.

(** The decimal numeral that [str] prints for a natural number below
    [10 ^ n]: it has at most [n] digits and denotes the number. *)
Lemma str_of_Z_numeral (n : nat) (v : Z) :
  (1 <= n)%nat -> 0 <= v < 10 ^ Z.of_nat n ->
  exists d, str_of_Z v = NilEmpty.string_of_uint d /\ horner d 0 = v /\
            (Decimal.nb_digits d <= n)%nat.
Proof.
  intros Hn [H0 Hv]. destruct v as [|p|p]; [| |lia].
  - exists (Decimal.D0 Decimal.Nil). repeat split; simpl; lia.
  - exists (Pos.to_uint p). destruct (to_uint_head p) as [H1 H2].
    split; [|split].
    + unfold str_of_Z. simpl. by destruct (Pos.to_uint p).
    + apply horner_to_uint.
    + pose proof (horner_head_nonzero _ H1 H2) as Hlow. rewrite horner_to_uint in Hlow.
      destruct (decide (Decimal.nb_digits (Pos.to_uint p) <= n)%nat) as [|Hgt]; [done|].
      exfalso. assert (10 ^ Z.of_nat n <= 10 ^ (Z.of_nat (Decimal.nb_digits (Pos.to_uint p)) - 1))
        by (apply Z.pow_le_mono_r; lia). lia.
Qed.

Lemma take_digits_zeros (k m : nat) (s : string) :
  take_digits (k + m) 0 (zeros k +:+ s) = take_digits m 0 s.
Proof. induction k as [|k IH]; [done|]. simpl zeros. rewrite string_app_cons. exact IH. Qed.

(** Reading back [n] digits printed with zero padding. *)
Lemma take_digits_fixed (n : nat) (v : Z) (rest : string) :
  (1 <= n)%nat -> 0 <= v < 10 ^ Z.of_nat n ->
  take_digits n 0 (fixed n v +:+ rest) = Some (v, rest).
Proof.
  intros Hn Hv. destruct (str_of_Z_numeral n v Hn Hv) as (d & Hs & Hh & Hl).
  unfold fixed, zero_pad. rewrite Hs, numeral_length, string_app_assoc.
  replace n with ((n - Decimal.nb_digits d) + Decimal.nb_digits d)%nat at 1 by lia.
  rewrite take_digits_zeros, take_digits_numeral. by rewrite Hh.
Qed.

Lemma expect_here (c : ascii) (rest : string) :
  expect c (String c EmptyString +:+ rest) = Some rest.
Proof. rewrite string_app_cons, string_app_nil. simpl. by rewrite Ascii.eqb_refl. Qed.

Lemma valid_ranges (t : datetime) :
  valid t = true ->
  1 <= year t <= 9999 /\ 1 <= month t <= 12 /\ 1 <= day t <= 31 /\
  0 <= hour t < 24 /\ 0 <= minute t < 60 /\ 0 <= second t < 60 /\
  0 <= microsecond t < 1000000.
Proof.
  unfold valid. rewrite !andb_true_iff, !Z.leb_le, !Z.ltb_lt.
  intros H. assert (days_in_month (year t) (month t) <= 31)
    by (unfold days_in_month; repeat case_match; lia).
  lia.
Qed.

(** Parsing what [isoformat] prints, followed by [sfx]. *)
Lemma parse_iso_isoformat (t : datetime) (sfx : string) :
  valid t = true -> expect "." sfx = None ->
  parse_iso (isoformat t +:+ sfx)
  = off ← parse_offset sfx;
    Some (DT (year t) (month t) (day t) (hour t) (minute t) (second t) (microsecond t) off).
Proof.
  intros Hv Hsfx. destruct (valid_ranges t Hv) as (Hy & Hmo & Hd & Hh & Hmi & Hs & Hus).
  unfold isoformat, parse_iso. rewrite !string_app_assoc.
  rewrite take_digits_fixed by (simpl; lia). cbn [mbind option_bind].
  rewrite expect_here. cbn [mbind option_bind].
  rewrite take_digits_fixed by (simpl; lia). cbn [mbind option_bind].
  rewrite expect_here. cbn [mbind option_bind].
  rewrite take_digits_fixed by (simpl; lia). cbn [mbind option_bind].
  rewrite (string_app_cons "T"), string_app_nil.
  unfold parse_time.
  rewrite take_digits_fixed by (simpl; lia). cbn [mbind option_bind].
  rewrite expect_here.
  rewrite take_digits_fixed by (simpl; lia). cbn [mbind option_bind].
  rewrite expect_here.
  rewrite take_digits_fixed by (simpl; lia). cbn [mbind option_bind].
  destruct (Z.eqb_spec (microsecond t) 0) as [E|E].
  - rewrite string_app_nil, Hsfx, E. cbn [mbind option_bind]. done.
  - rewrite string_app_assoc, expect_here. unfold parse_fraction.
    rewrite take_digits_fixed by (simpl; lia). cbn [mbind option_bind]. done.
Qed.

Lemma contains_char_app (c : ascii) (a b : string) :
  FS.contains_char c (a +:+ b) = FS.contains_char c a || FS.contains_char c b.
Proof.
  induction a as [|x a IH]; [done|].
  rewrite string_app_cons. simpl. rewrite IH. by rewrite orb_assoc.
Qed.

Lemma replace_char_app (c : ascii) (new a b : string) :
  replace_char c new (a +:+ b) = replace_char c new a +:+ replace_char c new b.
Proof.
  induction a as [|x a IH]; [done|].
  rewrite string_app_cons. simpl. rewrite IH.
  destruct (Ascii.eqb x c); [by rewrite string_app_assoc | done].
Qed.

Lemma numeral_no_Z (d : Decimal.uint) :
  FS.contains_char "Z" (NilEmpty.string_of_uint d) = false.
Proof. induction d; simpl; done. Qed.

Lemma zeros_no_Z (n : nat) : FS.contains_char "Z" (zeros n) = false.
Proof. induction n; simpl; done. Qed.

Lemma numeral_zero_no_Z (d : Decimal.uint) :
  FS.contains_char "Z" (NilZero.string_of_uint d) = false.
Proof. destruct d; try done; apply (numeral_no_Z (_ d)). Qed.

Lemma fixed_no_Z (n : nat) (v : Z) : 0 <= v -> FS.contains_char "Z" (fixed n v) = false.
Proof.
  intros Hv. unfold fixed, zero_pad. rewrite contains_char_app, zeros_no_Z. simpl.
  unfold str_of_Z. destruct v as [|p|p]; [done | | lia]. apply numeral_zero_no_Z.
Qed.

Lemma isoformat_no_Z (t : datetime) :
  valid t = true -> FS.contains_char "Z" (isoformat t) = false.
Proof.
  intros Hv. destruct (valid_ranges t Hv) as (Hy & Hmo & Hd & Hh & Hmi & Hs & Hus).
  unfold isoformat. rewrite !contains_char_app, !fixed_no_Z by lia.
  destruct (microsecond t =? 0); [done|]. by rewrite contains_char_app, fixed_no_Z by lia.
Qed.

(** [fromisoformat] reads back what [isoformat] prints for a naive
    date. *)
Lemma fromisoformat_isoformat (t : datetime) :
  valid t = true -> tzinfo t = None -> fromisoformat (isoformat t) = Ok t.
Proof.
  intros Hv Htz. unfold fromisoformat.
  rewrite <- (string_app_empty_r (isoformat t)) at 1.
  rewrite parse_iso_isoformat by done. simpl.
  replace (DT _ _ _ _ _ _ _ None) with t by (destruct t; simpl in *; by subst).
  by rewrite Hv.
Qed.

(** With a [Z] appended it is no date for [fromisoformat]. *)
Lemma fromisoformat_isoformat_Z (t : datetime) :
  valid t = true -> exists e, fromisoformat (isoformat t +:+ "Z") = Raise e.
Proof.
  intros Hv. unfold fromisoformat. rewrite parse_iso_isoformat by done. simpl. eauto.
Qed.

(** The daemon's anchor for a timestamp printed by [isoformat], with
    or without the [Z] that the daemon appends. *)
Lemma anchor_isoformat (t : datetime) :
  valid t = true -> tzinfo t = None ->
  Daemon.anchor (JStr (isoformat t)) = Ok t /\
  Daemon.anchor (JStr (isoformat t +:+ "Z")) = Ok t.
Proof.
  intros Hv Htz.
  assert (Hne : forall sfx, truthy (JStr (isoformat t +:+ sfx)) = true).
  { intros sfx. simpl. unfold isoformat, fixed, zero_pad.
    destruct (str_of_Z_numeral 4 (year t)) as (d & Hs & _ & Hl);
      [lia | destruct (valid_ranges t Hv); lia |].
    rewrite Hs, numeral_length.
    destruct (4 - Decimal.nb_digits d)%nat eqn:E; [|done].
    destruct d; simpl in *; try done; try lia. }
  split; unfold Daemon.anchor.
  - pose proof (Hne "") as H. rewrite string_app_empty_r in H. rewrite H.
    rewrite replace_char_absent by (by apply isoformat_no_Z).
    rewrite fromisoformat_isoformat by done. simpl.
    by rewrite drop_tzinfo_naive.
  - rewrite Hne, replace_char_app.
    rewrite replace_char_absent by (by apply isoformat_no_Z).
    change (replace_char "Z" "+00:00" "Z") with "+00:00".
    unfold fromisoformat. rewrite parse_iso_isoformat by done.
    change (parse_offset "+00:00") with (Some (Some 0)). cbn [mbind option_bind].
    assert (Hv' : valid (DT (year t) (month t) (day t) (hour t) (minute t) (second t)
                            (microsecond t) (Some 0)) = true).
    { unfold valid in *. simpl in *. rewrite Htz in Hv. by rewrite andb_true_r in *. }
    rewrite Hv'. simpl. destruct t; simpl in *; by subst.
Qed.

(** ** State store: recording a synchronisation *)

Lemma elem_find_mirror (l : list (string * gmap string jval)) (n : string)
  (m : gmap string jval) :
  (n, m) ∈ l -> is_Some (find_mirror n l).
Proof.
  induction l as [|[k v] l IH]; [by intros ?%elem_of_nil|].
  intros H. simpl. destruct (String.eqb k n) eqn:E; [eauto|].
  apply elem_of_cons in H as [[= -> ->]|H]; [|by apply IH].
  by rewrite String.eqb_refl in E.
Qed.

Lemma find_mirror_elem (l : list (string * gmap string jval)) (n : string)
  (m : gmap string jval) :
  find_mirror n l = Some m -> (n, m) ∈ l.
Proof.
  induction l as [|[k v] l IH]; [done|]. simpl.
  destruct (String.eqb k n) eqn:E.
  - intros [= ->]. apply String.eqb_eq in E as ->. apply list_elem_of_here.
  - intros H. apply list_elem_of_further. by apply IH.
Qed.

Lemma run_save_config (json_dump : Config -> list string) (c : Config)
  (d : gmap string string) :
  run (Daemon.save_config_ops json_dump c) d !! Daemon.CONFIG_FILE
  = Some (concat_chunks (json_dump c)).
Proof.
  unfold Daemon.save_config_ops. rewrite run_app, run_writes.
  change (run [?a; ?b] d) with (step (step d a) b).
  simpl step. rewrite lookup_insert_eq.
  by destruct (json_dump c).
Qed.

Lemma run_save (json_dump : Config -> list string) (config_file : string) (c : Config)
  (d : gmap string string) :
  run (Manager.save_ops json_dump config_file c) d !! config_file
  = Some (concat_chunks (json_dump c)).
Proof.
  unfold Manager.save_ops. set (tmp := config_file +:+ ".tmp").
  rewrite !run_app. unfold run at 1. simpl foldl at 1.
  unfold FS.rename. rewrite run_writes.
  change (run [OpenW tmp] d) with (<[tmp := ""]> d).
  rewrite lookup_insert_eq. simpl.
  destruct (json_dump c) as [|ch chs] eqn:E; simpl; by rewrite lookup_insert_eq.
Qed.

(** *** [MirrorConfig.save] when a system call raises *)

Lemma attempt_take (oserror : op -> gmap string string -> bool) (ops : list op)
  (d : gmap string string) :
  exists k, (Manager.attempt oserror ops d).1 = take k ops /\
            ((Manager.attempt oserror ops d).2 = true -> k = length ops) /\
            ((Manager.attempt oserror ops d).2 = false -> (k < length ops)%nat).
Proof.
  revert d. induction ops as [|o ops IH]; intros d.
  - exists 0%nat. simpl. repeat split; done.
  - simpl. destruct (oserror o d).
    + exists 0%nat. simpl. repeat split; [done | lia].
    + destruct (IH (step d o)) as (k & E & Ht & Hf). exists (S k). simpl.
      rewrite E. repeat split; [intros Hk; f_equal; auto | intros Hk; apply Hf in Hk; lia].
Qed.

Lemma attempt_no_fault (oserror : op -> gmap string string -> bool) (ops : list op)
  (d : gmap string string) :
  (forall o d', oserror o d' = false) -> Manager.attempt oserror ops d = (ops, true).
Proof.
  intros H. revert d. induction ops as [|o ops IH]; intros d; [done|].
  simpl. by rewrite H, IH.
Qed.

(** A save that stops before its last system call leaves the
    configuration file as it was. *)
Lemma save_prefix_keeps_file (json_dump : Config -> list string) (config_file : string)
  (c : Config) (d : gmap string string) (k : nat) :
  (k < length (Manager.save_ops json_dump config_file c))%nat ->
  run (take k (Manager.save_ops json_dump config_file c)) d !! config_file
  = d !! config_file.
Proof.
  unfold Manager.save_ops. set (tmp := config_file +:+ ".tmp").
  assert (Hne : tmp <> config_file) by (by apply string_app_ne_self).
  intros Hk. apply run_spares.
  rewrite !length_app, length_fmap in Hk. simpl in Hk.
  rewrite app_assoc, take_app_le by (rewrite length_app, length_fmap; simpl; lia).
  apply Forall_take. apply Forall_app. split.
  - repeat constructor; simpl; [congruence | discriminate].
  - apply Forall_fmap, Forall_forall. intros ch _.
    split; simpl; [congruence | discriminate].
Qed.

(** What [MirrorConfig.save] returns and leaves: the configuration in
    memory is not touched; on [True] all its system calls have run and
    the file holds the rendering; on [False] the file is as before;
    and it returns [True] when no system call raises. *)
Lemma save_outcome (json_dump : Config -> list string)
  (oserror : op -> gmap string string -> bool) (config_file : string) (s : store) :
  let r := Manager.save json_dump oserror config_file s in
  config r.2 = config s /\
  (r.1 = true ->
   r.2 = perform (Manager.save_ops json_dump config_file (config s)) s /\
   disk r.2 !! config_file = Some (concat_chunks (json_dump (config s)))) /\
  (r.1 = false -> disk r.2 !! config_file = disk s !! config_file) /\
  ((forall o d, oserror o d = false) -> r.1 = true).
Proof.
  cbv zeta. unfold Manager.save. cbn [fst snd].
  destruct (attempt_take oserror (Manager.save_ops json_dump config_file (config s)) (disk s))
    as (k & E & Ht & Hf).
  split; [done|]. split; [|split].
  - intros Hr. specialize (Ht Hr). rewrite E, Ht, firstn_all. split; [done|].
    unfold perform. cbn [disk]. apply run_save.
  - intros Hr. specialize (Hf Hr). rewrite E. unfold perform. cbn [disk].
    by apply save_prefix_keeps_file.
  - intros H. by rewrite attempt_no_fault.
Qed.

Section Recording.
Context {L : Croniter}.
Variable json_dump : Config -> list string.
Variable oserror : op -> gmap string string -> bool.

(** The entry that the daemon's [update_sync_status] leaves. *)
Lemma daemon_update_entry t1 t2 repo_name status err s m :
  find_mirror repo_name (mirrors (config s)) = Some m ->
  exists m',
    find_mirror repo_name
      (mirrors (config (Daemon.update_sync_status json_dump t1 t2 repo_name status err s).2))
    = Some m' /\
    m' !! "last_sync" = Some (JStr (isoformat t1 +:+ "Z")) /\
    m' !! "last_status" = Some status /\
    m' !! "last_error" = Some err /\
    forall k, k <> "last_sync" -> k <> "last_status" -> k <> "last_error" ->
              k <> "next_sync" -> m' !! k = m !! k.
Proof.
  intros H. unfold Daemon.update_sync_status. rewrite H. simpl.
  rewrite find_update_same, H. simpl. eexists. split; [done|].
  destruct (bind _ _); repeat split; intros; simplify_map_eq; done.
Qed.

(** The manager's [update_sync_status] on an entry that has a
    schedule: the entry is replaced in memory and the result is that of
    [save]. *)
Lemma manager_update_unfold config_file t1 t2 repo_name status err duration s m sched :
  find_mirror repo_name (mirrors (config s)) = Some m ->
  m !! "schedule" = Some sched ->
  let m2 := from_option (fun d => <["last_duration" := d]>) id duration
              (<["last_error" := err]>
               (<["last_status" := status]>
                (<["last_sync" := JStr (isoformat t1)]> m))) in
  let s1 := with_config s
              (with_mirrors (config s)
                 (update_mirror repo_name
                    (fun _ => <["next_sync" := Manager._calculate_next_sync t2 sched]> m2)
                    (mirrors (config s)))) in
  Manager.update_sync_status json_dump oserror config_file t1 t2 repo_name status err duration s
  = (Ok (Manager.save json_dump oserror config_file s1).1,
     (Manager.save json_dump oserror config_file s1).2).
Proof.
  intros H Hs. cbv zeta. unfold Manager.update_sync_status. rewrite H.
  assert (Hg : forall m1, m1 !! "schedule" = Some sched ->
                 Manager.getitem m1 "schedule" = Ok sched)
    by (intros m1 E; unfold Manager.getitem; by rewrite E).
  destruct duration as [v|]; rewrite Hg by (by simplify_map_eq); cbn [from_option id];
    by destruct (Manager.save _ _ _ _).
Qed.

(** The entry that the manager's [update_sync_status] leaves. *)
Lemma manager_update_entry config_file t1 t2 repo_name status err duration s m sched :
  find_mirror repo_name (mirrors (config s)) = Some m ->
  m !! "schedule" = Some sched ->
  (exists saved,
     (Manager.update_sync_status json_dump oserror config_file t1 t2 repo_name status err
        duration s).1 = Ok saved) /\
  exists m',
    find_mirror repo_name
      (mirrors (config (Manager.update_sync_status json_dump oserror config_file t1 t2 repo_name
                          status err duration s).2))
    = Some m' /\
    m' !! "last_sync" = Some (JStr (isoformat t1)) /\
    m' !! "last_status" = Some status /\
    m' !! "last_error" = Some err /\
    (forall v, duration = Some v -> m' !! "last_duration" = Some v) /\
    forall k, k <> "last_sync" -> k <> "last_status" -> k <> "last_error" ->
              k <> "next_sync" -> k <> "last_duration" -> m' !! k = m !! k.
Proof.
  intros H Hs. rewrite (manager_update_unfold _ _ _ _ _ _ _ _ _ _ H Hs). cbn [fst snd].
  split; [eauto|].
  rewrite (proj1 (save_outcome json_dump oserror config_file _)). cbn [config with_config].
  cbn [mirrors with_mirrors]. rewrite find_update_same, H. simpl. eexists. split; [done|].
  destruct duration as [v|]; cbn [from_option id];
    repeat split; intros; simplify_map_eq; done.
Qed.

End Recording.

Lemma isoformat_truthy (t : datetime) (sfx : string) :
  valid t = true -> truthy (JStr (isoformat t +:+ sfx)) = true.
Proof.
  intros Hv. simpl. unfold isoformat, fixed, zero_pad.
  destruct (str_of_Z_numeral 4 (year t)) as (d & Hs & _ & Hl);
    [lia | destruct (valid_ranges t Hv); lia |].
  rewrite Hs, numeral_length.
  destruct (4 - Decimal.nb_digits d)%nat eqn:E; [|done].
  destruct d; simpl in *; try done; try lia.
Qed.

(** X1.  The daemon's [update_sync_status] for a repository of the
    configuration sets [last_sync] to the time with a [Z], [last_status]
    and [last_error] to what it is given, and [next_sync] to the next
    fire time when the schedule can be evaluated, keeping the old value
    otherwise; the other fields of the entry, the other entries, their
    order and the defaults are unchanged, and the configuration file
    holds the rendering of the new configuration. *)
Theorem daemon_update_status_effect {L : Croniter} (json_dump : Config -> list string)
  (t1 t2 : datetime) (repo_name : string) (status err : jval) (s : store)
  (m : gmap string jval) :
  find_mirror repo_name (mirrors (config s)) = Some m ->
  let s' := (Daemon.update_sync_status json_dump t1 t2 repo_name status err s).2 in
  (exists m',
     find_mirror repo_name (mirrors (config s')) = Some m' /\
     m' !! "last_sync" = Some (JStr (isoformat t1 +:+ "Z")) /\
     m' !! "last_status" = Some status /\
     m' !! "last_error" = Some err /\
     m' !! "next_sync"
     = match bind (croniter (get m "schedule" (schedule (defaults (config s)))))
                  (fun cr => get_next cr t2) with
       | Ok next_sync => Some (JStr (isoformat next_sync +:+ "Z"))
       | Raise _ => m !! "next_sync"
       end /\
     forall k, k <> "last_sync" -> k <> "last_status" -> k <> "last_error" ->
               k <> "next_sync" -> m' !! k = m !! k) /\
  (forall other, other <> repo_name ->
     find_mirror other (mirrors (config s')) = find_mirror other (mirrors (config s))) /\
  (mirrors (config s')).*1 = (mirrors (config s)).*1 /\
  defaults (config s') = defaults (config s) /\
  disk s' !! Daemon.CONFIG_FILE = Some (concat_chunks (json_dump (config s'))).
Proof.
  intros H s'. unfold s', Daemon.update_sync_status. rewrite H. simpl.
  split; [|split; [|split; [|split]]].
  - rewrite find_update_same, H. simpl. eexists. split; [done|].
    replace (get (<["last_error" := err]> (<["last_status" := status]>
               (<["last_sync" := JStr (isoformat t1 +:+ "Z")]> m))) "schedule"
               (schedule (defaults (config s))))
      with (get m "schedule" (schedule (defaults (config s))))
      by (unfold get; by simplify_map_eq).
    destruct (bind _ _); repeat split; intros; simplify_map_eq; done.
  - intros other Hne. by apply find_update_other.
  - apply update_mirror_names.
  - done.
  - apply run_save_config.
Qed.

(** X1, witness: the sample repository, recorded at noon. *)
Lemma daemon_update_status_effect_witness :
  disk (Daemon.update_sync_status (L := reference) dump noon noon "fresh"
          (JStr "success") JNull (loaded Daemon.CONFIG_FILE fresh)).2
    !! Daemon.CONFIG_FILE
  = Some (concat_chunks
            (dump (config (Daemon.update_sync_status (L := reference) dump noon noon "fresh"
                             (JStr "success") JNull (loaded Daemon.CONFIG_FILE fresh)).2))).
Proof.
  refine (proj2 (proj2 (proj2 (proj2
    (daemon_update_status_effect (L := reference) dump noon noon "fresh"
       (JStr "success") JNull (loaded Daemon.CONFIG_FILE fresh)
       (entry (Some (JBool true)) (Some six_hourly) (Some JNull)) _))))).
  vm_compute. reflexivity.
Defined.



(** X3.  When the entry has no [schedule] field, the manager's
    [update_sync_status] raises [KeyError] after it has assigned the
    status fields: the entry in memory carries the new status, and
    nothing is written to the disk. *)
Theorem manager_update_status_without_schedule {L : Croniter}
  (json_dump : Config -> list string)
  (oserror : op -> gmap string string -> bool) (config_file : string) (t1 t2 : datetime)
  (repo_name : string) (status err : jval) (duration : option jval) (s : store)
  (m : gmap string jval) :
  find_mirror repo_name (mirrors (config s)) = Some m ->
  m !! "schedule" = None ->
  let r := Manager.update_sync_status json_dump oserror config_file t1 t2 repo_name status err
             duration s in
  r.1 = Raise "'schedule'" /\
  disk r.2 = disk s /\ trace r.2 = trace s /\
  (exists m', find_mirror repo_name (mirrors (config r.2)) = Some m' /\
              m' !! "last_sync" = Some (JStr (isoformat t1)) /\
              m' !! "last_status" = Some status /\
              m' !! "last_error" = Some err).
Proof.
  intros H Hs r. unfold r, Manager.update_sync_status. rewrite H.
  assert (Hg : forall m1, m1 !! "schedule" = None ->
                 Manager.getitem m1 "schedule" = Raise "'schedule'")
    by (intros m1 E; unfold Manager.getitem; by rewrite E).
  destruct duration as [v|]; rewrite Hg by (by simplify_map_eq); simpl;
    repeat split; rewrite find_update_same, H; simpl; eexists; split; try done;
    repeat split; by simplify_map_eq.
Qed.

(** X3, witness: an entry that holds nothing but a timeout. *)
Lemma manager_update_status_without_schedule_witness :
  (Manager.update_sync_status (L := reference) dump no_oserror Daemon.CONFIG_FILE noon noon "bare"
     (JStr "failed") (JStr "exit 1") None
     (loaded Daemon.CONFIG_FILE (with_entries [("bare", entry None None None)]))).1
  = Raise "'schedule'".
Proof.
  refine (proj1 (manager_update_status_without_schedule (L := reference) dump no_oserror
                   Daemon.CONFIG_FILE noon noon "bare" (JStr "failed") (JStr "exit 1") None
                   (loaded Daemon.CONFIG_FILE (with_entries [("bare", entry None None None)]))
                   (entry None None None) _ _)).
  - vm_compute. reflexivity.
  - vm_compute. reflexivity.
Defined.

(** ** Scheduler: after a recorded synchronisation *)

(** X4.  After the daemon has recorded a synchronisation at a time
    [t1], its due check of that entry evaluates the schedule from [t1]:
    the timestamp it wrote reads back as the same instant.  With a cron
    evaluator that fires strictly after its start, the entry is not due
    at [t1] itself. *)
Theorem daemon_due_after_recorded_sync {L : Croniter} (json_dump : Config -> list string)
  (t1 t2 now : datetime) (repo_name : string) (status err : jval) (s : store)
  (m : gmap string jval) :
  find_mirror repo_name (mirrors (config s)) = Some m ->
  valid t1 = true -> tzinfo t1 = None ->
  let s' := (Daemon.update_sync_status json_dump t1 t2 repo_name status err s).2 in
  exists m',
    find_mirror repo_name (mirrors (config s')) = Some m' /\
    Daemon.due_check now (config s') repo_name m'
    = bind (croniter (get m "schedule" (schedule (defaults (config s))))) (fun cr =>
      bind (get_next cr t1) (fun next_sync =>
      bind (le_now next_sync now) (fun is_due =>
      Ok (if is_due
          then Some (Daemon.Due repo_name
                       (get m "timeout" (timeout (defaults (config s))))
                       (JStr (isoformat t1 +:+ "Z")))
          else None)))) /\
    (strictly_after L -> (Daemon.visit_one t1 (config s') (repo_name, m')).1 = []).
Proof.
  intros H Hv Htz s'.
  destruct (daemon_update_entry json_dump t1 t2 repo_name status err s m H)
    as (m' & Hf & Hls & _ & _ & Hframe).
  exists m'. split; [exact Hf|].
  assert (Hdef : defaults (config s') = defaults (config s)).
  { unfold s', Daemon.update_sync_status. by rewrite H. }
  assert (Hsched : get m' "schedule" (schedule (defaults (config s')))
                   = get m "schedule" (schedule (defaults (config s))))
    by (unfold get; rewrite Hframe, Hdef; done).
  assert (Htime : get m' "timeout" (timeout (defaults (config s')))
                  = get m "timeout" (timeout (defaults (config s))))
    by (unfold get; rewrite Hframe, Hdef; done).
  assert (Hlast : get_none m' "last_sync" = JStr (isoformat t1 +:+ "Z"))
    by (unfold get_none, get; by rewrite Hls).
  assert (Hcheck : forall now', Daemon.due_check now' (config s') repo_name m'
    = bind (croniter (get m "schedule" (schedule (defaults (config s))))) (fun cr =>
      bind (get_next cr t1) (fun next_sync =>
      bind (le_now next_sync now') (fun is_due =>
      Ok (if is_due
          then Some (Daemon.Due repo_name
                       (get m "timeout" (timeout (defaults (config s))))
                       (JStr (isoformat t1 +:+ "Z")))
          else None))))).
  { intros now'. unfold Daemon.due_check. rewrite Hsched, Htime, Hlast.
    destruct (anchor_isoformat t1 Hv Htz) as [_ ->]. done. }
  split; [apply Hcheck|].
  intros HL. unfold Daemon.visit_one, Daemon.due_visit.
  destruct (negb _); [done|]. rewrite Hcheck.
  destruct (croniter _) as [cr|e]; simpl; [|done].
  destruct (get_next cr t1) as [next|e] eqn:Hn; simpl; [|done].
  destruct (HL _ _ _ Hn) as [Hlt Htz']. rewrite naive_ltb_drop in Hlt.
  unfold le_now. rewrite Htz', Htz. simpl.
  unfold naive_ltb in Hlt. apply negb_true_iff in Hlt. by rewrite Hlt.
Qed.

(** X4, witness: the sample repository, recorded at noon. *)
Lemma daemon_due_after_recorded_sync_witness :
  exists m',
    find_mirror "fresh"
      (mirrors (config (Daemon.update_sync_status (L := reference) dump noon noon "fresh"
                          (JStr "success") JNull (loaded Daemon.CONFIG_FILE fresh)).2))
    = Some m' /\
    (Daemon.visit_one (L := reference) noon
       (config (Daemon.update_sync_status (L := reference) dump noon noon "fresh"
                  (JStr "success") JNull (loaded Daemon.CONFIG_FILE fresh)).2)
       ("fresh", m')).1 = [].
Proof.
  destruct (daemon_due_after_recorded_sync (L := reference) dump noon noon noon "fresh"
              (JStr "success") JNull (loaded Daemon.CONFIG_FILE fresh)
              (entry (Some (JBool true)) (Some six_hourly) (Some JNull)))
    as (m' & Hf & _ & Hnot).
  - vm_compute. reflexivity.
  - vm_compute. reflexivity.
  - reflexivity.
  - exists m'. split; [exact Hf | exact (Hnot reference_strictly_after)].
Defined.

(** X5.  After the manager has recorded a synchronisation at a time
    [t1], its due check of that entry evaluates the schedule from [t1];
    with a cron evaluator that fires strictly after its start, the
    entry is not returned at [t1] itself. *)
Theorem manager_due_after_recorded_sync {L : Croniter} (json_dump : Config -> list string)
  (oserror : op -> gmap string string -> bool)
  (config_file : string) (t1 t2 now : datetime) (repo_name : string) (status err : jval)
  (duration : option jval) (s : store) (m : gmap string jval) (sched : jval) :
  find_mirror repo_name (mirrors (config s)) = Some m ->
  m !! "schedule" = Some sched ->
  valid t1 = true -> tzinfo t1 = None ->
  let s' := (Manager.update_sync_status json_dump oserror config_file t1 t2 repo_name status err
               duration s).2 in
  exists m',
    find_mirror repo_name (mirrors (config s')) = Some m' /\
    Manager.due_check now m'
    = bind (croniter sched) (fun c =>
      bind (get_next c t1) (fun next_sync => le_now next_sync now)) /\
    (strictly_after L -> Manager.visit_one t1 (repo_name, m') = []).
Proof.
  intros H Hs Hv Htz s'.
  destruct (manager_update_entry json_dump oserror config_file t1 t2 repo_name status err duration
              s m sched H Hs) as (_ & m' & Hf & Hls & _ & _ & _ & Hframe).
  exists m'. split; [exact Hf|].
  assert (Hlast : get_none m' "last_sync" = JStr (isoformat t1))
    by (unfold get_none, get; by rewrite Hls).
  assert (Hcheck : forall now', Manager.due_check now' m'
    = bind (croniter sched) (fun c =>
      bind (get_next c t1) (fun next_sync => le_now next_sync now'))).
  { intros now'. unfold Manager.due_check, Manager.getitem.
    rewrite Hframe, Hs by done. simpl bind at 1. rewrite Hlast.
    pose proof (isoformat_truthy t1 "" Hv) as Ht. rewrite string_app_empty_r in Ht.
    rewrite Ht, fromisoformat_isoformat by done. done. }
  split; [apply Hcheck|].
  intros HL. unfold Manager.visit_one, Manager.due_visit.
  destruct (negb _); [done|]. rewrite Hcheck, Hlast.
  destruct (croniter sched) as [cr|e]; simpl; [|done].
  destruct (get_next cr t1) as [next|e] eqn:Hn; simpl; [|done].
  destruct (HL _ _ _ Hn) as [Hlt Htz']. rewrite naive_ltb_drop in Hlt.
  unfold le_now. rewrite Htz', Htz.
  unfold naive_ltb in Hlt. apply negb_true_iff in Hlt. by rewrite Hlt.
Qed.

(** X5, witness: the sample repository, recorded at noon. *)
Lemma manager_due_after_recorded_sync_witness :
  exists m',
    find_mirror "fresh"
      (mirrors (config (Manager.update_sync_status (L := reference) dump no_oserror Daemon.CONFIG_FILE
                          noon noon "fresh" (JStr "success") JNull None
                          (loaded Daemon.CONFIG_FILE fresh)).2))
    = Some m' /\
    Manager.visit_one (L := reference) noon ("fresh", m') = [].
Proof.
  destruct (manager_due_after_recorded_sync (L := reference) dump no_oserror Daemon.CONFIG_FILE
              noon noon noon "fresh" (JStr "success") JNull None
              (loaded Daemon.CONFIG_FILE fresh)
              (entry (Some (JBool true)) (Some six_hourly) (Some JNull)) six_hourly)
    as (m' & Hf & _ & Hnot).
  - vm_compute. reflexivity.
  - vm_compute. reflexivity.
  - vm_compute. reflexivity.
  - reflexivity.
  - exists m'. split; [exact Hf | exact (Hnot reference_strictly_after)].
Defined.

(** X6.  Timestamps across the two programs.  The daemon reads a
    synchronisation that the manager recorded at [t1] as the instant
    [t1].  The manager cannot read a timestamp that the daemon
    recorded, and never returns such an entry as due. *)
Theorem timestamps_across_programs {L : Croniter} (json_dump : Config -> list string)
  (oserror : op -> gmap string string -> bool)
  (config_file : string) (t1 t2 : datetime) (repo_name : string) (status err : jval)
  (duration : option jval) (s : store) (m : gmap string jval) (sched : jval) :
  find_mirror repo_name (mirrors (config s)) = Some m ->
  m !! "schedule" = Some sched ->
  valid t1 = true -> tzinfo t1 = None ->
  (exists m',
     find_mirror repo_name
       (mirrors (config (Manager.update_sync_status json_dump oserror config_file t1 t2 repo_name
                           status err duration s).2)) = Some m' /\
     Daemon.anchor (get_none m' "last_sync") = Ok t1) /\
  (exists m',
     find_mirror repo_name
       (mirrors (config (Daemon.update_sync_status json_dump t1 t2 repo_name status err
                           s).2)) = Some m' /\
     (exists e, Manager.due_check t1 m' = Raise e) /\
     forall now, Manager.visit_one now (repo_name, m') = []).
Proof.
  intros H Hs Hv Htz. split.
  - destruct (manager_update_entry json_dump oserror config_file t1 t2 repo_name status err duration
                s m sched H Hs) as (_ & m' & Hf & Hls & _).
    exists m'. split; [exact Hf|].
    unfold get_none, get. rewrite Hls. simpl. by apply anchor_isoformat.
  - destruct (daemon_update_entry json_dump t1 t2 repo_name status err s m H)
      as (m' & Hf & Hls & _ & _ & Hframe).
    exists m'. split; [exact Hf|].
    assert (Hlast : get_none m' "last_sync" = JStr (isoformat t1 +:+ "Z"))
      by (unfold get_none, get; by rewrite Hls).
    destruct (fromisoformat_isoformat_Z t1 Hv) as [e He].
    assert (Hcheck : forall now, Manager.due_check now m' = Raise e).
    { intros now. unfold Manager.due_check, Manager.getitem.
      rewrite Hframe, Hs by done. simpl bind at 1.
      rewrite Hlast, isoformat_truthy, He by done. done. }
    split; [eauto|].
    intros now. unfold Manager.visit_one, Manager.due_visit.
    destruct (negb _); [done|]. by rewrite Hcheck, Hlast.
Qed.

(** X6, witness: the sample repository, recorded at noon by the
    daemon and read by the manager an hour later. *)
Lemma timestamps_across_programs_witness :
  exists m',
    find_mirror "fresh"
      (mirrors (config (Daemon.update_sync_status (L := reference) dump noon noon "fresh"
                          (JStr "success") JNull (loaded Daemon.CONFIG_FILE fresh)).2))
    = Some m' /\
    Manager.visit_one (L := reference) (DT 2024 5 2 13 0 0 0 None) ("fresh", m') = [].
Proof.
  destruct (timestamps_across_programs (L := reference) dump no_oserror Daemon.CONFIG_FILE
              noon noon "fresh" (JStr "success") JNull None
              (loaded Daemon.CONFIG_FILE fresh)
              (entry (Some (JBool true)) (Some six_hourly) (Some JNull)) six_hourly)
    as (_ & m' & Hf & _ & Hnot).
  - vm_compute. reflexivity.
  - vm_compute. reflexivity.
  - vm_compute. reflexivity.
  - reflexivity.
  - exists m'. split; [exact Hf | apply Hnot].
Defined.

(** ** Manager: enabling and listing *)

Lemma find_mirror_app_new (l : list (string * gmap string jval)) (n : string)
  (e : gmap string jval) :
  find_mirror n l = None -> find_mirror n (l ++ [(n, e)]) = Some e.
Proof.
  induction l as [|[k v] l IH]; simpl.
  - by rewrite String.eqb_refl.
  - destruct (String.eqb k n); [done | exact IH].
Qed.

Lemma find_mirror_app_other (l : list (string * gmap string jval)) (n other : string)
  (e : gmap string jval) :
  other <> n -> find_mirror other (l ++ [(n, e)]) = find_mirror other l.
Proof.
  intros Hne. induction l as [|[k v] l IH]; simpl.
  - by apply not_eq_sym, String.eqb_neq in Hne as ->.
  - destruct (String.eqb k other); [done | exact IH].
Qed.

Lemma update_mirror_absent (l : list (string * gmap string jval)) (n : string)
  (f : gmap string jval -> gmap string jval) :
  find_mirror n l = None -> update_mirror n f l = l.
Proof.
  induction l as [|[k v] l IH]; simpl; [done|].
  destruct (String.eqb k n); [done|]. intros H. by rewrite IH.
Qed.

Lemma update_mirror_app_new (l : list (string * gmap string jval)) (n : string)
  (f : gmap string jval -> gmap string jval) (e : gmap string jval) :
  find_mirror n l = None -> update_mirror n f (l ++ [(n, e)]) = l ++ [(n, f e)].
Proof.
  induction l as [|[k v] l IH]; simpl.
  - by rewrite String.eqb_refl.
  - destruct (String.eqb k n); [done|]. intros H. by rewrite IH.
Qed.

Lemma update_mirror_twice (l : list (string * gmap string jval)) (n : string)
  (f g : gmap string jval -> gmap string jval) :
  update_mirror n g (update_mirror n f l) = update_mirror n (fun m => g (f m)) l.
Proof.
  induction l as [|[k v] l IH]; simpl; [done|].
  destruct (String.eqb k n) eqn:E; simpl; rewrite E; [done | by rewrite IH].
Qed.

Lemma update_mirror_ext (l : list (string * gmap string jval)) (n : string)
  (f g : gmap string jval -> gmap string jval) :
  (forall m, f m = g m) -> update_mirror n f l = update_mirror n g l.
Proof.
  intros H. induction l as [|[k v] l IH]; simpl; [done|].
  destruct (String.eqb k n); [by rewrite H | by rewrite IH].
Qed.

Lemma has_mirror_find (n : string) (l : list (string * gmap string jval)) :
  has_mirror n l = match find_mirror n l with Some _ => true | None => false end.
Proof.
  unfold has_mirror. destruct (find_mirror n l).
  - apply bool_decide_eq_true. eauto.
  - apply bool_decide_eq_false. by intros [? ?].
Qed.

Lemma enable_fields_idem (a b : jval) (m : gmap string jval) :
  Manager.enable_fields a b (Manager.enable_fields a b m) = Manager.enable_fields a b m.
Proof.
  unfold Manager.enable_fields. apply map_eq. intros k.
  destruct (decide (k = "timeout")) as [->|]; [by simplify_map_eq|].
  destruct (decide (k = "schedule")) as [->|]; [by simplify_map_eq|].
  destruct (decide (k = "enabled")) as [->|]; by simplify_map_eq.
Qed.

Section Enabling.
Context {L : Croniter}.
Variable json_dump : Config -> list string.

Lemma enable_fields_new_entry now (a b : jval) :
  Manager.enable_fields a b (Manager.new_entry now a b) = Manager.new_entry now a b.
Proof.
  unfold Manager.new_entry, Manager.enable_fields. apply map_eq. intros k.
  destruct (decide (k = "timeout")) as [->|]; [by simplify_map_eq|].
  destruct (decide (k = "schedule")) as [->|]; [by simplify_map_eq|].
  destruct (decide (k = "enabled")) as [->|]; by simplify_map_eq.
Qed.

End Enabling.

Lemma schedule_accepted_or_not {L : Croniter} (sched : jval) :
  (truthy sched = false \/ exists c, croniter sched = Ok c) \/
  (truthy sched = true /\ exists e, croniter sched = Raise e).
Proof. destruct (truthy sched); [destruct (croniter sched)|]; eauto. Qed.

(** The store that [enable_mirror] hands to [save]. *)
Lemma enable_mirror_unfold {L : Croniter} (json_dump : Config -> list string)
  (oserror : op -> gmap string string -> bool) (config_file : string) (now : datetime)
  (repo_name : string) (sched limit : jval) (s : store) :
  truthy sched = false \/ (exists c, croniter sched = Ok c) ->
  let sched' := if truthy sched then sched else schedule (defaults (config s)) in
  let limit' := if truthy limit then limit else timeout (defaults (config s)) in
  Manager.enable_mirror json_dump oserror config_file now repo_name sched limit s
  = Manager.save json_dump oserror config_file
      (with_config s
         (with_mirrors (config s)
            (match find_mirror repo_name (mirrors (config s)) with
             | Some _ => update_mirror repo_name (Manager.enable_fields sched' limit')
                           (mirrors (config s))
             | None => mirrors (config s)
                       ++ [(repo_name, Manager.new_entry now sched' limit')]
             end))).
Proof.
  intros Hok. cbv zeta. unfold Manager.enable_mirror.
  assert (Hinv : (if truthy sched
                  then match croniter sched with Raise _ => true | Ok _ => false end
                  else false) = false).
  { destruct (truthy sched); [|done]. by destruct Hok as [?|[c ->]]. }
  rewrite Hinv, has_mirror_find. by destruct (find_mirror _ _).
Qed.


(** X9.  [enable_mirror] with no schedule, or with one that parses.
    In memory the entry of the repository then has [enabled] true, the
    schedule given or else the default one, and the timeout given or
    else the default one (a timeout of zero counts as not given).  An
    entry that existed keeps all its other fields; a new entry is added
    after the existing ones, never synchronised.  The other entries
    and the defaults are unchanged.  The call returns what [save]
    returns: on [True] the configuration file holds the rendering of
    the new configuration, on [False] the file is as it was before,
    and [True] is what a disk without faults gives. *)
Theorem enable_mirror_effect {L : Croniter} (json_dump : Config -> list string)
  (oserror : op -> gmap string string -> bool)
  (config_file : string) (now : datetime) (repo_name : string) (sched limit : jval)
  (s : store) :
  (truthy sched = true -> exists c, croniter sched = Ok c) ->
  let r := Manager.enable_mirror json_dump oserror config_file now repo_name sched limit s in
  let sched' := if truthy sched then sched else schedule (defaults (config s)) in
  let limit' := if truthy limit then limit else timeout (defaults (config s)) in
  (exists m',
     find_mirror repo_name (mirrors (config r.2)) = Some m' /\
     m' !! "enabled" = Some (JBool true) /\
     m' !! "schedule" = Some sched' /\
     m' !! "timeout" = Some limit' /\
     match find_mirror repo_name (mirrors (config s)) with
     | Some m =>
         (forall k, k <> "enabled" -> k <> "schedule" -> k <> "timeout" ->
                    m' !! k = m !! k) /\
         (mirrors (config r.2)).*1 = (mirrors (config s)).*1
     | None =>
         m' = Manager.new_entry now sched' limit' /\
         m' !! "last_sync" = Some JNull /\
         (mirrors (config r.2)).*1 = (mirrors (config s)).*1 ++ [repo_name]
     end) /\
  (forall other, other <> repo_name ->
     find_mirror other (mirrors (config r.2)) = find_mirror other (mirrors (config s))) /\
  defaults (config r.2) = defaults (config s) /\
  (r.1 = true ->
   disk r.2 !! config_file = Some (concat_chunks (json_dump (config r.2)))) /\
  (r.1 = false -> disk r.2 !! config_file = disk s !! config_file) /\
  ((forall o d, oserror o d = false) -> r.1 = true).
Proof.
  intros Hok r sched' limit'. unfold r.
  assert (Hok' : truthy sched = false \/ (exists c, croniter sched = Ok c)).
  { destruct (truthy sched); [right; by apply Hok | by left]. }
  rewrite (enable_mirror_unfold json_dump oserror config_file now repo_name sched limit s
             Hok').
  fold sched' limit'.
  match goal with
  | |- context [Manager.save json_dump oserror config_file ?s1] =>
      destruct (save_outcome json_dump oserror config_file s1) as (Ec & Hs & Hf & Hno)
  end.
  rewrite Ec. cbn [config with_config mirrors with_mirrors].
  split; [|split; [|split; [|split; [|split]]]].
  - destruct (find_mirror repo_name (mirrors (config s))) as [m|] eqn:Hfind.
    + rewrite find_update_same, Hfind. simpl. eexists. split; [done|].
      unfold Manager.enable_fields. repeat split; intros; try by simplify_map_eq.
      apply update_mirror_names.
    + rewrite find_mirror_app_new by done. eexists. split; [done|].
      unfold Manager.new_entry, Manager.enable_fields.
      repeat split; try by simplify_map_eq.
      by rewrite fmap_app.
  - intros other Hne. destruct (find_mirror repo_name (mirrors (config s))).
    + by apply find_update_other.
    + by apply find_mirror_app_other.
  - done.
  - intros E. by destruct (Hs E) as [_ ->].
  - intros E. by rewrite (Hf E).
  - exact Hno.
Qed.

(** X9, witness: a second repository with a schedule of its own, on a
    disk that takes every write. *)
Lemma enable_mirror_effect_witness :
  (Manager.enable_mirror (L := reference) dump no_oserror Daemon.CONFIG_FILE noon "second"
     (JStr "30 4 * * *") (JNum 0) (loaded Daemon.CONFIG_FILE fresh)).1 = true.
Proof.
  refine (proj2 (proj2 (proj2 (proj2 (proj2
            (enable_mirror_effect (L := reference) dump no_oserror Daemon.CONFIG_FILE noon
               "second" (JStr "30 4 * * *") (JNum 0)
               (loaded Daemon.CONFIG_FILE fresh) _))))) _).
  - intros _. eexists. vm_compute. reflexivity.
  - reflexivity.
Defined.

(** X10.  [enable_mirror] is idempotent on the configuration: a second
    call with the same schedule and timeout, at whatever time and
    whatever the disk does, leaves the configuration that the first
    call produced. *)
Theorem enable_mirror_idempotent {L : Croniter} (json_dump : Config -> list string)
  (oserror oserror' : op -> gmap string string -> bool)
  (config_file : string) (now now' : datetime) (repo_name : string) (sched limit : jval)
  (s : store) :
  let once := (Manager.enable_mirror json_dump oserror config_file now repo_name sched limit
                 s).2 in
  config (Manager.enable_mirror json_dump oserror' config_file now' repo_name sched limit
            once).2
  = config once.
Proof.
  cbv zeta.
  destruct (schedule_accepted_or_not sched) as [Hok | (Ht & e & Hc)].
  - rewrite (enable_mirror_unfold json_dump oserror config_file now repo_name sched limit s
               Hok).
    match goal with
    | |- context [Manager.save json_dump oserror config_file ?t] =>
        set (s1 := t);
        pose proof (proj1 (save_outcome json_dump oserror config_file s1)) as E1
    end.
    cbv zeta in E1.
    rewrite (enable_mirror_unfold json_dump oserror' config_file now' repo_name sched limit
               _ Hok).
    rewrite (proj1 (save_outcome json_dump oserror' config_file _)).
    rewrite E1. unfold s1. cbn [config with_config mirrors with_mirrors defaults].
    set (sched' := if truthy sched then sched else schedule (defaults (config s))).
    set (limit' := if truthy limit then limit else timeout (defaults (config s))).
    unfold with_mirrors. cbn [version defaults mirrors]. f_equal.
    destruct (find_mirror repo_name (mirrors (config s))) as [m|] eqn:Hf.
    + rewrite find_update_same, Hf. simpl.
      rewrite update_mirror_twice. apply update_mirror_ext.
      intros m0. apply enable_fields_idem.
    + rewrite find_mirror_app_new by done.
      rewrite update_mirror_app_new by done. by rewrite enable_fields_new_entry.
  - assert (Er : forall o t s0, Manager.enable_mirror json_dump o config_file t repo_name
                                  sched limit s0 = (false, s0))
      by (intros o t s0; unfold Manager.enable_mirror; by rewrite Ht, Hc).
    by rewrite !Er.
Qed.

(** X11.  [list_mirrors] without the filter returns every entry, and
    with [enabled_only] a part of them; whatever the manager returns as
    due is among the entries it lists as enabled. *)
Theorem manager_due_listed_enabled {L : Croniter} (now : datetime) (s : store) :
  Manager.list_mirrors false s = mirrors (config s) /\
  (forall x, x ∈ Manager.list_mirrors true s -> x ∈ mirrors (config s)) /\
  (forall x, x ∈ Manager.get_due_mirrors now (config s) -> x ∈ Manager.list_mirrors true s).
Proof.
  unfold Manager.list_mirrors. split; [|split].
  - simpl. induction (mirrors (config s)) as [|x l IH]; simpl; [done | by rewrite IH].
  - intros x Hx. apply list_elem_of_In, filter_In in Hx as [Hx _].
    by apply list_elem_of_In.
  - intros x Hx. unfold Manager.get_due_mirrors in Hx. apply sorted_elem_of in Hx.
    apply manager_scan_enabled in Hx as [Hin Ht].
    apply list_elem_of_In, filter_In. split; [by apply list_elem_of_In|].
    by rewrite Ht.
Qed.

(** ** Loading the configuration *)

(** X12.  What either program saves, either program loads back.  If
    [json.load] reads the rendering of the configuration, then after a
    [MirrorConfig.save] that returned [True] and after
    [SimpleConfigManager.save_config] both loaders return that
    configuration, and the manager prints no warning.  After a
    [MirrorConfig.save] that returned [False] both loaders return what
    they returned before it. *)
Theorem saved_config_loads_back (json_dump : Config -> list string)
  (oserror : op -> gmap string string -> bool)
  (json_load : string -> load_outcome) (s : store) :
  json_load (concat_chunks (json_dump (config s))) = Parsed (config s) ->
  let r := Manager.save json_dump oserror Daemon.CONFIG_FILE s in
  (r.1 = true ->
   Manager._load_or_create_config json_load Daemon.CONFIG_FILE (disk r.2)
   = Ok (config s, []) /\
   Daemon.load_config json_load (disk r.2) = config s) /\
  (r.1 = false ->
   Manager._load_or_create_config json_load Daemon.CONFIG_FILE (disk r.2)
   = Manager._load_or_create_config json_load Daemon.CONFIG_FILE (disk s) /\
   Daemon.load_config json_load (disk r.2) = Daemon.load_config json_load (disk s)) /\
  Manager._load_or_create_config json_load Daemon.CONFIG_FILE
    (disk (Daemon.save_config json_dump s)) = Ok (config s, []) /\
  Daemon.load_config json_load (disk (Daemon.save_config json_dump s)) = config s.
Proof.
  intros H r. unfold r.
  destruct (save_outcome json_dump oserror Daemon.CONFIG_FILE s) as (_ & Ht & Hf & _).
  unfold Manager._load_or_create_config, Daemon.load_config.
  split; [|split].
  - intros E. destruct (Ht E) as [_ ->]. by rewrite H.
  - intros E. by rewrite (Hf E).
  - unfold Daemon.save_config, perform. cbn [disk config].
    rewrite run_save_config, H. done.
Qed.

(** X12, witness: the manager holds the configuration [plain] while
    the file still holds the rendering of [fresh]; after the save the
    daemon loads [plain]. *)
Lemma saved_config_loads_back_witness :
  Daemon.load_config (reader plain)
    (disk (Manager.save dump no_oserror Daemon.CONFIG_FILE
             (with_config (loaded Daemon.CONFIG_FILE fresh) plain)).2)
  = plain.
Proof.
  refine (proj2 (proj1 (saved_config_loads_back dump no_oserror (reader plain)
                          (with_config (loaded Daemon.CONFIG_FILE fresh) plain) _) _)).
  - vm_compute. reflexivity.
  - vm_compute. reflexivity.
Defined.

(** X13.  What loading does with a file it cannot read.  The daemon's
    [load_config] never fails: when the configuration file is missing
    or [json.load] does not return a configuration, for whatever
    reason, it returns the default configuration, on which nothing is
    due and [sync_cycle] opens no batch.  The manager's
    [_load_or_create_config] returns the default configuration for a
    missing file, without a warning, and for a file on which
    [json.load] raises [json.JSONDecodeError] or [IOError], with its
    two warning lines; any other exception, such as
    [UnicodeDecodeError], leaves the function. *)
Theorem load_falls_back_to_default {L : Croniter} (json_load : string -> load_outcome)
  (d : gmap string string) (w : Daemon.world) (now : datetime) :
  d !! Daemon.CONFIG_FILE = None \/
  (exists text, d !! Daemon.CONFIG_FILE = Some text /\
                forall c, json_load text <> Parsed c) ->
  let m := Manager._load_or_create_config json_load Daemon.CONFIG_FILE d in
  Daemon.load_config json_load d = default_config /\
  Daemon.get_due_mirrors now (Daemon.load_config json_load d) = ([], []) /\
  Daemon.sync_cycle_batch w now (Daemon.load_config json_load d) = None /\
  (forall e, m = Raise e
             <-> exists text, d !! Daemon.CONFIG_FILE = Some text /\
                              json_load text = OtherError e) /\
  (forall c out, m = Ok (c, out) ->
                 c = default_config /\ (out = [] <-> d !! Daemon.CONFIG_FILE = None)).
Proof.
  intros H m.
  assert (E : Daemon.load_config json_load d = default_config).
  { unfold Daemon.load_config. destruct H as [->|(text & -> & Hn)]; [done|].
    destruct (json_load text) as [c| | |] eqn:Ej; [by destruct (Hn c) | done..]. }
  rewrite E. split; [done|]. split; [done|]. split; [done|].
  unfold m, Manager._load_or_create_config.
  destruct H as [->|(text & -> & Hn)].
  - split.
    + intros e. split; [done | by intros (text & ? & _)].
    + by intros c out [= <- <-].
  - destruct (json_load text) as [c| | |] eqn:Ej; [by destruct (Hn c)|..].
    + split; [intros e' | intros c out [= <- <-]]; [|done].
      split; [done | intros (text' & [= <-] & Ej'); congruence].
    + split; [intros e' | intros c out [= <- <-]]; [|done].
      split; [done | intros (text' & [= <-] & Ej'); congruence].
    + split; [intros e' | by intros c out].
      split; [intros [= <-]; eauto | intros (text' & [= <-] & Ej'); congruence].
Qed.

(** X13, witness: a file that is not UTF-8.  The daemon falls back on
    the default configuration; the manager fails. *)
Lemma load_falls_back_to_default_witness :
  Daemon.load_config (reader plain) {[Daemon.CONFIG_FILE := String "255" ""]}
  = default_config /\
  exists e,
    Manager._load_or_create_config (reader plain) Daemon.CONFIG_FILE
      {[Daemon.CONFIG_FILE := String "255" ""]} = Raise e.
Proof.
  assert (H : ({[Daemon.CONFIG_FILE := String "255" ""]} : gmap string string)
                !! Daemon.CONFIG_FILE = None \/
              (exists text,
                 ({[Daemon.CONFIG_FILE := String "255" ""]} : gmap string string)
                   !! Daemon.CONFIG_FILE = Some text /\
                 forall c, reader plain text <> Parsed c)).
  { right. exists (String "255" ""). split; [reflexivity|]. intros c. vm_compute. discriminate. }
  destruct (load_falls_back_to_default (L := reference) (reader plain)
              {[Daemon.CONFIG_FILE := String "255" ""]} stuck noon H)
    as (E & _ & _ & Hr & _).
  split; [exact E|]. eexists. apply Hr. eexists. split; reflexivity.
Defined.

(** X14.  From the manager to the daemon.  A repository that
    [enable_mirror] adds is never synchronised; when the call has
    returned [True], the daemon, once it has loaded the file the
    manager saved, returns the repository as due as soon as the
    schedule has fired since the first of January 2000, with the
    timeout the manager stored.  The manager's own computation on the
    same configuration does not return it when fire times lie strictly
    after their start. *)
Theorem enabled_repository_reaches_daemon {L : Croniter}
  (json_dump : Config -> list string)
  (oserror : op -> gmap string string -> bool) (json_load : string -> load_outcome)
  (now now' : datetime) (repo_name : string) (sched limit : jval) (s : store)
  (cr : cron) (t : datetime) :
  let r := Manager.enable_mirror json_dump oserror Daemon.CONFIG_FILE now repo_name sched
             limit s in
  let sched' := if truthy sched then sched else schedule (defaults (config s)) in
  let limit' := if truthy limit then limit else timeout (defaults (config s)) in
  find_mirror repo_name (mirrors (config s)) = None ->
  croniter sched' = Ok cr ->
  get_next cr (midnight 2000 1 1) = Ok t ->
  le_now t now' = Ok true ->
  json_load (concat_chunks (json_dump (config r.2))) = Parsed (config r.2) ->
  (r.1 = true ->
   Daemon.Due repo_name limit' JNull
     ∈ (Daemon.get_due_mirrors now' (Daemon.load_config json_load (disk r.2))).1) /\
  (strictly_after L -> tzinfo now' = None ->
   (exists t', get_next cr now' = Ok t') ->
   repo_name ∉ (Manager.get_due_mirrors now' (config r.2)).*1).
Proof.
  intros r sched' limit' Hf Hc Hn Hle Hload.
  assert (Hok : truthy sched = false \/ (exists c, croniter sched = Ok c)).
  { unfold sched' in Hc. destruct (truthy sched); [right; eauto | by left]. }
  pose proof (enable_mirror_unfold json_dump oserror Daemon.CONFIG_FILE now repo_name sched
                limit s Hok) as Hr.
  cbv zeta in Hr. fold sched' limit' r in Hr. rewrite Hf in Hr.
  set (e := Manager.new_entry now sched' limit') in *.
  set (c' := with_mirrors (config s) (mirrors (config s) ++ [(repo_name, e)])) in *.
  destruct (save_outcome json_dump oserror Daemon.CONFIG_FILE (with_config s c'))
    as (Ec & Hs' & _ & _).
  rewrite <- Hr in Ec, Hs'. cbn [config with_config] in Ec, Hs'.
  rewrite Ec in Hload |- *.
  assert (He : truthy (get e "enabled" (JBool true)) = true) by done.
  assert (Hl : truthy (get_none e "last_sync") = false) by done.
  assert (Hs : e !! "schedule" = Some sched') by done.
  assert (Ht : get e "timeout" (timeout (defaults (config s))) = limit') by done.
  split.
  - intros Etrue. destruct (Hs' Etrue) as [_ Hdisk].
    unfold Daemon.load_config. rewrite Hdisk, Hload.
    unfold Daemon.get_due_mirrors. cbn [fst]. apply sorted_elem_of. simpl mirrors.
    rewrite daemon_scan_app. cbn [fst]. apply elem_of_app. right.
    rewrite daemon_scan_cons. cbn [fst].
    rewrite (daemon_never_synced_due now' _ repo_name e cr t He Hl); try done.
    cbn [fst]. apply elem_of_app. left. simpl defaults. rewrite Ht.
    apply list_elem_of_here.
  - intros HL Hnow [t' Hn'] ([n m] & Hname & Hx)%list_elem_of_fmap. simpl in Hname.
    subst n. unfold Manager.get_due_mirrors in Hx. apply sorted_elem_of in Hx.
    simpl mirrors in Hx. rewrite manager_scan_app in Hx.
    apply elem_of_app in Hx as [Hx|Hx].
    + apply manager_scan_enabled in Hx as [Hx _].
      apply elem_find_mirror in Hx. rewrite Hf in Hx. by destruct Hx.
    + rewrite manager_scan_cons in Hx.
      rewrite (manager_never_synced_not_due now' repo_name e sched' cr t' HL Hnow Hl Hs Hc Hn')
        in Hx.
      by apply elem_of_nil in Hx.
Qed.

(** X14, witness: the first repository, enabled at noon with the
    defaults on a disk that takes every write, is due for the daemon
    at noon. *)
Lemma enabled_repository_reaches_daemon_witness :
  Daemon.Due "fresh" (JNum 600) JNull
  ∈ (Daemon.get_due_mirrors (L := reference) noon
       (Daemon.load_config
          (reader (with_entries [("fresh", Manager.new_entry (L := reference) noon six_hourly
                                             (JNum 600))]))
          (disk (Manager.enable_mirror (L := reference) dump no_oserror Daemon.CONFIG_FILE
                   noon "fresh" JNull JNull (loaded Daemon.CONFIG_FILE default_config)).2))).1.
Proof.
  refine (proj1 (enabled_repository_reaches_daemon (L := reference) dump no_oserror
                   (reader (with_entries [("fresh", Manager.new_entry (L := reference) noon
                                                      six_hourly (JNum 600))]))
                   noon noon "fresh" JNull JNull (loaded Daemon.CONFIG_FILE default_config)
                   (Daily (At 0) (Every 6)) (DT 2000 1 1 6 0 0 0 None) _ _ _ _ _) _);
    vm_compute; reflexivity.
Defined.

(** ** Log sink: writing a line *)

Lemma quiet_remove {F : Type} (p : string) (d : gmap string F) :
  FS.quiet (FS.remove p d) d = delete p d.
Proof.
  unfold FS.remove. destruct (d !! p) eqn:E; simpl; [done|].
  symmetry. by apply delete_id.
Qed.

Lemma fold_remove_lookup {F : Type} (l : list string) (d : gmap string F) (p : string) :
  foldl (fun d' old_log => FS.quiet (FS.remove old_log d') d') d l !! p
  = if bool_decide (p ∈ l) then None else d !! p.
Proof.
  revert d. induction l as [|x l IH]; intros d; simpl; [done|].
  rewrite IH, quiet_remove. destruct (decide (p = x)) as [->|Hne].
  - rewrite lookup_delete_eq. rewrite (bool_decide_eq_true_2 (x ∈ x :: l)) by apply list_elem_of_here.
    by case_bool_decide.
  - rewrite lookup_delete_ne by done.
    destruct (bool_decide (p ∈ l)) eqn:E.
    + apply bool_decide_eq_true in E.
      by rewrite (bool_decide_eq_true_2 (p ∈ x :: l)) by (by apply list_elem_of_further).
    + apply bool_decide_eq_false in E.
      rewrite (bool_decide_eq_false_2 (p ∈ x :: l)); [done|].
      intros [?|?]%elem_of_cons; done.
Qed.

Lemma fold_rotate_numbered_keeps (l : list string) (d : gmap string LogSink.file) :
  LogSink.LOG_FILE ∉ l ->
  foldl LogSink.rotate_numbered d l !! LogSink.LOG_FILE = d !! LogSink.LOG_FILE.
Proof.
  revert d. induction l as [|x l IH]; intros d Hl; simpl; [done|].
  apply not_elem_of_cons in Hl as [Hx Hl]. rewrite IH by done.
  unfold LogSink.rotate_numbered. destruct (py_int _) as [num|]; [|done].
  unfold FS.rename. destruct (d !! x) eqn:E; simpl; [|done].
  rewrite lookup_insert_ne by apply backup_ne_log.
  by rewrite lookup_delete_ne by done.
Qed.

Lemma glob_elem_of {F : Type} (prefix p : string) (d : gmap string F) :
  p ∈ FS.glob prefix d <-> FS.glob_match prefix p = true /\ is_Some (d !! p).
Proof.
  unfold FS.glob. rewrite list_elem_of_In, filter_In, <- list_elem_of_In.
  rewrite list_elem_of_fmap. split.
  - intros [([k v] & -> & Hkv) Hm]. apply elem_of_map_to_list in Hkv. eauto.
  - intros [Hm [v Hv]]. split; [|done]. exists (p, v). split; [done|].
    by apply elem_of_map_to_list.
Qed.

Lemma strip_prefix_self_dot (f : string) : FS.strip_prefix (f +:+ ".") f = None.
Proof.
  induction f as [|c f IH]; [done|].
  rewrite string_app_cons. simpl. by rewrite Ascii.eqb_refl.
Qed.

Lemma log_not_globbed {F : Type} (f : string) (d : gmap string F) :
  f ∉ FS.glob (f +:+ ".") d.
Proof.
  intros [H _]%glob_elem_of. unfold FS.glob_match in H.
  by rewrite strip_prefix_self_dot in H.
Qed.

(** X16.  [MirrorLogger._log] loses no line.  The line written is the
    one sent to standard output.  When the active file is missing it
    is created with that line; when it is below the size limit the
    line is appended and nothing else changes; when it has reached the
    limit its content becomes backup 1, backups 1 and 2 move up, and
    the active file starts anew with the line.  After the call the
    active file is shorter than the limit plus the line, and no path
    other than the active file and its three backups has changed. *)
Theorem logger_log_effect (f ts level msg : string) (d : gmap string LogSink.file) :
  let line := LogSink.log_line ts level msg in
  let n := Z.of_nat (String.length line) in
  let r := LogSink._log f ts level msg d in
  r.2 = line /\
  (forall p, p <> f -> p <> LogSink.backup f 1 -> p <> LogSink.backup f 2 ->
             p <> LogSink.backup f 3 -> r.1 !! p = d !! p) /\
  match d !! f with
  | None => r.1 = <[f := LogSink.File n line]> d
  | Some c =>
      if LogSink.MAX_LOG_SIZE <=? LogSink.size c
      then r.1 !! f = Some (LogSink.File n line) /\
           r.1 !! LogSink.backup f 1 = Some c /\
           r.1 !! LogSink.backup f 2 = d !! LogSink.backup f 1 /\
           r.1 !! LogSink.backup f 3 = d !! LogSink.backup f 2
      else r.1 = <[f := LogSink.File (LogSink.size c + n) (LogSink.data c +:+ line)]> d
  end /\
  exists c', r.1 !! f = Some c' /\ LogSink.size c' < LogSink.MAX_LOG_SIZE + n.
Proof.
  intros line n r. unfold r, LogSink._log. fold line. cbn [fst snd].
  split; [done|]. unfold LogSink._rotate_if_needed.
  destruct (d !! f) as [c|] eqn:E.
  - destruct (LogSink.MAX_LOG_SIZE <=? LogSink.size c) eqn:Hs.
    + destruct (logger_rotate_logs_shift f d) as (E0 & E1 & E2 & E3 & E4).
      unfold LogSink.append. rewrite E0. fold n.
      pose proof (backup_ne_log f 1). pose proof (backup_ne_log f 2).
      pose proof (backup_ne_log f 3).
      split; [|split].
      * intros p ? ? ? ?. rewrite lookup_insert_ne by done. by apply E4.
      * rewrite lookup_insert_eq, !lookup_insert_ne by done.
        rewrite E1, E2, E3, E. done.
      * eexists. rewrite lookup_insert_eq. split; [done|]. simpl.
        unfold LogSink.MAX_LOG_SIZE. lia.
    + unfold LogSink.append. rewrite E. fold n. split; [|split].
      * intros p ? ? ? ?. by rewrite lookup_insert_ne.
      * done.
      * eexists. rewrite lookup_insert_eq. split; [done|]. simpl.
        apply Z.leb_gt in Hs. lia.
  - unfold LogSink.append. rewrite E. fold n. split; [|split].
    + intros p ? ? ? ?. by rewrite lookup_insert_ne.
    + done.
    + eexists. rewrite lookup_insert_eq. split; [done|]. simpl.
      unfold LogSink.MAX_LOG_SIZE. lia.
Qed.

(** X17.  [SimpleLogger._log] keeps the content of the active file.
    When the file is missing it is created with the line; below the
    size limit the line is appended and nothing else changes; at the
    limit, whatever backups exist, the content of the active file
    becomes backup 1 and the active file starts anew with the line.
    After the call the active file is shorter than the limit plus the
    line. *)
Theorem daemon_log_effect (ts level msg : string) (d : gmap string LogSink.file) :
  let line := LogSink.log_line ts level msg in
  let n := Z.of_nat (String.length line) in
  let r := LogSink.daemon_log ts level msg d in
  r.2 = line /\
  match d !! LogSink.LOG_FILE with
  | None => r.1 = <[LogSink.LOG_FILE := LogSink.File n line]> d
  | Some c =>
      if LogSink.MAX_LOG_SIZE <=? LogSink.size c
      then r.1 !! LogSink.LOG_FILE = Some (LogSink.File n line) /\
           r.1 !! LogSink.backup LogSink.LOG_FILE 1 = Some c
      else r.1 = <[LogSink.LOG_FILE :=
                     LogSink.File (LogSink.size c + n) (LogSink.data c +:+ line)]> d
  end /\
  exists c', r.1 !! LogSink.LOG_FILE = Some c' /\
             LogSink.size c' < LogSink.MAX_LOG_SIZE + n.
Proof.
  intros line n r. unfold r, LogSink.daemon_log. fold line. cbn [fst snd].
  split; [done|]. unfold LogSink.check_rotation.
  destruct (d !! LogSink.LOG_FILE) as [c|] eqn:E.
  - destruct (LogSink.MAX_LOG_SIZE <=? LogSink.size c) eqn:Hs.
    + set (existing_logs := sorted _ _).
      assert (Hin : forall p, p ∈ existing_logs -> p <> LogSink.LOG_FILE).
      { intros p Hp ->. apply sorted_elem_of in Hp. by apply log_not_globbed in Hp. }
      set (d1 := foldl _ d (drop _ existing_logs)).
      assert (H1 : d1 !! LogSink.LOG_FILE = Some c).
      { unfold d1. rewrite fold_remove_lookup. rewrite bool_decide_eq_false_2; [done|].
        intros Hp. apply (subseteq_drop _ existing_logs), Hin in Hp. done. }
      set (d2 := foldl LogSink.rotate_numbered d1 _).
      assert (H2 : d2 !! LogSink.LOG_FILE = Some c).
      { unfold d2. rewrite fold_rotate_numbered_keeps; [done|].
        intros Hp. apply (subseteq_take _ existing_logs), Hin in Hp. done. }
      cbv zeta. unfold FS.rename. rewrite H2. cbn [FS.quiet].
      unfold LogSink.append.
      pose proof (backup_ne_log LogSink.LOG_FILE 1) as Hb.
      rewrite lookup_insert_ne, lookup_delete_eq by done. fold n.
      rewrite lookup_insert_eq, lookup_insert_ne, lookup_insert_eq by done.
      split; [done|]. eexists. split; [done|]. simpl. unfold LogSink.MAX_LOG_SIZE. lia.
    + unfold LogSink.append. rewrite E. fold n. split; [done|].
      eexists. rewrite lookup_insert_eq. split; [done|]. simpl.
      apply Z.leb_gt in Hs. lia.
  - unfold LogSink.append. rewrite E. fold n. split; [done|].
    eexists. rewrite lookup_insert_eq. split; [done|]. simpl.
    unfold LogSink.MAX_LOG_SIZE. lia.
Qed.

(** ** Log sink: reading and cleaning *)

Lemma last_slice_suffix {A : Type} (limit : Z) (l : list A) :
  LogSink.last_slice limit l `suffix_of` l.
Proof. unfold LogSink.last_slice. destruct (0 <? limit); apply suffix_drop. Qed.

Lemma last_slice_length {A : Type} (limit : Z) (l : list A) :
  0 < limit -> (length (LogSink.last_slice limit l) <= Z.to_nat limit)%nat.
Proof.
  intros H. unfold LogSink.last_slice. apply Z.ltb_lt in H as ->.
  rewrite length_drop. lia.
Qed.

Lemma last_slice_app {A : Type} (limit : Z) (l1 l2 : list A) :
  0 < limit -> (Z.to_nat limit <= length l2)%nat ->
  LogSink.last_slice limit (l1 ++ l2) = LogSink.last_slice limit l2.
Proof.
  intros H Hl. unfold LogSink.last_slice. apply Z.ltb_lt in H as ->.
  rewrite length_app, drop_app.
  rewrite drop_ge by lia. simpl. f_equal. lia.
Qed.

(** X18.  [get_recent_logs] with a repository name returns only lines
    that contain the name; with a positive [limit] it returns at most
    [limit] lines; and whatever the limit, the lines returned are the
    end of the list returned without limit, in the same order. *)
Theorem recent_logs_filtered_and_bounded (log_file : string) (c : ascii) (repo : string)
  (repo_name : option string) (limit : Z) (d : gmap string LogSink.file) :
  Forall (fun line => LogSink.contains (String c repo) line = true)
         (LogSink.get_recent_logs log_file (Some (String c repo)) limit d) /\
  (0 < limit ->
   (length (LogSink.get_recent_logs log_file repo_name limit d) <= Z.to_nat limit)%nat) /\
  LogSink.get_recent_logs log_file repo_name limit d
    `suffix_of` LogSink.get_recent_logs log_file repo_name 0 d.
Proof.
  unfold LogSink.get_recent_logs. change (0 =? 0) with true. cbv iota.
  set (all := LogSink.lines_of log_file d ++ _). split; [|split].
  - assert (H : Forall (fun line => LogSink.contains (String c repo) line = true)
                       (List.filter (LogSink.contains (String c repo)) all)).
    { apply Forall_forall. intros x Hx. by apply list_elem_of_In, filter_In in Hx as [_ Hx]. }
    destruct (limit =? 0); [done|].
    eapply Forall_forall. intros x Hx.
    eapply Forall_forall in H; [exact H|].
    destruct (last_slice_suffix limit (List.filter (LogSink.contains (String c repo)) all))
      as [k Hk].
    rewrite Hk. apply elem_of_app. by right.
  - intros Hl. destruct (limit =? 0) eqn:E; [apply Z.eqb_eq in E; lia|].
    by apply last_slice_length.
  - destruct (limit =? 0); [done|]. apply last_slice_suffix.
Qed.

(** X19.  The lines of the active file come first in the list that
    [get_recent_logs] builds and those of the last backup come last:
    when backup 3 holds at least [limit] lines, the call without a
    repository name returns the last [limit] lines of backup 3, the
    oldest file, and no line of the active file. *)
Theorem recent_logs_end_with_oldest_backup (log_file : string) (limit : Z)
  (d : gmap string LogSink.file) :
  0 < limit ->
  (Z.to_nat limit <= length (LogSink.lines_of (LogSink.backup log_file 3) d))%nat ->
  LogSink.get_recent_logs log_file None limit d
  = LogSink.last_slice limit (LogSink.lines_of (LogSink.backup log_file 3) d).
Proof.
  intros Hl Hn. unfold LogSink.get_recent_logs.
  replace (limit =? 0) with false by (symmetry; apply Z.eqb_neq; lia).
  unfold LogSink.range_up, LogSink.MAX_ROTATED_LOGS. csimpl.
  rewrite app_nil_r, !app_assoc. by apply last_slice_app.
Qed.

(** X19, witness: one line in the active file and one in backup 3. *)
Lemma recent_logs_end_with_oldest_backup_witness :
  LogSink.get_recent_logs "sync.log" None 1
    {["sync.log" := LogSink.File 4 "new"; "sync.log.3" := LogSink.File 4 "old"]}
  = ["old"].
Proof.
  refine (recent_logs_end_with_oldest_backup "sync.log" 1
            {["sync.log" := LogSink.File 4 "new"; "sync.log.3" := LogSink.File 4 "old"]} _ _).
  - lia.
  - vm_compute. lia.
Defined.

(** *** Numerals: printing and reading an integer *)

Lemma rev_app_rev_app (a b c : string) :
  String.rev_app (String.rev_app a b) c = String.rev_app b (a +:+ c).
Proof.
  revert b c. induction a as [|x a IH]; intros b c; [done|].
  simpl String.rev_app. rewrite IH. by rewrite string_app_cons.
Qed.

Lemma all_digit_chars_rev_app (a b : string) :
  LogSink.all_digit_chars (String.rev_app a b)
  = LogSink.all_digit_chars a && LogSink.all_digit_chars b.
Proof.
  revert b. induction a as [|x a IH]; intros b; [done|].
  simpl. rewrite IH. simpl. destruct (bool_decide _), (LogSink.all_digit_chars a); done.
Qed.

Lemma digit_not_space (c : ascii) : is_Some (digit_val c) -> is_space c = false.
Proof.
  unfold digit_val, is_space. intros [v Hv].
  destruct ((48 <=? nat_of_ascii c)%nat && (nat_of_ascii c <=? 57)%nat) eqn:E; [|done].
  apply andb_true_iff in E as [E1%Nat.leb_le E2%Nat.leb_le].
  apply orb_false_iff. split; apply andb_false_iff.
  - right. apply Nat.leb_gt. lia.
  - right. apply Nat.leb_gt. lia.
Qed.

Lemma lstrip_digits (s : string) : LogSink.all_digit_chars s = true -> lstrip s = s.
Proof.
  destruct s as [|c s]; [done|]. simpl.
  intros [Hc%bool_decide_eq_true _]%andb_true_iff. by rewrite digit_not_space.
Qed.

Lemma strip_digits (s : string) : LogSink.all_digit_chars s = true -> strip s = s.
Proof.
  intros H. unfold strip. rewrite (lstrip_digits s H).
  assert (Hr : LogSink.all_digit_chars (String.rev s) = true).
  { unfold String.rev. by rewrite all_digit_chars_rev_app, H. }
  rewrite (lstrip_digits _ Hr). unfold String.rev.
  rewrite rev_app_rev_app. simpl. by rewrite string_app_empty_r.
Qed.

Lemma numeral_all_digits (d : Decimal.uint) :
  LogSink.all_digit_chars (NilEmpty.string_of_uint d) = true.
Proof. induction d; simpl; try done; by rewrite bool_decide_eq_true_2 by (vm_compute; eauto). Qed.

Lemma numeral_no_dot (d : Decimal.uint) :
  FS.contains_char "." (NilEmpty.string_of_uint d) = false.
Proof. induction d; simpl; done. Qed.

Lemma int_digits_numeral (d : Decimal.uint) (acc : Z) :
  int_digits (NilEmpty.string_of_uint d) acc true = Some (horner d acc).
Proof.
  revert acc. induction d as [|d IH|d IH|d IH|d IH|d IH|d IH|d IH|d IH|d IH|d IH];
    intros acc; [done|..];
    cbn [NilEmpty.string_of_uint horner int_digits];
    match goal with
    | |- context [digit_val ?c] =>
        let v := eval vm_compute in (digit_val c) in change (digit_val c) with v
    end; cbv iota; rewrite IH; do 2 f_equal; lia.
Qed.

(** A natural number printed by [str] is a non-empty string of digits
    that [int] reads back. *)
Lemma str_of_Z_read (v : Z) :
  0 <= v ->
  py_int (str_of_Z v) = Some v /\
  LogSink.isdigit (str_of_Z v) = true /\
  FS.contains_char "." (str_of_Z v) = false /\
  FS.contains_char "/" (str_of_Z v) = false.
Proof.
  intros Hv. destruct v as [|p|p]; [by vm_compute | | lia].
  destruct (to_uint_head p) as [H1 H2].
  assert (Hs : str_of_Z (Z.pos p) = NilEmpty.string_of_uint (Pos.to_uint p)).
  { unfold str_of_Z. simpl. by destruct (Pos.to_uint p). }
  pose proof (horner_to_uint p) as Hh.
  rewrite Hs. clear Hs. revert H1 H2 Hh. generalize (Pos.to_uint p). intros d H1 H2 Hh.
  pose proof (numeral_all_digits d) as Hd.
  split; [|split; [|split]].
  - unfold py_int. rewrite strip_digits by done.
    destruct d; try done; cbn [NilEmpty.string_of_uint]; cbv iota beta;
      cbn [int_digits];
      match goal with
      | |- context [digit_val ?c] =>
          let v := eval vm_compute in (digit_val c) in change (digit_val c) with v
      end; cbv iota; rewrite int_digits_numeral; by rewrite <- Hh.
  - unfold LogSink.isdigit. rewrite Hd. by destruct d.
  - apply numeral_no_dot.
  - clear. induction d; simpl; done.
Qed.

(** *** [clear_old_logs] *)

Lemma fold_clear_lookup (l : list string) (d : gmap string LogSink.file) (p : string) :
  foldl (fun d' path =>
           if LogSink.beyond_retention path then FS.quiet (FS.remove path d') d' else d')
        d l !! p
  = if bool_decide (p ∈ l) && LogSink.beyond_retention p then None else d !! p.
Proof.
  revert d. induction l as [|x l IH]; intros d; simpl; [done|].
  rewrite IH. destruct (decide (p = x)) as [->|Hne].
  - rewrite (bool_decide_eq_true_2 (x ∈ x :: l)) by apply list_elem_of_here.
    destruct (LogSink.beyond_retention x) eqn:Hb.
    + rewrite quiet_remove, lookup_delete_eq. by destruct (bool_decide _).
    + by rewrite andb_false_r.
  - assert (Hd : (if LogSink.beyond_retention x then FS.quiet (FS.remove x d) d else d) !! p
                 = d !! p).
    { destruct (LogSink.beyond_retention x); [|done].
      by rewrite quiet_remove, lookup_delete_ne. }
    rewrite Hd.
    replace (bool_decide (p ∈ x :: l)) with (bool_decide (p ∈ l)); [done|].
    apply bool_decide_ext. rewrite elem_of_cons. tauto.
Qed.

Lemma strip_prefix_app (a b : string) : FS.strip_prefix a (a +:+ b) = Some b.
Proof.
  induction a as [|c a IH]; [by destruct b|].
  rewrite string_app_cons. simpl. by rewrite Ascii.eqb_refl.
Qed.

Lemma last_component_app_dot (f s : string) :
  FS.contains_char "." s = false -> LogSink.last_component (f +:+ "." +:+ s) = s.
Proof.
  intros Hs. induction f as [|c f IH].
  - rewrite string_app_nil, string_app_cons, string_app_nil. simpl. by rewrite Hs.
  - rewrite string_app_cons. simpl.
    rewrite contains_char_app, string_app_cons, string_app_nil. simpl.
    by rewrite orb_true_r.
Qed.

Lemma count_parts_app (a b : string) :
  LogSink.count_parts (a +:+ b) = (LogSink.count_parts a + LogSink.count_parts b - 1)%nat.
Proof.
  induction a as [|c a IH]; [rewrite string_app_nil; simpl; lia|].
  rewrite string_app_cons. simpl. destruct (Ascii.eqb c "."); rewrite IH; [|done].
  assert (1 <= LogSink.count_parts a)%nat by (clear; induction a; simpl; [lia|]; case_match; lia).
  lia.
Qed.

Lemma count_parts_dot (s : string) :
  (2 <=? LogSink.count_parts s)%nat = FS.contains_char "." s.
Proof.
  assert (H1 : forall a, (1 <= LogSink.count_parts a)%nat)
    by (intros a; induction a; simpl; [lia|]; case_match; lia).
  induction s as [|c s IH]; [done|]. cbn [LogSink.count_parts FS.contains_char].
  rewrite (Ascii.eqb_sym "." c). destruct (Ascii.eqb c ".") eqn:E; cbn [orb].
  - apply Nat.leb_le. specialize (H1 s). lia.
  - exact IH.
Qed.

(** X20.  [clear_old_logs] removes exactly the files next to the log
    file whose name extends [log_file + "."], has more than two parts
    between dots, and ends in a number greater than three.  So the
    active file and the backups numbered up to three are kept; when
    the path of the log file contains a dot, every backup with a
    higher number is removed; and when it contains none, no backup is
    ever removed. *)
Theorem clear_old_logs_effect (log_file : string) (d : gmap string LogSink.file) :
  let d' := LogSink.clear_old_logs log_file d in
  (forall p, d' !! p = if FS.glob_match (log_file +:+ ".") p && LogSink.beyond_retention p
                        then None else d !! p) /\
  d' !! log_file = d !! log_file /\
  (forall i, 0 <= i <= 3 -> d' !! LogSink.backup log_file i = d !! LogSink.backup log_file i) /\
  (forall i, 3 < i -> FS.contains_char "." log_file = true ->
             d' !! LogSink.backup log_file i = None) /\
  (forall i, 0 <= i -> FS.contains_char "." log_file = false ->
             d' !! LogSink.backup log_file i = d !! LogSink.backup log_file i).
Proof.
  assert (Hall : forall p,
    LogSink.clear_old_logs log_file d !! p
    = if FS.glob_match (log_file +:+ ".") p && LogSink.beyond_retention p
      then None else d !! p).
  { intros p. unfold LogSink.clear_old_logs. rewrite fold_clear_lookup.
    destruct (LogSink.beyond_retention p); [|by rewrite !andb_false_r].
    rewrite !andb_true_r.
    destruct (FS.glob_match (log_file +:+ ".") p) eqn:Hm.
    - destruct (d !! p) as [x|] eqn:E; [|by destruct (bool_decide _)].
      rewrite bool_decide_eq_true_2; [done|]. apply glob_elem_of. split; [done|]. eauto.
    - rewrite bool_decide_eq_false_2; [done|]. intros [H _]%glob_elem_of. congruence. }
  assert (Hbr : forall i, 0 <= i ->
    LogSink.beyond_retention (LogSink.backup log_file i)
    = FS.contains_char "." log_file && (3 <? i)).
  { intros i Hi. destruct (str_of_Z_read i Hi) as (Hint & Hdig & Hdot & _).
    unfold LogSink.beyond_retention, LogSink.backup.
    rewrite last_component_app_dot by done. rewrite Hint, Hdig.
    rewrite !count_parts_app. change (LogSink.count_parts ".") with 2%nat.
    assert (Hc : LogSink.count_parts (str_of_Z i) = 1%nat).
    { pose proof (count_parts_dot (str_of_Z i)) as Hc. rewrite Hdot in Hc.
      apply Nat.leb_gt in Hc.
      assert (1 <= LogSink.count_parts (str_of_Z i))%nat
        by (clear; induction (str_of_Z i); simpl; [lia|]; case_match; lia).
      lia. }
    rewrite Hc, <- count_parts_dot, andb_true_r. f_equal.
    change (Z.of_nat LogSink.MAX_ROTATED_LOGS) with 3.
    apply eq_true_iff_eq. rewrite Nat.ltb_lt, Nat.leb_le. lia. }
  cbv zeta. split; [exact Hall|]. split; [|split; [|split]].
  - rewrite Hall. unfold FS.glob_match. by rewrite strip_prefix_self_dot.
  - intros i [Hi Hi3]. rewrite Hall, Hbr by done.
    replace (3 <? i) with false by (symmetry; apply Z.ltb_ge; lia).
    by rewrite !andb_false_r.
  - intros i Hi Hdot. rewrite Hall, Hbr by lia. rewrite Hdot.
    replace (3 <? i) with true by (symmetry; apply Z.ltb_lt; lia).
    unfold FS.glob_match, LogSink.backup.
    rewrite <- string_app_assoc, strip_prefix_app.
    destruct (str_of_Z_read i) as (_ & _ & _ & ->); [lia | done].
  - intros i Hi Hdot. rewrite Hall, Hbr by done. rewrite Hdot.
    by rewrite andb_false_r.
Qed.

(** ** Executor: what a batch records *)

Lemma sync_repository_error w repo_name limit :
  Daemon.success (Daemon.sync_repository w repo_name limit).1 = true
  <-> Daemon.error (Daemon.sync_repository w repo_name limit).1 = None.
Proof.
  unfold Daemon.sync_repository. destruct (negb _); [done|].
  destruct (Daemon.git_remote_update _ _ _) as [[rc err| |msg] el]; try done.
  by destruct (rc =? 0).
Qed.

(** X21.  What one job does.  [sync_repository] runs the external
    command at most once: not at all when the directory of the
    repository is missing, and otherwise once, on that directory and
    with the timeout of the job.  It returns an error message exactly
    when it reports failure.  The last thing it does is to log the
    outcome, at level SUCCESS or ERROR in agreement with the flag it
    returns, and the error message returned is the one logged after
    the name of the repository; what it logs before is at level INFO.
    A missing directory is reported with a duration of zero. *)
Theorem sync_repository_events (w : Daemon.world) (repo_name : string) (limit : jval) :
  let r := Daemon.sync_repository w repo_name limit in
  let repo_path := Daemon.path_join "/opt/cgit/data/repositories" (repo_name +:+ ".git") in
  (Daemon.success r.1 = true <-> Daemon.error r.1 = None) /\
  List.filter (fun ev => match ev with Daemon.Spawned _ _ => true | _ => false end) r.2
  = (if Daemon.isdir w repo_path
     then [Daemon.Spawned ["git"; "-C"; repo_path; "remote"; "update"; "--prune"] limit]
     else []) /\
  (exists pre msg,
     r.2 = pre ++ [Daemon.Logged
                     (Daemon.LogRecord (if Daemon.success r.1 then "SUCCESS" else "ERROR") msg)]
     /\ (forall e, Daemon.error r.1 = Some e -> msg = repo_name +:+ ": " +:+ e)
     /\ Forall (fun ev => match ev with
                          | Daemon.Logged rec => Daemon.level rec = "INFO"
                          | Daemon.Spawned _ _ => True
                          end) pre) /\
  (Daemon.isdir w repo_path = false -> Daemon.duration r.1 = 0).
Proof.
  cbv zeta. split; [apply sync_repository_error|].
  unfold Daemon.sync_repository.
  set (repo_path := Daemon.path_join _ _).
  destruct (Daemon.isdir w repo_path); simpl negb; cbv iota.
  - destruct (Daemon.git_remote_update w repo_path limit) as [[rc err| |msg] el];
      [destruct (rc =? 0)|..]; cbn [fst snd Daemon.success Daemon.error Daemon.duration];
      (split; [done|]); (split; [|done]);
      eexists [_; _], _; (split; [reflexivity|]);
      (split; [by intros e [= <-] | by repeat constructor]).
  - cbn [fst snd Daemon.success Daemon.error Daemon.duration].
    split; [done|]. split; [|done].
    exists [], (repo_name +:+ ": " +:+ "Repository path does not exist: " +:+ repo_path).
    split; [done|]. split; [by intros e [= <-] | constructor].
Qed.

Ltac elem_cases H :=
  repeat (rewrite elem_of_app in H || rewrite elem_of_cons in H || rewrite elem_of_nil in H);
  repeat (rewrite elem_of_app || rewrite elem_of_cons || rewrite elem_of_nil);
  tauto.

Section Batch.
Context {L : Croniter}.
Variable json_dump : Config -> list string.
Variable w : Daemon.world.
Variable max_workers : nat.

Lemma record_result_names t1 t2 r s :
  (mirrors (config (Daemon.record_result json_dump t1 t2 r s))).*1 = (mirrors (config s)).*1.
Proof.
  unfold Daemon.record_result, Daemon.update_sync_status.
  destruct (Daemon.success r), (find_mirror (Daemon.repo r) (mirrors (config s)));
    simpl; try done; apply update_mirror_names.
Qed.

Lemma record_result_other t1 t2 r s other :
  other <> Daemon.repo r ->
  find_mirror other (mirrors (config (Daemon.record_result json_dump t1 t2 r s)))
  = find_mirror other (mirrors (config s)).
Proof.
  intros Hne. unfold Daemon.record_result, Daemon.update_sync_status.
  destruct (Daemon.success r), (find_mirror (Daemon.repo r) (mirrors (config s)));
    simpl; try done; by apply find_update_other.
Qed.

Lemma record_result_entry t1 t2 r s m :
  find_mirror (Daemon.repo r) (mirrors (config s)) = Some m ->
  exists m',
    find_mirror (Daemon.repo r) (mirrors (config (Daemon.record_result json_dump t1 t2 r s)))
    = Some m' /\
    m' !! "last_status" = Some (JStr (if Daemon.success r then "success" else "failed")) /\
    m' !! "last_error"
    = Some (if Daemon.success r then JNull else from_option JStr JNull (Daemon.error r)).
Proof.
  intros H. unfold Daemon.record_result.
  destruct (Daemon.success r);
    [destruct (daemon_update_entry json_dump t1 t2 (Daemon.repo r) (JStr "success") JNull s m H)
       as (m' & ? & ? & ? & ? & _)
    |destruct (daemon_update_entry json_dump t1 t2 (Daemon.repo r) (JStr "failed")
                 (from_option JStr JNull (Daemon.error r)) s m H)
       as (m' & ? & ? & ? & ? & _)];
    exists m'; done.
Qed.

Lemma find_mirror_names (n : string) (l : list (string * gmap string jval)) :
  is_Some (find_mirror n l) <-> n ∈ l.*1.
Proof.
  split.
  - intros [m Hm]. apply find_mirror_elem in Hm. apply list_elem_of_fmap. by exists (n, m).
  - intros ([k m] & -> & H)%list_elem_of_fmap. by eapply elem_find_mirror.
Qed.

(** Along a batch: the jobs come from the list of due mirrors, every
    result is the outcome of one of them, only the entries of handled
    jobs have changed, and each handled entry carries the status of its
    outcome. *)
Lemma pool_results_reachable s0 due_mirrors p :
  NoDup (Daemon.name <$> due_mirrors) ->
  Daemon.reachable json_dump w max_workers (Daemon.start s0 due_mirrors) p ->
  (forall j, j ∈ Daemon.to_submit p ++ Daemon.work_queue p -> j ∈ due_mirrors) /\
  (forall j, Daemon.Busy j ∈ Daemon.threads p -> j ∈ due_mirrors) /\
  (forall r, r ∈ Daemon.finished p ++ Daemon.collected p ->
     exists j, j ∈ due_mirrors /\
       r = (Daemon.sync_repository w (Daemon.name j) (Daemon.due_timeout j)).1) /\
  (mirrors (config (Daemon.manager p))).*1 = (mirrors (config s0)).*1 /\
  (forall n', n' ∉ Daemon.repo <$> Daemon.collected p ->
     find_mirror n' (mirrors (config (Daemon.manager p)))
     = find_mirror n' (mirrors (config s0))) /\
  (forall r, r ∈ Daemon.collected p ->
     forall m, find_mirror (Daemon.repo r) (mirrors (config s0)) = Some m ->
     exists m',
       find_mirror (Daemon.repo r) (mirrors (config (Daemon.manager p))) = Some m' /\
       m' !! "last_status" = Some (JStr (if Daemon.success r then "success" else "failed")) /\
       m' !! "last_error"
       = Some (if Daemon.success r then JNull else from_option JStr JNull (Daemon.error r))).
Proof.
  intros Hnd. induction 1 as [|p p' Hreach IH Hstep].
  - simpl. repeat split; try done.
    + intros j Hj. by rewrite app_nil_r in Hj.
    + by intros j ?%elem_of_nil.
    + by intros r ?%elem_of_nil.
    + by intros r ?%elem_of_nil.
  - destruct IH as (I1 & I2 & I3 & I4 & I5 & I6).
    pose proof (pool_inv_reachable json_dump w max_workers _ _ _ Hreach) as (_ & Hacc & _).
    destruct Hstep; simpl in *.
    + repeat split; try done.
      intros j' Hj'. apply I1. elem_cases Hj'.
    + repeat split; try done.
      intros j' [Hj'|Hj']%elem_of_app; [by apply I2|].
      by apply list_elem_of_singleton in Hj'.
    + repeat split; try done.
      * intros j' Hj'. apply I1. elem_cases Hj'.
      * intros j' Hj'. apply list_elem_of_lookup in Hj' as [i' Hi'].
        destruct (decide (i = i')) as [<-|Hne].
        -- rewrite list_lookup_insert_eq in Hi' by (by eapply lookup_lt_Some).
           injection Hi' as <-. apply I1. rewrite elem_of_app, elem_of_cons. tauto.
        -- rewrite list_lookup_insert_ne in Hi' by done.
           apply I2. by eapply list_elem_of_lookup_2.
    + repeat split; try done.
      * intros j' Hj'. apply list_elem_of_lookup in Hj' as [i' Hi'].
        destruct (decide (i = i')) as [<-|Hne].
        -- by rewrite list_lookup_insert_eq in Hi' by (by eapply lookup_lt_Some).
        -- rewrite list_lookup_insert_ne in Hi' by done.
           apply I2. by eapply list_elem_of_lookup_2.
      * intros r Hr. rewrite <- app_assoc in Hr.
        apply elem_of_app in Hr as [Hr|Hr]; [apply I3, elem_of_app; by left|].
        apply elem_of_app in Hr as [Hr|Hr]; [|apply I3, elem_of_app; by right].
        apply list_elem_of_singleton in Hr as ->. exists j. split; [|done].
        apply I2. by eapply list_elem_of_lookup_2.
    + assert (Hfresh : Daemon.repo r ∉ Daemon.repo <$> col).
      { rewrite <- Hacc in Hnd. unfold Daemon.accounted in Hnd. simpl in Hnd.
        apply NoDup_app in Hnd as (_ & _ & Hnd).
        apply NoDup_app in Hnd as (_ & _ & Hnd).
        rewrite fmap_app in Hnd. csimpl in Hnd.
        rewrite <- app_assoc in Hnd.
        apply NoDup_app in Hnd as (_ & _ & Hnd). csimpl in Hnd.
        apply NoDup_cons in Hnd as [Hnd _].
        intros Hin. apply Hnd. apply elem_of_app. by right. }
      split; [done|]. split; [done|]. split; [|split; [|split]].
      * intros r' Hr'. apply I3. elem_cases Hr'.
      * by rewrite record_result_names.
      * intros n' Hn'. rewrite fmap_app in Hn'. csimpl in Hn'.
        rewrite elem_of_app, list_elem_of_singleton in Hn'.
        rewrite record_result_other by tauto. apply I5. tauto.
      * intros r' [Hr'|Hr']%elem_of_app m Hm.
        -- rewrite record_result_other; [exact (I6 r' Hr' m Hm)|].
           intros E. apply Hfresh. rewrite <- E. apply list_elem_of_fmap. by exists r'.
        -- apply list_elem_of_singleton in Hr' as ->.
           eapply record_result_entry. rewrite I5; [exact Hm | exact Hfresh].
    + repeat split; done.
Qed.

Lemma daemon_visit_one_names now c n m :
  Daemon.name <$> (Daemon.visit_one now c (n, m)).1 = []
  \/ Daemon.name <$> (Daemon.visit_one now c (n, m)).1 = [n].
Proof.
  unfold Daemon.visit_one, Daemon.due_visit.
  destruct (negb _); [by left|].
  destruct (Daemon.due_check now c n m) as [[d|]|e] eqn:Hc; simpl; try by left.
  right. unfold Daemon.due_check in Hc.
  repeat match type of Hc with
  | bind ?r _ = _ => destruct r; simpl in Hc; [|done]
  end.
  injection Hc as Hc. case_match; [|done]. by injection Hc as <-.
Qed.

Lemma daemon_scan_names_sublist now c l :
  Daemon.name <$> (Daemon.scan now c l).1 `sublist_of` l.*1.
Proof.
  induction l as [|[n m] l IH]; [done|].
  rewrite daemon_scan_cons. cbn [fst]. rewrite fmap_app.
  change (((n, m) :: l).*1) with (n :: l.*1).
  destruct (daemon_visit_one_names now c n m) as [-> | ->]; simpl.
  - by apply sublist_cons.
  - by apply sublist_skip.
Qed.

Lemma daemon_due_names_NoDup now c :
  NoDup (mirrors c).*1 -> NoDup (Daemon.name <$> (Daemon.get_due_mirrors now c).1).
Proof.
  intros Hnd. unfold Daemon.get_due_mirrors. cbn [fst].
  rewrite (sorted_perm Daemon.key_leb).
  eapply sublist_NoDup; [exact Hnd | apply daemon_scan_names_sublist].
Qed.

End Batch.

(** X22.  What a cycle leaves behind.  When the [with] block of
    [sync_cycle] has been left, whatever the interleaving of the
    threads, every repository that was due carries in the configuration
    the status of its own job: [success] with no error when
    [sync_repository] reported success, [failed] with the error message
    otherwise.  The entries of the repositories that were not due are
    as loaded, and no entry has been added or removed. *)
Theorem batch_records_every_outcome {L : Croniter} (json_dump : Config -> list string)
  (w : Daemon.world) (now : datetime) (cfg : Config) (s : store)
  (n : nat) (due_mirrors : list Daemon.due) (p : Daemon.pool) :
  NoDup (mirrors cfg).*1 ->
  Daemon.sync_cycle_batch w now cfg = Some (n, due_mirrors) ->
  Daemon.reachable json_dump w n (Daemon.start (with_config s cfg) due_mirrors) p ->
  Daemon.exited p = true ->
  (forall j, j ∈ due_mirrors ->
     let o := (Daemon.sync_repository w (Daemon.name j) (Daemon.due_timeout j)).1 in
     exists m',
       find_mirror (Daemon.name j) (mirrors (config (Daemon.manager p))) = Some m' /\
       m' !! "last_status" = Some (JStr (if Daemon.success o then "success" else "failed")) /\
       m' !! "last_error" = Some (from_option JStr JNull (Daemon.error o))) /\
  (forall other, other ∉ Daemon.name <$> due_mirrors ->
     find_mirror other (mirrors (config (Daemon.manager p))) = find_mirror other (mirrors cfg)) /\
  (mirrors (config (Daemon.manager p))).*1 = (mirrors cfg).*1.
Proof.
  intros Hnd Hbatch Hreach Hexit.
  assert (Hdue : due_mirrors = (Daemon.get_due_mirrors now cfg).1).
  { unfold Daemon.sync_cycle_batch in Hbatch.
    destruct (Daemon.get_due_mirrors now cfg).1 as [|d l]; [done|].
    destruct (Daemon.max_workers_of _ _); [|done]. by injection Hbatch as _ <-. }
  assert (Hnd' : NoDup (Daemon.name <$> due_mirrors))
    by (rewrite Hdue; by apply daemon_due_names_NoDup).
  destruct (pool_inv_reachable json_dump w n _ _ _ Hreach) as (_ & Hacc & Hex).
  destruct (Hex Hexit) as (E1 & E2 & E3 & E4).
  unfold Daemon.accounted in Hacc. rewrite E1, E2, E3, E4 in Hacc. simpl in Hacc.
  destruct (pool_results_reachable json_dump w n _ _ _ Hnd' Hreach)
    as (_ & _ & I3 & I4 & I5 & I6).
  simpl in I4, I5, I6. split; [|split].
  - intros j Hj o.
    assert (Hin : Daemon.name j ∈ Daemon.repo <$> Daemon.collected p).
    { rewrite Hacc. apply list_elem_of_fmap. by exists j. }
    apply list_elem_of_fmap in Hin as (r & Hname & Hr).
    destruct (I3 r) as (j' & Hj' & Hr'); [apply elem_of_app; by right|].
    assert (j' = j) as ->.
    { assert (Hn : Daemon.name j' = Daemon.name j).
      { rewrite Hname, Hr'. by rewrite sync_repository_repo. }
      clear -Hnd' Hj Hj' Hn. induction due_mirrors as [|x l IH]; [by apply elem_of_nil in Hj|].
      csimpl in Hnd'. apply NoDup_cons in Hnd' as [Hx Hl].
      apply elem_of_cons in Hj as [->|Hj], Hj' as [->|Hj']; try done.
      - exfalso. apply Hx. rewrite <- Hn. apply list_elem_of_fmap. by exists j'.
      - exfalso. apply Hx. rewrite Hn. apply list_elem_of_fmap. by exists j.
      - by apply IH. }
    assert (Hsome : is_Some (find_mirror (Daemon.name j) (mirrors cfg))).
    { rewrite Hdue in Hj. unfold Daemon.get_due_mirrors in Hj. cbn [fst] in Hj.
      apply sorted_elem_of in Hj. apply daemon_scan_enabled in Hj as (m & Hm & _).
      by eapply elem_find_mirror. }
    destruct Hsome as [m Hm].
    destruct (I6 r Hr m) as (m' & F1 & F2 & F3); [by rewrite <- Hname|].
    exists m'. rewrite Hname. fold o in Hr'. rewrite <- Hr'.
    split; [done|]. split; [done|]. rewrite F3.
    destruct (Daemon.success r) eqn:Es; [|done].
    rewrite Hr' in Es. apply sync_repository_error in Es. fold o in Es.
    rewrite Hr', Es. done.
  - intros other Hother. apply I5. by rewrite Hacc.
  - exact I4.
Qed.

(** X22, witness: three due repositories on two workers, finished and
    handled out of order.  [alpha] is recorded as a success, [beta],
    whose command timed out, and [gamma], whose directory is missing,
    as failures, and the repository that was not due is as loaded. *)
Lemma batch_records_every_outcome_witness :
  (exists ma mb mc,
     find_mirror "alpha" (mirrors (config (Daemon.manager crowd_done))) = Some ma /\
     ma !! "last_status" = Some (JStr "success") /\
     ma !! "last_error" = Some JNull /\
     find_mirror "beta" (mirrors (config (Daemon.manager crowd_done))) = Some mb /\
     mb !! "last_status" = Some (JStr "failed") /\
     mb !! "last_error" = Some (JStr "Timeout after 600s") /\
     find_mirror "gamma" (mirrors (config (Daemon.manager crowd_done))) = Some mc /\
     mc !! "last_status" = Some (JStr "failed")) /\
  find_mirror "recent" (mirrors (config (Daemon.manager crowd_done)))
  = find_mirror "recent" (mirrors crowd).
Proof.
  assert (Hb : Daemon.sync_cycle_batch (L := reference) mixed noon crowd
               = Some (2%nat, [alpha_job; beta_job; gamma_job]))
    by (vm_compute; reflexivity).
  assert (Hdone : Daemon.reachable (L := reference) dump mixed 2 crowd_start crowd_done).
  { apply (plays_reachable (L := reference) dump mixed 2 crowd_start crowd_end_moves
             crowd_start); [apply Daemon.reach_start | vm_compute; reflexivity]. }
  assert (Hn : NoDup (mirrors crowd).*1).
  { apply (bool_decide_unpack (NoDup (mirrors crowd).*1)). vm_compute. exact I. }
  destruct (batch_records_every_outcome (L := reference) dump mixed noon crowd
              (loaded Daemon.CONFIG_FILE crowd) 2 [alpha_job; beta_job; gamma_job]
              crowd_done Hn Hb Hdone eq_refl) as (H1 & H2 & _).
  destruct (H1 alpha_job) as (ma & Fa & Sa & Ea); [by repeat constructor|].
  destruct (H1 beta_job) as (mb & Fb & Sb & Eb); [by repeat constructor|].
  destruct (H1 gamma_job) as (mc & Fc & Sc & _); [by repeat constructor|].
  split.
  - exists ma, mb, mc. repeat split; [exact Fa | exact Sa | exact Ea | exact Fb | exact Sb
                                     | exact Eb | exact Fc | exact Sc].
  - apply H2.
    apply (bool_decide_unpack ("recent" ∉ Daemon.name <$> [alpha_job; beta_job; gamma_job])).
    vm_compute. exact I.
Defined.

(** ** Scheduler: what a job is given *)

Lemma daemon_scan_fields {L : Croniter} now c l d :
  d ∈ (Daemon.scan now c l).1 ->
  exists m, (Daemon.name d, m) ∈ l /\
            truthy (get m "enabled" (JBool true)) = true /\
            Daemon.due_timeout d = get m "timeout" (timeout (defaults c)) /\
            Daemon.last_sync d = get_none m "last_sync" /\
            Daemon.due_check now c (Daemon.name d) m = Ok (Some d).
Proof.
  induction l as [|[n m] l IH]; [by intros ?%elem_of_nil|].
  rewrite daemon_scan_cons. cbn [fst]. intros [H|H]%elem_of_app.
  - exists m. unfold Daemon.visit_one, Daemon.due_visit in H.
    destruct (truthy (get m "enabled" (JBool true))) eqn:E; simpl in H;
      [|by apply elem_of_nil in H].
    destruct (Daemon.due_check now c n m) as [[d'|]|e] eqn:Hc; simpl in H;
      try (by apply elem_of_nil in H).
    apply list_elem_of_singleton in H as ->.
    assert (Hd : d' = Daemon.Due n (get m "timeout" (timeout (defaults c)))
                        (get_none m "last_sync")).
    { unfold Daemon.due_check in Hc.
      repeat match type of Hc with
      | bind ?r _ = _ => destruct r; simpl in Hc; [|done]
      end.
      injection Hc as Hc. case_match; [|done]. by injection Hc as <-. }
    subst d'. simpl. split; [apply list_elem_of_here | done].
  - destruct (IH H) as (m' & ? & ?). exists m'. split; [by apply list_elem_of_further | done].
Qed.

(** X25.  The timeout of a job is the one of its entry.  Every element
    of the list that the daemon's [get_due_mirrors] returns names an
    enabled entry of the configuration and carries the [timeout] field
    of that entry, or the default timeout when the entry has none, and
    its [last_sync] field; and the command that [sync_repository] then
    runs for it, if any, is given exactly that timeout. *)
Theorem due_job_carries_entry_timeout {L : Croniter} (w : Daemon.world) (now : datetime)
  (c : Config) (d : Daemon.due) :
  NoDup (mirrors c).*1 ->
  d ∈ (Daemon.get_due_mirrors now c).1 ->
  exists m,
    find_mirror (Daemon.name d) (mirrors c) = Some m /\
    truthy (get m "enabled" (JBool true)) = true /\
    Daemon.due_timeout d = get m "timeout" (timeout (defaults c)) /\
    Daemon.last_sync d = get_none m "last_sync" /\
    forall argv limit,
      Daemon.Spawned argv limit
        ∈ (Daemon.sync_repository w (Daemon.name d) (Daemon.due_timeout d)).2 ->
      limit = get m "timeout" (timeout (defaults c)).
Proof.
  intros Hnd Hd. unfold Daemon.get_due_mirrors in Hd. cbn [fst] in Hd.
  apply sorted_elem_of in Hd. apply daemon_scan_fields in Hd as (m & Hm & He & Ht & Hl & _).
  exists m. split; [|split; [done|split; [done|split; [done|]]]].
  - destruct (elem_find_mirror _ _ _ Hm) as [m' Hm'].
    rewrite Hm'. f_equal. apply find_mirror_elem in Hm'.
    by apply (NoDup_names_unique _ _ _ _ Hnd Hm' Hm).
  - intros argv limit. rewrite Ht. unfold Daemon.sync_repository.
    destruct (negb _); simpl.
    + intros [?|?%elem_of_nil]%elem_of_cons; done.
    + destruct (Daemon.git_remote_update _ _ _) as [[rc err| |msg] el];
        [destruct (rc =? 0)|..]; simpl;
        repeat (rewrite elem_of_cons); rewrite elem_of_nil;
        intros [?|[?|[?|?]]]; try done; congruence.
Qed.

(** X25, witness: the sample repository and its timeout of ten
    minutes. *)
Lemma due_job_carries_entry_timeout_witness :
  exists m,
    find_mirror "fresh" (mirrors fresh) = Some m /\
    Daemon.due_timeout fresh_job = get m "timeout" (timeout (defaults fresh)).
Proof.
  assert (Hn : NoDup (mirrors fresh).*1)
    by (vm_compute; repeat constructor; by intros ?%elem_of_nil).
  assert (Hd : fresh_job ∈ (Daemon.get_due_mirrors (L := reference) noon fresh).1)
    by (vm_compute; apply list_elem_of_here).
  destruct (due_job_carries_entry_timeout (L := reference) stuck noon fresh fresh_job Hn Hd)
    as (m & H1 & _ & H3 & _).
  exists m. split; [exact H1 | exact H3].
Defined.

(** ** Scheduler: when the order of the keys is the order in time *)

Lemma digit_compare (c1 c2 : ascii) (x1 x2 : Z) :
  digit_val c1 = Some x1 -> digit_val c2 = Some x2 ->
  Ascii.compare c1 c2 = (x1 ?= x2).
Proof.
  unfold digit_val, Ascii.compare, nat_of_ascii.
  destruct (_ && _); [|done]. destruct (_ && _); [|done].
  intros [= <-] [= <-]. rewrite !N_nat_Z, <- N2Z.inj_compare.
  destruct (Z.compare_spec (Z.of_N (N_of_ascii c1)) (Z.of_N (N_of_ascii c2)));
    symmetry; [apply Z.compare_eq_iff | apply Z.compare_lt_iff | apply Z.compare_gt_iff];
    lia.
Qed.

Lemma digit_val_range (c : ascii) (x : Z) : digit_val c = Some x -> 0 <= x <= 9.
Proof.
  unfold digit_val.
  destruct ((48 <=? nat_of_ascii c)%nat && (nat_of_ascii c <=? 57)%nat) eqn:E; [|done].
  apply andb_true_iff in E as [E1%Nat.leb_le E2%Nat.leb_le]. intros [= <-]. lia.
Qed.

Lemma take_digits_bounds (n : nat) (acc : Z) (s : string) (v : Z) (r : string) :
  take_digits n acc s = Some (v, r) ->
  acc * 10 ^ Z.of_nat n <= v < (acc + 1) * 10 ^ Z.of_nat n.
Proof.
  revert acc s. induction n as [|n IH]; intros acc s H.
  - simpl in H. injection H as <- _. simpl. lia.
  - destruct s as [|c s]; [done|]. simpl in H.
    destruct (digit_val c) as [x|] eqn:Hx; [|done].
    apply digit_val_range in Hx. apply IH in H.
    rewrite Nat2Z.inj_succ, Z.pow_succ_r by lia.
    assert (0 < 10 ^ Z.of_nat n) by (apply Z.pow_pos_nonneg; lia). nia.
Qed.

Lemma take_digits_compare (n : nat) (acc : Z) (s1 s2 : string) (v1 v2 : Z)
  (r1 r2 : string) :
  take_digits n acc s1 = Some (v1, r1) -> take_digits n acc s2 = Some (v2, r2) ->
  String.compare s1 s2
  = match v1 ?= v2 with
    | Eq => String.compare r1 r2
    | c => c
    end.
Proof.
  revert acc s1 s2. induction n as [|n IH]; intros acc s1 s2 H1 H2.
  - simpl in H1, H2. injection H1 as <- <-. injection H2 as <- <-.
    by rewrite Z.compare_refl.
  - destruct s1 as [|c1 s1]; [done|]. destruct s2 as [|c2 s2]; [done|].
    simpl in H1, H2.
    destruct (digit_val c1) as [x1|] eqn:Hx1; [|done].
    destruct (digit_val c2) as [x2|] eqn:Hx2; [|done].
    simpl. rewrite (digit_compare c1 c2 x1 x2 Hx1 Hx2).
    apply take_digits_bounds in H1 as B1. apply take_digits_bounds in H2 as B2.
    assert (0 < 10 ^ Z.of_nat n) by (apply Z.pow_pos_nonneg; lia).
    destruct (Z.compare_spec x1 x2) as [->|Hlt|Hgt].
    + by apply (IH (10 * acc + x2)).
    + assert (Hv : v1 < v2) by nia. by apply Z.compare_lt_iff in Hv as ->.
    + assert (Hv : v2 < v1) by nia. by apply Z.compare_gt_iff in Hv as ->.
Qed.

(** Two numbers printed with the same number of digits compare as
    strings the way they compare as numbers. *)
Lemma fixed_compare (n : nat) (a b : Z) (r1 r2 : string) :
  (1 <= n)%nat -> 0 <= a < 10 ^ Z.of_nat n -> 0 <= b < 10 ^ Z.of_nat n ->
  String.compare (fixed n a +:+ r1) (fixed n b +:+ r2)
  = match a ?= b with
    | Eq => String.compare r1 r2
    | c => c
    end.
Proof.
  intros Hn Ha Hb. eapply take_digits_compare; by apply take_digits_fixed.
Qed.

Lemma fixed_sep_compare (n : nat) (a b : Z) (c : ascii) (r1 r2 : string) :
  (1 <= n)%nat -> 0 <= a < 10 ^ Z.of_nat n -> 0 <= b < 10 ^ Z.of_nat n ->
  String.compare (fixed n a +:+ String c EmptyString +:+ r1)
                 (fixed n b +:+ String c EmptyString +:+ r2)
  = match a ?= b with
    | Eq => String.compare r1 r2
    | c => c
    end.
Proof.
  intros Hn Ha Hb. rewrite fixed_compare by done.
  rewrite !string_app_cons, !string_app_nil. simpl.
  unfold Ascii.compare. by rewrite N.compare_refl.
Qed.

Lemma string_compare_refl (s : string) : String.compare s s = Eq.
Proof.
  induction s as [|c s IH]; [done|]. simpl.
  unfold Ascii.compare. by rewrite N.compare_refl.
Qed.

Lemma lex_leb_compare (x y : Z) (a b : list Z) :
  lex_leb (x :: a) (y :: b)
  = match x ?= y with
    | Lt => true
    | Eq => lex_leb a b
    | Gt => false
    end.
Proof.
  cbn [lex_leb]. destruct (Z.compare_spec x y) as [->|H|H].
  - by rewrite Z.ltb_irrefl, Z.eqb_refl.
  - by apply Z.ltb_lt in H as ->.
  - replace (x <? y) with false by (symmetry; apply Z.ltb_ge; lia).
    replace (x =? y) with false by (symmetry; apply Z.eqb_neq; lia). done.
Qed.

(** The fraction that [isoformat] prints, followed by [sfx]: it
    compares like the microseconds, unless one of the two values is on
    a whole second and a suffix follows. *)
Lemma fraction_compare (u1 u2 : Z) (sfx : string) :
  0 <= u1 < 1000000 -> 0 <= u2 < 1000000 ->
  sfx = "" \/ (u1 = 0 <-> u2 = 0) ->
  String.compare ((if u1 =? 0 then "" else "." +:+ fixed 6 u1) +:+ sfx)
                 ((if u2 =? 0 then "" else "." +:+ fixed 6 u2) +:+ sfx)
  = (u1 ?= u2).
Proof.
  intros H1 H2 Hs.
  destruct (Z.eqb_spec u1 0) as [E1|E1], (Z.eqb_spec u2 0) as [E2|E2].
  - subst. rewrite !string_app_nil. apply string_compare_refl.
  - destruct Hs as [->|Hs]; [|tauto]. subst u1.
    rewrite string_app_nil, string_app_empty_r, string_app_cons. simpl.
    destruct u2; [done | done | lia].
  - destruct Hs as [->|Hs]; [|tauto]. subst u2.
    rewrite string_app_nil, string_app_empty_r, string_app_cons. simpl.
    destruct u1; [done | done | lia].
  - rewrite !string_app_assoc, !string_app_cons, !string_app_nil.
    change (String.compare (String "." ?a) (String "." ?b)) with (String.compare a b).
    rewrite fixed_compare by (simpl; lia). rewrite string_compare_refl.
    by destruct (u1 ?= u2).
Qed.

(** The timestamps that the programs write sort like the times they
    denote. *)
Lemma isoformat_leb (a b : datetime) (sfx : string) :
  valid a = true -> valid b = true ->
  sfx = "" \/ (microsecond a = 0 <-> microsecond b = 0) ->
  String.leb (isoformat a +:+ sfx) (isoformat b +:+ sfx) = naive_leb a b.
Proof.
  intros Ha Hb Hs.
  apply valid_ranges in Ha as (A1 & A2 & A3 & A4 & A5 & A6 & A7).
  apply valid_ranges in Hb as (B1 & B2 & B3 & B4 & B5 & B6 & B7).
  unfold String.leb, naive_leb, fields, isoformat.
  rewrite !string_app_assoc.
  rewrite !fixed_sep_compare by (simpl; lia).
  rewrite fixed_compare by (simpl; lia).
  rewrite fraction_compare by done.
  rewrite !lex_leb_compare.
  repeat match goal with
  | |- context [?x ?= ?y] => destruct (x ?= y); try reflexivity
  end.
Qed.

Lemma StronglySorted_weaken {A : Type} (R R' : A -> A -> Prop) (l : list A) :
  (forall x y, R x y -> R' x y) -> StronglySorted R l -> StronglySorted R' l.
Proof.
  intros H. induction 1 as [|x l _ IH Hx]; constructor; [done|].
  eapply Forall_impl; [exact Hx | apply H].
Qed.

Lemma manager_sort_key_str (s : string) : Manager.sort_key (JStr s) = s.
Proof.
  unfold Manager.sort_key, or_empty. simpl.
  destruct (String.eqb s "") eqn:E; [|done]. apply String.eqb_eq in E. by subst.
Qed.

(** X26.  Where the manager wrote the timestamps, its due list is in
    the order of time.  Of two entries that [MirrorConfig.get_due_mirrors]
    returns, whose [last_sync] fields are the [isoformat] of two times,
    the one returned first was synchronised first or at the same time:
    on these strings the string order of the sort key is the order of
    the times, fractions of a second included. *)
Theorem manager_due_chronological {L : Croniter} (now : datetime) (c : Config) :
  StronglySorted
    (fun x y =>
       forall tx ty, valid tx = true -> valid ty = true ->
         get_none x.2 "last_sync" = JStr (isoformat tx) ->
         get_none y.2 "last_sync" = JStr (isoformat ty) ->
         naive_leb tx ty = true)
    (Manager.get_due_mirrors now c).
Proof.
  eapply StronglySorted_weaken;
    [|apply (sorted_ordered Manager.key_leb);
      [intros x y; apply string_leb_total | intros x y z; apply string_leb_trans]].
  intros x y Hxy tx ty Hx Hy Ex Ey. unfold Manager.key_leb in Hxy.
  rewrite Ex, Ey, !manager_sort_key_str in Hxy.
  rewrite <- (isoformat_leb tx ty "") by (done || by left).
  by rewrite !string_app_empty_r.
Qed.

Lemma daemon_sort_key_str (n : string) (t : jval) (s : string) :
  Daemon.sort_key (Daemon.Due n t (JStr s)) = s.
Proof.
  unfold Daemon.sort_key, or_empty. simpl.
  destruct (String.eqb s "") eqn:E; [|done]. apply String.eqb_eq in E. by subst.
Qed.

(** X27.  Where the daemon wrote the timestamps, its due list is in
    the order of time as long as fractions of a second do not mix with
    whole seconds.  Of two elements that
    [SimpleConfigManager.get_due_mirrors] returns, whose [last_sync]
    fields are the [isoformat] of two times followed by [Z], both on
    a whole second or both with a fraction, the one returned first was
    synchronised first or at the same time. *)
Theorem daemon_due_chronological {L : Croniter} (now : datetime) (c : Config) :
  StronglySorted
    (fun x y =>
       forall tx ty, valid tx = true -> valid ty = true ->
         (microsecond tx = 0 <-> microsecond ty = 0) ->
         Daemon.last_sync x = JStr (isoformat tx +:+ "Z") ->
         Daemon.last_sync y = JStr (isoformat ty +:+ "Z") ->
         naive_leb tx ty = true)
    (Daemon.get_due_mirrors now c).1.
Proof.
  eapply StronglySorted_weaken;
    [|apply (sorted_ordered Daemon.key_leb);
      [intros x y; apply string_leb_total | intros x y z; apply string_leb_trans]].
  intros [nx lx sx] [ny ly sy] Hxy tx ty Hx Hy Hu Ex Ey. simpl in Ex, Ey. subst sx sy.
  unfold Daemon.key_leb in Hxy. rewrite !daemon_sort_key_str in Hxy.
  rewrite <- (isoformat_leb tx ty "Z") by (done || by right). done.
Qed.
